(** * IteratoP: the convergent iteration controller

    A shallow embedding of the batch controller ([IterationProcessor], core.ts),
    of the streaming controller ([StreamingIteratoP], stream.ts) and of the
    evaluation constructor ([createEvaluation], utils.ts), with the properties
    of the specification proved about them.

    Conventions.
    - A JavaScript [number] is an IEEE-754 double.  Comparisons, [Math.max] and
      [Math.min] are exact on doubles, so they are modelled on the extended
      rationals plus [NaN] (every double is one of these values; [-0] and [0]
      are identified, which no comparison distinguishes).  Addition rounds, so
      it is never computed here: the development is parametric in it.
    - [maxIterations] and [minIterations] are integers, as in the data model of
      the specification, and [Date.now()] yields integer milliseconds.
    - The phase callbacks, the listeners and the logger are opaque functions of
      the caller.  They act on an abstract [World] (their closures, the clock,
      the console) and either return or throw.  They are assumed not to
      re-enter the controller nor to mutate the history they are handed. *)

From Stdlib Require Import ZArith QArith Bool List Sorted String Lia.
From Stdlib Require Import DecimalString.
Import ListNotations.

Local Open Scope string_scope.
Local Open Scope Z_scope.
Local Open Scope list_scope.

(* ===================================================================== *)
(** * JavaScript numbers, as far as ordering goes *)
(* ===================================================================== *)

Module JS.

Inductive number : Type :=
| NaN
| NegInf
| Fin (q : Q)
| PosInf.

Definition of_Z (z : Z) : number := Fin (inject_Z z).

(** [a >= b] *)
Definition ge (a b : number) : bool :=
  match a, b with
  | NaN, _ | _, NaN => false
  | PosInf, _ => true
  | _, NegInf => true
  | Fin x, Fin y => Qle_bool y x
  | _, _ => false
  end.

(** [a > b] *)
Definition gt (a b : number) : bool :=
  match a, b with
  | NaN, _ | _, NaN => false
  | _, PosInf => false
  | PosInf, _ => true
  | NegInf, _ => false
  | Fin _, NegInf => true
  | Fin x, Fin y => negb (Qle_bool x y)
  end.

(** [a < b] *)
Definition lt (a b : number) : bool := gt b a.

(** [Math.max(a, b)]: [NaN] as soon as one argument is. *)
Definition max (a b : number) : number :=
  match a, b with
  | NaN, _ | _, NaN => NaN
  | _, _ => if ge a b then a else b
  end.

(** [Math.min(a, b)] *)
Definition min (a b : number) : number :=
  match a, b with
  | NaN, _ | _, NaN => NaN
  | _, _ => if ge b a then a else b
  end.

(** Truthiness of a number in a condition: [0] and [NaN] are falsy. *)
Definition truthy (a : number) : bool :=
  match a with
  | NaN => false
  | Fin q => negb (Qeq_bool q 0)
  | _ => true
  end.

(** [x ?? d] *)
Definition nullish {A : Type} (x : option A) (d : A) : A :=
  match x with Some v => v | None => d end.

(** What a JavaScript program can throw: an [Error] object, or any other
    value (kept through [String(value)]). *)
Inductive thrown : Type :=
| ErrorObj (message : string)
| Value (text : string).

(** [error instanceof Error ? error : new Error(String(error))] *)
Definition toError (t : thrown) : thrown :=
  match t with
  | ErrorObj m => ErrorObj m
  | Value s => ErrorObj s
  end.

(** Template literal interpolation of an integer. *)
Definition show (z : Z) : string := NilZero.string_of_int (Z.to_int z).

End JS.

Definition number : Type := JS.number.
Definition thrown : Type := JS.thrown.
Notation "x ?? d" := (JS.nullish x d) (at level 45, left associativity).

Definition num (z : Z) : number := JS.of_Z z.

(* ===================================================================== *)
(** * types.ts *)
(* ===================================================================== *)

(** [Record<string, unknown>]: the values are opaque to the controller and
    are kept as text. *)
Definition Metadata := list (string * string).

Record Evaluation : Type := mkEvaluation {
  score : number;
  shouldContinue : bool;
  feedback : string;
  missingInfo : option (list string);
  metadata : option Metadata
}.

(** [Partial<Omit<Evaluation, 'score'>>] *)
Record EvaluationOptions : Type := mkEvaluationOptions {
  o_shouldContinue : option bool;
  o_feedback : option string;
  o_missingInfo : option (list string);
  o_metadata : option Metadata
}.

Definition no_options : EvaluationOptions := mkEvaluationOptions None None None None.

(* ===================================================================== *)
(** * utils.ts: createEvaluation *)
(* ===================================================================== *)

Definition createEvaluation (s : number) (options : EvaluationOptions) : Evaluation :=
  {| score := JS.max (num 0) (JS.min (num 100) s);
     shouldContinue := o_shouldContinue options ?? JS.lt s (num 70);
     feedback := o_feedback options ?? "";
     missingInfo := o_missingInfo options;
     metadata := o_metadata options |}.

(** [x] lies in the closed interval [[0, 100]]. *)
Definition in_score_range (x : number) : bool :=
  JS.ge x (num 0) && JS.ge (num 100) x.

Record ActionMetadata : Type := mkActionMetadata {
  sources : option (list string);
  cost : option number;
  latency : option number;
  warnings : option (list string)
}.

Inductive TerminationReason : Type :=
| Converged
| EarlyStop
| MaxIterations
| Timeout
| ManualStop.

(** The reason as the string of the union type. *)
Definition reason_name (r : TerminationReason) : string :=
  match r with
  | Converged => "converged"
  | EarlyStop => "early_stop"
  | MaxIterations => "max_iterations"
  | Timeout => "timeout"
  | ManualStop => "manual_stop"
  end.

Record IterationContext : Type := mkContext {
  ctx_iteration : Z;
  ctx_maxIterations : Z;
  ctx_elapsedTime : Z;
  ctx_previousEvaluation : option Evaluation
}.

(** A value handed to [logger.log] / [console.log] after the message. *)
Inductive LogValue : Type :=
| LInt (z : Z)
| LNum (x : number)
| LBool (b : bool)
| LStr (s : string).

Definition LogArgs := list (string * LogValue).

(** The result of a call: it returns or it throws. *)
Inductive outcome (A : Type) : Type :=
| Ok (a : A)
| Throw (e : thrown).
Arguments Ok {A} a.
Arguments Throw {A} e.

Set Implicit Arguments.

Section Controller.

(** The four type parameters of the controller, and the world its
    collaborators live in. *)
Variables Input State ActionData Result World : Type.

(** A caller-supplied function, run to completion (awaited): it may change
    the world, and returns or throws. *)
Definition Callback (A : Type) : Type := World -> outcome A * World.

Record ActionResult : Type := mkActionResult {
  data : ActionData;
  ar_metadata : option ActionMetadata
}.

Record IterationHistory : Type := mkHistory {
  h_iteration : Z;
  h_actionResult : ActionResult;
  h_evaluation : Evaluation;
  h_timestamp : Z;
  h_duration : Z
}.

Record IterationResult : Type := mkResult {
  r_result : Result;
  r_iterations : Z;
  r_finalScore : number;
  r_converged : bool;
  r_terminationReason : TerminationReason;
  r_totalCost : number;
  r_totalLatency : Z;
  r_history : list IterationHistory
}.

Record Logger : Type := mkLogger {
  logger_error : string -> thrown -> Callback unit;
  logger_log : option (string -> LogArgs -> Callback unit)
}.

(** [IterationConfig]: every field optional. *)
Record IterationConfig : Type := mkConfig {
  c_maxIterations : option Z;
  c_targetScore : option number;
  c_earlyStopScore : option number;
  c_minIterations : option Z;
  c_timeout : option number;
  c_verbose : option bool;
  c_alwaysRunTransition : option bool;
  c_skipMinIterations : option bool;
  c_logger : option Logger
}.

Definition empty_config : IterationConfig :=
  mkConfig None None None None None None None None None.

Record ResolvedConfig : Type := mkResolved {
  maxIterations : Z;
  targetScore : number;
  earlyStopScore : number;
  minIterations : Z;
  timeout : option number;
  verbose : bool;
  alwaysRunTransition : bool;
  skipMinIterations : bool;
  logger : option Logger
}.

Record IterationOptions : Type := mkOptions {
  initialize : Input -> Callback State;
  act : State -> IterationContext -> Callback ActionResult;
  evaluate : State -> ActionResult -> IterationContext -> Callback Evaluation;
  transition :
    State -> ActionResult -> Evaluation -> IterationContext -> Callback State;
  finalize : State -> list IterationHistory -> Callback Result;
  shouldTerminate :
    option (State -> Evaluation -> IterationContext -> Callback bool);
  onError :
    option (thrown -> option State -> IterationContext -> Callback Result)
}.

Inductive IterationEvent : Type :=
| EvStart (input : Input)
| EvIterationStart (iteration : Z)
| EvActionComplete (iteration : Z) (result : ActionResult)
| EvEvaluationComplete (iteration : Z) (evaluation : Evaluation)
| EvTransitionComplete (iteration : Z) (state : State)
| EvIterationComplete (iteration : Z) (entry : IterationHistory)
| EvConverged (iteration : Z) (score : number)
| EvComplete (result : IterationResult)
| EvError (error : thrown) (iteration : Z) (state : option State).

Definition IterationEventListener : Type := IterationEvent -> Callback unit.

(** ** What a run does, as seen from outside

    Every call the controller makes to a collaborator is recorded with its
    arguments and, for the phases, with its outcome. *)

Inductive PhaseCall : Type :=
| CInitialize (input : Input) (out : outcome State)
| CAct (s : State) (ctx : IterationContext) (out : outcome ActionResult)
| CEvaluate (s : State) (a : ActionResult) (ctx : IterationContext)
    (out : outcome Evaluation)
| CTransition (s : State) (a : ActionResult) (e : Evaluation)
    (ctx : IterationContext) (out : outcome State)
| CFinalize (s : State) (h : list IterationHistory) (out : outcome Result)
| CShouldTerminate (s : State) (e : Evaluation) (ctx : IterationContext)
    (out : outcome bool)
| COnError (err : thrown) (s : option State) (ctx : IterationContext)
    (out : outcome Result).

Inductive Observation : Type :=
| Emit (e : IterationEvent)                 (* [emit(e)] is entered *)
| Listen (k : nat) (e : IterationEvent) (out : outcome unit)
    (* listener number [k] was called with [e] *)
| LoggerError (message : string) (e : thrown)
| ConsoleError (message : string) (e : thrown)
| LoggerLog (message : string) (args : LogArgs)
| ConsoleLog (message : string) (args : LogArgs)
| Call (c : PhaseCall).

Definition Trace : Type := list Observation.

(** ** The monad of the controller

    A computation runs on a machine: the world, and the local variables [L]
    of the method being run.  It yields an outcome, the machine it leaves
    and the observations it made.  A [throw] keeps the machine, as the
    [catch] block of [run] reads the locals of the [try] block. *)

Record Machine (L : Type) : Type := mkMachine {
  world : World;
  locals : L
}.
Arguments mkMachine {L} _ _.
Arguments world {L} _.
Arguments locals {L} _.

Definition M (L A : Type) : Type :=
  Machine L -> outcome A * Machine L * Trace.

Definition ret {L A : Type} (a : A) : M L A := fun m => (Ok a, m, []).

Definition throw {L A : Type} (e : thrown) : M L A := fun m => (Throw e, m, []).

Definition bind {L A B : Type} (c : M L A) (k : A -> M L B) : M L B :=
  fun m =>
    match c m with
    | (Ok a, m1, t1) =>
        match k a m1 with
        | (o, m2, t2) => (o, m2, t1 ++ t2)
        end
    | (Throw e, m1, t1) => (Throw e, m1, t1)
    end.

(** [try { c } catch (e) { handler(e) }] *)
Definition try_catch {L A : Type} (c : M L A) (handler : thrown -> M L A) : M L A :=
  fun m =>
    match c m with
    | (Ok a, m1, t1) => (Ok a, m1, t1)
    | (Throw e, m1, t1) =>
        match handler e m1 with
        | (o, m2, t2) => (o, m2, t1 ++ t2)
        end
    end.

(** Run a callback of the caller. *)
Definition lift {L A : Type} (f : Callback A) : M L A :=
  fun m =>
    match f (world m) with
    | (o, w) => (o, mkMachine w (locals m), [])
    end.

Definition observe {L : Type} (o : Observation) : M L unit :=
  fun m => (Ok tt, m, [o]).

Definition get {L A : Type} (f : L -> A) : M L A :=
  fun m => (Ok (f (locals m)), m, []).

Definition modify {L : Type} (f : L -> L) : M L unit :=
  fun m => (Ok tt, mkMachine (world m) (f (locals m)), []).

(** Await a phase and record the call. *)
Definition phase {L A : Type} (f : Callback A) (record : outcome A -> PhaseCall)
  : M L A :=
  fun m =>
    match f (world m) with
    | (o, w) => (o, mkMachine w (locals m), [Call (record o)])
    end.

Declare Scope monad_scope.
Delimit Scope monad_scope with monad.
Notation "x <- c ;; k" := (bind c (fun x => k))
  (at level 61, c at next level, right associativity) : monad_scope.
Notation "c ;; k" := (bind c (fun _ => k))
  (at level 61, right associativity) : monad_scope.
Local Open Scope monad_scope.

(** ** The environment of the program

    - [Date_now]: [Date.now()]; reading the clock may move the world on.
    - [add]: [a + b] on doubles (rounded).
    - [JSON_stringify_length]: [JSON.stringify(data).length], which throws a
      [TypeError] when [JSON.stringify] yields [undefined], and whatever
      [JSON.stringify] throws. *)
Record Environment : Type := mkEnvironment {
  Date_now : World -> Z * World;
  add : number -> number -> number;
  JSON_stringify_length : ActionData -> outcome Z
}.

Variable env : Environment.

Definition now {L : Type} : M L Z :=
  fun m =>
    match Date_now env (world m) with
    | (z, w) => (Ok z, mkMachine w (locals m), [])
    end.

(** An operation of the language that returns or throws, and touches nothing. *)
Definition eval {L A : Type} (o : outcome A) : M L A := fun m => (o, m, []).

(* =================================================================== *)
(** * core.ts: IterationProcessor *)
(* =================================================================== *)

Record IterationProcessor : Type := mkProcessor {
  options : IterationOptions;
  config : ResolvedConfig;
  listeners : list IterationEventListener
}.

Definition invalid_configuration (minI maxI : Z) : thrown :=
  JS.ErrorObj
    ("Invalid configuration: minIterations (" ++ JS.show minI
     ++ ") cannot be greater than maxIterations (" ++ JS.show maxI ++ ")")%string.

(** [new IterationProcessor(options, config)] *)
Definition new_IterationProcessor
    (opts : IterationOptions) (cfg : IterationConfig) : outcome IterationProcessor :=
  let maxI := c_maxIterations cfg ?? 5 in
  let minI := c_minIterations cfg ?? 1 in
  if minI >? maxI then Throw (invalid_configuration minI maxI)
  else
    Ok {| options := opts;
          config :=
            {| maxIterations := maxI;
               targetScore := c_targetScore cfg ?? num 70;
               earlyStopScore := c_earlyStopScore cfg ?? num 95;
               minIterations := minI;
               timeout := c_timeout cfg;
               verbose := c_verbose cfg ?? false;
               alwaysRunTransition := c_alwaysRunTransition cfg ?? false;
               skipMinIterations := c_skipMinIterations cfg ?? false;
               logger := c_logger cfg |};
          listeners := [] |}.

(** [createIterator(options, config?)]: an absent [config] is [{}]. *)
Definition createIterator
    (opts : IterationOptions) (cfg : option IterationConfig) : outcome IterationProcessor :=
  new_IterationProcessor opts (cfg ?? empty_config).

(** [getConfig()]: a copy of the live configuration. *)
Definition getConfig (this : IterationProcessor) : ResolvedConfig := config this.

(** A field of the source object written over the target's: a key that is
    absent leaves the target's value.  (A key present with the value
    [undefined] is not modelled.) *)
Definition over {A : Type} (target : A) (source : option A) : A := source ?? target.

Definition over_opt {A : Type} (target source : option A) : option A :=
  match source with Some v => Some v | None => target end.

(** [Object.assign(this.config, config)] *)
Definition Object_assign (target : ResolvedConfig) (source : IterationConfig)
  : ResolvedConfig :=
  {| maxIterations := over (maxIterations target) (c_maxIterations source);
     targetScore := over (targetScore target) (c_targetScore source);
     earlyStopScore := over (earlyStopScore target) (c_earlyStopScore source);
     minIterations := over (minIterations target) (c_minIterations source);
     timeout := over_opt (timeout target) (c_timeout source);
     verbose := over (verbose target) (c_verbose source);
     alwaysRunTransition :=
       over (alwaysRunTransition target) (c_alwaysRunTransition source);
     skipMinIterations := over (skipMinIterations target) (c_skipMinIterations source);
     logger := over_opt (logger target) (c_logger source) |}.

(** [{ ...this.config, ...config }] *)
Definition spread (base : ResolvedConfig) (cfg : IterationConfig) : IterationConfig :=
  {| c_maxIterations := Some (over (maxIterations base) (c_maxIterations cfg));
     c_targetScore := Some (over (targetScore base) (c_targetScore cfg));
     c_earlyStopScore := Some (over (earlyStopScore base) (c_earlyStopScore cfg));
     c_minIterations := Some (over (minIterations base) (c_minIterations cfg));
     c_timeout := over_opt (timeout base) (c_timeout cfg);
     c_verbose := Some (over (verbose base) (c_verbose cfg));
     c_alwaysRunTransition :=
       Some (over (alwaysRunTransition base) (c_alwaysRunTransition cfg));
     c_skipMinIterations :=
       Some (over (skipMinIterations base) (c_skipMinIterations cfg));
     c_logger := over_opt (logger base) (c_logger cfg) |}.

(** [withConfig(config)]: a new processor; the listeners are not carried over. *)
Definition withConfig (this : IterationProcessor) (cfg : IterationConfig)
  : outcome IterationProcessor :=
  new_IterationProcessor (options this) (spread (config this) cfg).

(** [updateConfig(config)]: the outcome, and the processor after the call. *)
Definition updateConfig (this : IterationProcessor) (cfg : IterationConfig)
  : outcome unit * IterationProcessor :=
  let newMaxIterations := c_maxIterations cfg ?? maxIterations (config this) in
  let newMinIterations := c_minIterations cfg ?? minIterations (config this) in
  if newMinIterations >? newMaxIterations then
    (Throw (invalid_configuration newMinIterations newMaxIterations), this)
  else
    (Ok tt,
     {| options := options this;
        config := Object_assign (config this) cfg;
        listeners := listeners this |}).

(** The literal of [resetConfig()]. *)
Definition default_config : ResolvedConfig :=
  {| maxIterations := 5;
     targetScore := num 70;
     earlyStopScore := num 95;
     minIterations := 1;
     timeout := None;
     verbose := false;
     alwaysRunTransition := false;
     skipMinIterations := false;
     logger := None |}.

(** [resetConfig()] *)
Definition resetConfig (this : IterationProcessor) : IterationProcessor :=
  {| options := options this;
     config := default_config;
     listeners := listeners this |}.

(** [on(listener)], without the unsubscribe handle it returns. *)
Definition on (this : IterationProcessor) (listener : IterationEventListener)
  : IterationProcessor :=
  {| options := options this;
     config := config this;
     listeners := listeners this ++ [listener] |}.

(** ** run *)

(** The local variables of [run]. *)
Record RunLocals : Type := mkLocals {
  state : option State;
  history : list IterationHistory;
  finalEvaluation : Evaluation;
  terminationReason : TerminationReason
}.

Definition initial_locals : RunLocals :=
  {| state := None;
     history := [];
     finalEvaluation :=
       {| score := num 0; shouldContinue := true; feedback := "";
          missingInfo := None; metadata := None |};
     terminationReason := MaxIterations |}.

Definition set_state (s : State) (l : RunLocals) : RunLocals :=
  mkLocals (Some s) (history l) (finalEvaluation l) (terminationReason l).

Definition push_history (h : IterationHistory) (l : RunLocals) : RunLocals :=
  mkLocals (state l) (history l ++ [h]) (finalEvaluation l) (terminationReason l).

Definition set_finalEvaluation (e : Evaluation) (l : RunLocals) : RunLocals :=
  mkLocals (state l) (history l) e (terminationReason l).

Definition set_terminationReason (r : TerminationReason) (l : RunLocals) : RunLocals :=
  mkLocals (state l) (history l) (finalEvaluation l) r.

(** [history.reduce((sum, h) => sum + (h.actionResult.metadata?.cost ?? 0), 0)] *)
Definition cost_of (h : IterationHistory) : number :=
  match ar_metadata (h_actionResult h) with
  | Some md => cost md ?? num 0
  | None => num 0
  end.

Definition total_cost (h : list IterationHistory) : number :=
  fold_left (fun sum entry => add env sum (cost_of entry)) h (num 0).

(** How one pass of the [for] loop ends. *)
Inductive LoopControl : Type :=
| Continue (s : State)
| Break (s : State).

Section Emission.

Variable this : IterationProcessor.
Context {L : Type}.

Definition listener_error_prefix : string := "[IteratoP] Event listener error:".

(** The [catch] block of [emit]. *)
Definition report_listener_error (e : thrown) : M L unit :=
  match logger (config this) with
  | Some lg =>
      observe (LoggerError listener_error_prefix e);;
      lift (logger_error lg listener_error_prefix e)
  | None => observe (ConsoleError listener_error_prefix e)
  end.

(** [listener(event)], recorded with its outcome. *)
Definition listen (listener : IterationEventListener) (k : nat) (event : IterationEvent)
  : M L unit :=
  fun m =>
    match listener event (world m) with
    | (o, w) => (o, mkMachine w (locals m), [Listen k event o])
    end.

(** The [for ... of this.listeners] loop, from listener number [k]. *)
Fixpoint notify (ls : list IterationEventListener) (k : nat) (event : IterationEvent)
  : M L unit :=
  match ls with
  | [] => ret tt
  | listener :: rest =>
      try_catch (listen listener k event) report_listener_error;;
      notify rest (S k) event
  end.

Definition emit (event : IterationEvent) : M L unit :=
  observe (Emit event);;
  notify (listeners this) 0%nat event.

Definition log (message : string) (args : LogArgs) : M L unit :=
  if verbose (config this) then
    let line := ("[IteratoP] " ++ message)%string in
    match logger (config this) with
    | Some {| logger_log := Some f |} =>
        observe (LoggerLog line args);; lift (f line args)
    | _ => observe (ConsoleLog line args)
    end
  else ret tt.

End Emission.

Section RunBody.

Variable this : IterationProcessor.

Definition Run (A : Type) : Type := M RunLocals A.

(** [this.config.timeout && Date.now() - startTime > this.config.timeout] *)
Definition timeout_reached (startTime : Z) : Run bool :=
  match timeout (config this) with
  | Some t =>
      if JS.truthy t then
        t1 <- now;;
        ret (JS.gt (num (t1 - startTime)) t)
      else ret false
  | None => ret false
  end.

(** [this.options.shouldTerminate?.(state, evaluation, context)], as the
    condition of an [if]: absent, it is falsy. *)
Definition custom_termination
    (s : State) (evaluation : Evaluation) (context : IterationContext) : Run bool :=
  match shouldTerminate (options this) with
  | Some f => phase (f s evaluation context) (CShouldTerminate s evaluation context)
  | None => ret false
  end.

Definition checkTermination
    (s : State) (evaluation : Evaluation) (context : IterationContext) (iteration : Z)
  : Run (bool * TerminationReason) :=
  custom <- custom_termination s evaluation context;;
  if custom then ret (true, ManualStop)
  else if JS.ge (score evaluation) (earlyStopScore (config this)) then
    ret (true, EarlyStop)
  else if negb (shouldContinue evaluation) then ret (true, Converged)
  else if JS.ge (score evaluation) (targetScore (config this)) then
    let minIterationsMet := iteration >=? minIterations (config this) - 1 in
    if minIterationsMet || skipMinIterations (config this) then ret (true, Converged)
    else ret (false, MaxIterations)
  else ret (false, MaxIterations).

(** The part of a pass after the history entry is recorded: the transition,
    then the termination. *)
Definition conclude_iteration
    (i : Z) (s : State) (actionResult : ActionResult) (evaluation : Evaluation)
    (context : IterationContext) (decision : bool * TerminationReason)
  : Run LoopControl :=
  let isLastIteration := i =? maxIterations (config this) - 1 in
  let shouldRunTransition :=
    (negb isLastIteration || alwaysRunTransition (config this)) && negb (fst decision) in
  s' <- (if shouldRunTransition || (alwaysRunTransition (config this) && fst decision)
         then
           s' <- phase (transition (options this) s actionResult evaluation context)
                   (CTransition s actionResult evaluation context);;
           modify (set_state s');;
           emit this (EvTransitionComplete i s');;
           log this "Transition complete, preparing next iteration" [];;
           ret s'
         else ret s);;
  if fst decision then
    modify (set_terminationReason (snd decision));;
    log this ("Terminating: " ++ reason_name (snd decision))%string
      [("score", LNum (score evaluation))];;
    emit this (EvConverged i (score evaluation));;
    ret (Break s')
  else ret (Continue s').

(** The part of a pass from [act] to the termination check. *)
Definition perform_iteration (startTime iterationStart i : Z) (s : State)
  : Run LoopControl :=
  t2 <- now;;
  previous <- get finalEvaluation;;
  let context :=
    {| ctx_iteration := i;
       ctx_maxIterations := maxIterations (config this);
       ctx_elapsedTime := t2 - startTime;
       ctx_previousEvaluation := if i >? 0 then Some previous else None |} in
  emit this (EvIterationStart i);;
  log this ("Iteration " ++ JS.show (i + 1) ++ "/"
            ++ JS.show (maxIterations (config this)) ++ " started")%string [];;
  actionResult <- phase (act (options this) s context) (CAct s context);;
  emit this (EvActionComplete i actionResult);;
  dataSize <- eval (JSON_stringify_length env (data actionResult));;
  log this "Action complete" [("dataSize", LInt dataSize)];;
  evaluation <- phase (evaluate (options this) s actionResult context)
                  (CEvaluate s actionResult context);;
  modify (set_finalEvaluation evaluation);;
  emit this (EvEvaluationComplete i evaluation);;
  log this "Evaluation complete"
    [("score", LNum (score evaluation));
     ("shouldContinue", LBool (shouldContinue evaluation))];;
  t3 <- now;;
  t4 <- now;;
  let iterationHistory :=
    {| h_iteration := i;
       h_actionResult := actionResult;
       h_evaluation := evaluation;
       h_timestamp := t3;
       h_duration := t4 - iterationStart |} in
  modify (push_history iterationHistory);;
  emit this (EvIterationComplete i iterationHistory);;
  decision <- checkTermination s evaluation context i;;
  conclude_iteration i s actionResult evaluation context decision.

(** The body of the [for] loop at index [i]. *)
Definition iteration (startTime i : Z) (s : State) : Run LoopControl :=
  iterationStart <- now;;
  expired <- timeout_reached startTime;;
  if expired then
    log this "Timeout reached" [];;
    modify (set_terminationReason Timeout);;
    ret (Break s)
  else perform_iteration startTime iterationStart i s.

(** [for (let i = 0; i < this.config.maxIterations; i++)], entered at [i]
    with [slots] indices left below [maxIterations]. *)
Fixpoint loop (slots : nat) (startTime i : Z) (s : State) : Run State :=
  match slots with
  | O => ret s
  | S n =>
      c <- iteration startTime i s;;
      match c with
      | Continue s' => loop n startTime (i + 1) s'
      | Break s' => ret s'
      end
  end.

(** The number of indices [j] with [i <= j < maxIterations]. *)
Definition slots_from (i : Z) : nat := Z.to_nat (maxIterations (config this) - i).

(** Step 3 of the [try] block: finalize and build the result. *)
Definition complete (startTime : Z) (s : State) : Run IterationResult :=
  h <- get history;;
  result <- phase (finalize (options this) s h) (CFinalize s h);;
  final <- get finalEvaluation;;
  reason <- get terminationReason;;
  t5 <- now;;
  let iterationResult :=
    {| r_result := result;
       r_iterations := Z.of_nat (List.length h);
       r_finalScore := score final;
       r_converged := JS.ge (score final) (targetScore (config this));
       r_terminationReason := reason;
       r_totalCost := total_cost h;
       r_totalLatency := t5 - startTime;
       r_history := h |} in
  emit this (EvComplete iterationResult);;
  log this "Loop complete"
    [("iterations", LInt (r_iterations iterationResult));
     ("finalScore", LNum (r_finalScore iterationResult));
     ("converged", LBool (r_converged iterationResult));
     ("terminationReason", LStr (reason_name (r_terminationReason iterationResult)))];;
  ret iterationResult.

(** The rest of the [try] block from the loop test at index [i]. *)
Definition run_from (startTime i : Z) (s : State) : Run IterationResult :=
  s' <- loop (slots_from i) startTime i s;;
  complete startTime s'.

(** Step 1 of the [try] block: initialize. *)
Definition prepare (input : Input) : Run State :=
  s <- phase (initialize (options this) input) (CInitialize input);;
  modify (set_state s);;
  log this "Initialized state" [];;
  ret s.

(** The [try] block. *)
Definition run_try (startTime : Z) (input : Input) : Run IterationResult :=
  s <- prepare input;;
  run_from startTime 0 s.

Definition error_message (e : thrown) : string :=
  match e with JS.ErrorObj m => m | JS.Value t => t end.

(** The [catch] block. *)
Definition run_catch (startTime : Z) (error : thrown) : Run IterationResult :=
  let err := JS.toError error in
  h <- get history;;
  s <- get state;;
  emit this (EvError err (Z.of_nat (List.length h)) s);;
  log this "Error occurred" [("error", LStr (error_message err))];;
  match onError (options this) with
  | Some handler =>
      t6 <- now;;
      final <- get finalEvaluation;;
      let context :=
        {| ctx_iteration := Z.of_nat (List.length h);
           ctx_maxIterations := maxIterations (config this);
           ctx_elapsedTime := t6 - startTime;
           ctx_previousEvaluation := Some final |} in
      fallbackResult <- phase (handler err s context) (COnError err s context);;
      t7 <- now;;
      ret {| r_result := fallbackResult;
             r_iterations := Z.of_nat (List.length h);
             r_finalScore := score final;
             r_converged := false;
             r_terminationReason := ManualStop;
             r_totalCost := total_cost h;
             r_totalLatency := t7 - startTime;
             r_history := h |}
  | None => throw error
  end.

Definition run (input : Input) : Run IterationResult :=
  startTime <- now;;
  modify (fun _ => initial_locals);;
  emit this (EvStart input);;
  log this "Starting iteration loop"
    [("maxIterations", LInt (maxIterations (config this)))];;
  try_catch (run_try startTime input) (run_catch startTime).

(** A call of [run] in a world: the promise it returns, resolved or
    rejected, the world after it, and what was observed. *)
Definition run_in (input : Input) (w : World)
  : outcome IterationResult * World * Trace :=
  match run input (mkMachine w initial_locals) with
  | (o, m, t) => (o, world m, t)
  end.

End RunBody.

(* =================================================================== *)
(** * stream.ts: StreamingIteratoP *)
(* =================================================================== *)

Record StreamingState : Type := mkStreamingState {
  s_iteration : Z;
  s_state : State;
  s_evaluation : option Evaluation;
  s_actionResult : option ActionResult;
  s_converged : bool;
  s_timedOut : option bool;
  s_context : IterationContext
}.

(** The constructor only stores its two arguments: [config] holds the phase
    callbacks and [options] the (unresolved) configuration. *)
Record StreamingIteratoP : Type := mkStreaming {
  stream_config : IterationOptions;
  stream_options : option IterationConfig
}.

(** [createStreamingIterator(config, options?)] *)
Definition createStreamingIterator
    (cfg : IterationOptions) (opts : option IterationConfig) : StreamingIteratoP :=
  mkStreaming cfg opts.

(** [this.options?.field] *)
Definition option_field {A : Type} (opts : option IterationConfig)
    (field : IterationConfig -> option A) : option A :=
  match opts with Some o => field o | None => None end.

(** The variables of [executeStream] that the [while] loop updates. *)
Record StreamVars : Type := mkStreamVars {
  currentState : State;
  iteration_counter : Z;
  converged : bool;
  stream_history : list IterationHistory;
  states : list StreamingState
}.

(** [history[history.length - 1]?.evaluation] *)
Definition last_evaluation (h : list IterationHistory) : option Evaluation :=
  match rev h with
  | entry :: _ => Some (h_evaluation entry)
  | [] => None
  end.

Section Stream.

Variable this : StreamingIteratoP.

Definition Stream (A : Type) : Type := M unit A.

Definition stream_maxIterations : Z :=
  option_field (stream_options this) c_maxIterations ?? 5.
Definition stream_minIterations : Z :=
  option_field (stream_options this) c_minIterations ?? 1.
Definition stream_targetScore : number :=
  option_field (stream_options this) c_targetScore ?? num 70.
Definition stream_skipMinIterations : bool :=
  option_field (stream_options this) c_skipMinIterations ?? false.
Definition stream_timeout : option number :=
  option_field (stream_options this) c_timeout.

(** The "Check convergence" statement: the new value of [converged],
    [iteration] being the counter after its increment. *)
Definition check_convergence (evaluation : Evaluation) (iteration : Z) (was : bool)
  : bool :=
  if stream_skipMinIterations && JS.ge (score evaluation) stream_targetScore then true
  else if JS.ge (score evaluation) stream_targetScore
          && (iteration >=? stream_minIterations) then true
  else if negb (shouldContinue evaluation) && (iteration >=? stream_minIterations)
  then true
  else was.

(** [timeout && Date.now() - startTime > timeout] *)
Definition stream_timeout_reached (startTime : Z) : Stream bool :=
  match stream_timeout with
  | Some t =>
      if JS.truthy t then
        t1 <- now;;
        ret (JS.gt (num (t1 - startTime)) t)
      else ret false
  | None => ret false
  end.

(** One pass of the [while] loop after the timeout check: the new
    variables, and whether the pass ends with [break]. *)
Definition stream_iteration (startTime iterationStartTime : Z) (v : StreamVars)
  : Stream (StreamVars * bool) :=
  let iteration := iteration_counter v + 1 in
  t2 <- now;;
  let context :=
    {| ctx_iteration := iteration;
       ctx_maxIterations := stream_maxIterations;
       ctx_elapsedTime := t2 - startTime;
       ctx_previousEvaluation := last_evaluation (stream_history v) |} in
  actionResult <- phase (act (stream_config this) (currentState v) context)
                    (CAct (currentState v) context);;
  evaluation <- phase (evaluate (stream_config this) (currentState v) actionResult context)
                  (CEvaluate (currentState v) actionResult context);;
  t3 <- now;;
  t4 <- now;;
  let history' :=
    stream_history v
    ++ [{| h_iteration := iteration;
           h_actionResult := actionResult;
           h_evaluation := evaluation;
           h_timestamp := t3;
           h_duration := t4 - iterationStartTime |}] in
  let converged' := check_convergence evaluation iteration (converged v) in
  currentState' <-
    (if negb converged' then
       phase (transition (stream_config this) (currentState v) actionResult
                evaluation context)
         (CTransition (currentState v) actionResult evaluation context)
     else ret (currentState v));;
  let states' :=
    states v
    ++ [{| s_iteration := iteration;
           s_state := currentState';
           s_evaluation := Some evaluation;
           s_actionResult := Some actionResult;
           s_converged := converged';
           s_timedOut := None;
           s_context := context |}] in
  ret (mkStreamVars currentState' iteration converged' history' states', converged').

(** The body of the [while] loop. *)
Definition stream_pass (startTime : Z) (v : StreamVars) : Stream (StreamVars * bool) :=
  iterationStartTime <- now;;
  expired <- stream_timeout_reached startTime;;
  if expired then
    t2 <- now;;
    let context :=
      {| ctx_iteration := iteration_counter v + 1;
         ctx_maxIterations := stream_maxIterations;
         ctx_elapsedTime := t2 - startTime;
         ctx_previousEvaluation := last_evaluation (stream_history v) |} in
    let states' :=
      states v
      ++ [{| s_iteration := iteration_counter v + 1;
             s_state := currentState v;
             s_evaluation := None;
             s_actionResult := None;
             s_converged := false;
             s_timedOut := Some true;
             s_context := context |}] in
    ret (mkStreamVars (currentState v) (iteration_counter v) (converged v)
           (stream_history v) states', true)
  else stream_iteration startTime iterationStartTime v.

(** [while (iteration < maxIterations && !converged)], with [slots] values
    of [iteration] left below [maxIterations]. *)
Fixpoint stream_loop (slots : nat) (startTime : Z) (v : StreamVars) : Stream StreamVars :=
  match slots with
  | O => ret v
  | S n =>
      if converged v then ret v
      else
        r <- stream_pass startTime v;;
        if snd r then ret (fst r) else stream_loop n startTime (fst r)
  end.

(** [executeStream(input)]: the backing array of the stream it returns.
    Its [try ... catch (error) { throw error }] rethrows unchanged. *)
Definition executeStream (input : Input) : Stream (list StreamingState) :=
  initialState <- phase (initialize (stream_config this) input) (CInitialize input);;
  startTime <- now;;
  let initialContext :=
    {| ctx_iteration := 0;
       ctx_maxIterations := stream_maxIterations;
       ctx_elapsedTime := 0;
       ctx_previousEvaluation := None |} in
  let v0 :=
    {| currentState := initialState;
       iteration_counter := 0;
       converged := false;
       stream_history := [];
       states :=
         [{| s_iteration := 0;
             s_state := initialState;
             s_evaluation := None;
             s_actionResult := None;
             s_converged := false;
             s_timedOut := None;
             s_context := initialContext |}] |} in
  v <- stream_loop (Z.to_nat stream_maxIterations) startTime v0;;
  _ <- phase (finalize (stream_config this) (currentState v) (stream_history v))
         (CFinalize (currentState v) (stream_history v));;
  ret (states v).

(** [execute(input)]: the batch controller on the same arguments. *)
Definition execute (input : Input) : Run IterationResult :=
  match createIterator (stream_config this) (stream_options this) with
  | Ok processor => run processor input
  | Throw e => throw e
  end.

End Stream.

End Controller.

Arguments ret {Input State ActionData Result World L A} a _.
Arguments throw {Input State ActionData Result World L A} e _.
Arguments eval {Input State ActionData Result World L A} o _.
Arguments observe {Input State ActionData Result World L} o _.
Arguments get {Input State ActionData Result World L A} f _.
Arguments modify {Input State ActionData Result World L} f _.
Arguments now {Input State ActionData Result World} env {L} _.
Arguments initial_locals {State ActionData}.
Arguments EvStart {Input State ActionData Result} input.
Arguments EvIterationStart {Input State ActionData Result} iteration.
Arguments EvActionComplete {Input State ActionData Result} iteration result.
Arguments EvEvaluationComplete {Input State ActionData Result} iteration evaluation.
Arguments EvTransitionComplete {Input State ActionData Result} iteration state.
Arguments EvIterationComplete {Input State ActionData Result} iteration entry.
Arguments EvConverged {Input State ActionData Result} iteration score.
Arguments EvComplete {Input State ActionData Result} result.
Arguments EvError {Input State ActionData Result} error iteration state.
Arguments CInitialize {Input State ActionData Result} input out.
Arguments CAct {Input State ActionData Result} s ctx out.
Arguments CEvaluate {Input State ActionData Result} s a ctx out.
Arguments CTransition {Input State ActionData Result} s a e ctx out.
Arguments CFinalize {Input State ActionData Result} s h out.
Arguments CShouldTerminate {Input State ActionData Result} s e ctx out.
Arguments COnError {Input State ActionData Result} err s ctx out.
Arguments Emit {Input State ActionData Result} e.
Arguments Listen {Input State ActionData Result} k e out.
Arguments LoggerError {Input State ActionData Result} message e.
Arguments ConsoleError {Input State ActionData Result} message e.
Arguments LoggerLog {Input State ActionData Result} message args.
Arguments ConsoleLog {Input State ActionData Result} message args.
Arguments Call {Input State ActionData Result} c.
Arguments mkMachine {World L} _ _.

(* ===================================================================== *)
(** * The specification, in its own words *)
(* ===================================================================== *)

Section Specification.

Variables Input State ActionData Result World : Type.

#[local] Abbreviation Trace := (Trace Input State ActionData Result).
#[local] Abbreviation Machine := (Machine World).

(** The three components of what a computation yields. *)
Definition outcome_of {L A : Type} (r : outcome A * Machine L * Trace) : outcome A :=
  fst (fst r).
Definition machine_of {L A : Type} (r : outcome A * Machine L * Trace) : Machine L :=
  snd (fst r).
Definition trace_of {L A : Type} (r : outcome A * Machine L * Trace) : Trace :=
  snd r.

(** Section 4.2: the rules of the termination evaluator, in precedence order,
    each with the reason it gives. *)
Definition termination_rules
    (cfg : ResolvedConfig World) (custom : bool) (evaluation : Evaluation)
    (iterationIndex : Z) : list (bool * TerminationReason) :=
  [ (custom, ManualStop);
    (JS.ge (score evaluation) (earlyStopScore cfg), EarlyStop);
    (negb (shouldContinue evaluation), Converged);
    (JS.ge (score evaluation) (targetScore cfg)
     && ((iterationIndex >=? minIterations cfg - 1) || skipMinIterations cfg),
     Converged) ].

(** First match wins; with no match the iteration does not terminate the loop
    (the reason of a run that then exhausts its budget is [max_iterations]). *)
Definition termination_decision
    (cfg : ResolvedConfig World) (custom : bool) (evaluation : Evaluation)
    (iterationIndex : Z) : bool * TerminationReason :=
  match find fst (termination_rules cfg custom evaluation iterationIndex) with
  | Some (_, reason) => (true, reason)
  | None => (false, MaxIterations)
  end.

(** Section 4.3: the transition gate. *)
Definition transition_gate (terminating isLastIteration alwaysRun : bool) : bool :=
  negb ((terminating || isLastIteration) && negb alwaysRun).

(** The transition phase was invoked. *)
Definition transition_called (t : Trace) : Prop :=
  exists s a e ctx out, In (Call (CTransition s a e ctx out)) t.

(** Observations of the listeners and of the log sinks. *)
Definition is_notice (o : Observation Input State ActionData Result) : bool :=
  match o with
  | Listen _ _ _ | LoggerError _ _ | ConsoleError _ _
  | LoggerLog _ _ | ConsoleLog _ _ => true
  | Emit _ | Call _ => false
  end.

Definition notices (t : Trace) : Prop := Forall (fun o => is_notice o = true) t.

(** The functions of a configured logger return in every world. *)
Definition logger_total (cfg : ResolvedConfig World) : Prop :=
  forall lg, logger cfg = Some lg ->
    (forall message e w, exists w', logger_error lg message e w = (Ok tt, w'))
    /\ (forall f, logger_log lg = Some f ->
        forall message args w, exists w', f message args w = (Ok tt, w')).

(** The error sink a listener's exception is routed to: the configured
    logger's, or the console. *)
Definition error_sink (cfg : ResolvedConfig World) (e : thrown)
  : Observation Input State ActionData Result :=
  match logger cfg with
  | Some _ => LoggerError "[IteratoP] Event listener error:" e
  | None => ConsoleError "[IteratoP] Event listener error:" e
  end.

(** [notified cfg n k ev t]: [t] is what notifying the [n] listeners numbered
    from [k] of the event [ev] looks like when every one of them is called, in
    order, and each exception goes to the error sink before the next listener
    is called. *)
Inductive notified (cfg : ResolvedConfig World)
  : nat -> nat -> IterationEvent Input State ActionData Result -> Trace -> Prop :=
| notified_none k ev : notified cfg 0 k ev []
| notified_returned n k ev t :
    notified cfg n (S k) ev t ->
    notified cfg (S n) k ev (Listen k ev (Ok tt) :: t)
| notified_threw n k ev e t :
    notified cfg n (S k) ev t ->
    notified cfg (S n) k ev (Listen k ev (Throw e) :: error_sink cfg e :: t).

(** Section 4.4: [finalScore] is the score of the last recorded evaluation, or
    0 if no iteration ran. *)
Definition final_score_spec (h : list (IterationHistory ActionData)) : number :=
  match last_evaluation h with
  | Some e => score e
  | None => num 0
  end.

(** The cost an entry records, if any. *)
Definition recorded_cost (entry : IterationHistory ActionData) : option number :=
  match ar_metadata (h_actionResult entry) with
  | Some md => cost md
  | None => None
  end.

(** Section 4.4: the sum of all recorded costs, a missing one counting 0. *)
Definition sum_of_costs (env : Environment ActionData World)
    (h : list (IterationHistory ActionData)) : number :=
  fold_left (add env) (map (fun entry => recorded_cost entry ?? num 0) h) (num 0).

(** The invariant of the loop of [run] on [finalEvaluation]: it is the
    evaluation of the last history entry, and the initial one before any. *)
Definition final_matches (l : RunLocals State ActionData) : Prop :=
  finalEvaluation l
  = last_evaluation (history l) ?? finalEvaluation (@initial_locals State ActionData).

(** The context an observation shows being handed to [act], [evaluate] or
    [transition]. *)
Definition call_context (o : Observation Input State ActionData Result)
  : option IterationContext :=
  match o with
  | Call (CAct _ ctx _) => Some ctx
  | Call (CEvaluate _ _ ctx _) => Some ctx
  | Call (CTransition _ _ _ ctx _) => Some ctx
  | _ => None
  end.

(** The evaluation an observation shows the evaluate phase returning, with
    the iteration index of the call. *)
Definition produced (o : Observation Input State ActionData Result)
  : option (Z * Evaluation) :=
  match o with
  | Call (CEvaluate _ _ ctx (Ok e)) => Some (ctx_iteration ctx, e)
  | _ => None
  end.

(** The contexts handed to the three phases of the loop, in order. *)
Fixpoint contexts (t : Trace) : list IterationContext :=
  match t with
  | [] => []
  | o :: t' =>
      match call_context o with
      | Some ctx => ctx :: contexts t'
      | None => contexts t'
      end
  end.

(** The evaluations the evaluate phase returned, each with the iteration index
    it was called at, in order. *)
Fixpoint evaluations (t : Trace) : list (Z * Evaluation) :=
  match t with
  | [] => []
  | o :: t' =>
      match produced o with
      | Some p => p :: evaluations t'
      | None => evaluations t'
      end
  end.

(** [previousEvaluation] as built at index [i] when [finalEvaluation] is [fe]. *)
Definition previous_at (i : Z) (fe : Evaluation) : option Evaluation :=
  if i >? 0 then Some fe else None.

(** [sequenced i fe t]: what the loop entered at index [i] with
    [finalEvaluation = fe] shows in [t].  Every context carries an index from
    [i] on; at [i] its previous evaluation is the one built from [fe], above
    [i] it is the evaluation produced at the index before; and the indices of
    the evaluations produced increase, from [i] on. *)
Definition sequenced (i : Z) (fe : Evaluation) (t : Trace) : Prop :=
  Forall (fun c =>
            i <= ctx_iteration c
            /\ (ctx_iteration c = i -> ctx_previousEvaluation c = previous_at i fe)
            /\ (i < ctx_iteration c ->
                exists e, In (ctx_iteration c - 1, e) (evaluations t)
                          /\ ctx_previousEvaluation c = Some e))
    (contexts t)
  /\ StronglySorted Z.lt (map fst (evaluations t))
  /\ Forall (fun k => i <= k) (map fst (evaluations t)).

(** The error a phase, or [shouldTerminate], threw in a call. *)
Definition phase_error (c : PhaseCall Input State ActionData Result) : option thrown :=
  match c with
  | CInitialize _ (Throw e) => Some e
  | CAct _ _ (Throw e) => Some e
  | CEvaluate _ _ _ (Throw e) => Some e
  | CTransition _ _ _ _ (Throw e) => Some e
  | CFinalize _ _ (Throw e) => Some e
  | CShouldTerminate _ _ _ (Throw e) => Some e
  | _ => None
  end.

Definition is_initialize (o : Observation Input State ActionData Result) : bool :=
  match o with Call (CInitialize _ _) => true | _ => false end.

(** The history entries of the iterations a trace shows completed. *)
Fixpoint completed (t : Trace) : list (IterationHistory ActionData) :=
  match t with
  | [] => []
  | Emit (EvIterationComplete _ entry) :: t' => entry :: completed t'
  | _ :: t' => completed t'
  end.

(** The state a trace shows the controller holding, [s0] being the one it
    held before: the one [initialize] or the last [transition] returned. *)
Fixpoint known_state (s0 : option State) (t : Trace) : option State :=
  match t with
  | [] => s0
  | Call (CInitialize _ (Ok s)) :: t' => known_state (Some s) t'
  | Call (CTransition _ _ _ _ (Ok s)) :: t' => known_state (Some s) t'
  | _ :: t' => known_state s0 t'
  end.

(** What the [try] block of [run] maintains between its locals and what it
    shows: the history is the one of the completed iterations, the state is
    the last one a phase returned, an exception of a phase ends the block with
    that exception, and [initialize] is not called again. *)
Definition tracked {A : Type} (l : RunLocals State ActionData) (o : outcome A)
    (l' : RunLocals State ActionData) (t : Trace) : Prop :=
  history l' = history l ++ completed t
  /\ state l' = known_state (state l) t
  /\ (forall c e, In (Call c) t -> phase_error c = Some e -> o = Throw e)
  /\ (forall x, In x t -> is_initialize x = false).

(** A callback that returns in every world. *)
Definition returns {A : Type} (f : Callback World A) : Prop :=
  forall w, exists a w', f w = (Ok a, w').

(** No phase, nor [shouldTerminate], ever throws. *)
Definition phases_total (opts : IterationOptions Input State ActionData Result World)
  : Prop :=
  (forall input, returns (initialize opts input))
  /\ (forall s ctx, returns (act opts s ctx))
  /\ (forall s a ctx, returns (evaluate opts s a ctx))
  /\ (forall s a e ctx, returns (transition opts s a e ctx))
  /\ (forall s h, returns (finalize opts s h))
  /\ (forall f, shouldTerminate opts = Some f -> forall s e ctx, returns (f s e ctx)).

(** [JSON.stringify] turns every action data into a string. *)
Definition serializable (env : Environment ActionData World) : Prop :=
  forall d, exists n, JSON_stringify_length env d = Ok n.

(** [loop_head env this startTime input m0 i s m t]: the [try] block of a run,
    started on the machine [m0], reaches the test of the loop at index [i]
    with the state [s], on the machine [m], having shown [t]: it reaches
    index 0 when [initialize] returns, and index [i + 1] when the pass at an
    index [i] below [maxIterations] ends without [break]. *)
Inductive loop_head (env : Environment ActionData World)
    (this : IterationProcessor Input State ActionData Result World)
    (startTime : Z) (input : Input) (m0 : Machine (RunLocals State ActionData))
  : Z -> State -> Machine (RunLocals State ActionData) -> Trace -> Prop :=
| head_first s m t :
    locals m0 = initial_locals ->
    prepare this input m0 = (Ok s, m, t) ->
    loop_head env this startTime input m0 0 s m t
| head_next i s m t s' m' t' :
    loop_head env this startTime input m0 i s m t ->
    i < maxIterations (config this) ->
    iteration env this startTime i s m = (Ok (Continue s'), m', t') ->
    loop_head env this startTime input m0 (i + 1) s' m' (t ++ t').

(** What the clock shows to the timeout check of a pass that starts in the
    world [w]: the pass reads the clock once before, for [iterationStart]. *)
Definition timeout_check_reading (env : Environment ActionData World) (w : World) : Z :=
  fst (Date_now env (snd (Date_now env w))).

(** Section 4.5: the convergence rule of the streaming controller, on the
    1-based iteration counter. *)
Definition stream_converges_spec
    (skipMin : bool) (target : number) (minI : Z) (evaluation : Evaluation)
    (iteration : Z) : bool :=
  (skipMin && JS.ge (score evaluation) target)
  || (JS.ge (score evaluation) target && (iteration >=? minI))
  || (negb (shouldContinue evaluation) && (iteration >=? minI)).

(** The same streaming controller, with the settings that only the batch
    controller has rules for set to other values: [earlyStopScore],
    [alwaysRunTransition], [shouldTerminate]. *)
Definition with_batch_rules
    (this : StreamingIteratoP Input State ActionData Result World)
    (early : option number) (always : option bool)
    (custom : option (State -> Evaluation -> IterationContext -> Callback World bool))
  : StreamingIteratoP Input State ActionData Result World :=
  {| stream_config :=
       {| initialize := initialize (stream_config this);
          act := act (stream_config this);
          evaluate := evaluate (stream_config this);
          transition := transition (stream_config this);
          finalize := finalize (stream_config this);
          shouldTerminate := custom;
          onError := onError (stream_config this) |};
     stream_options :=
       match stream_options this with
       | Some o =>
           Some {| c_maxIterations := c_maxIterations o;
                   c_targetScore := c_targetScore o;
                   c_earlyStopScore := early;
                   c_minIterations := c_minIterations o;
                   c_timeout := c_timeout o;
                   c_verbose := c_verbose o;
                   c_alwaysRunTransition := always;
                   c_skipMinIterations := c_skipMinIterations o;
                   c_logger := c_logger o |}
       | None => None
       end |}.

(** Weakest precondition: [Q] holds of what [c] yields from [m]. *)
Definition wp {L A : Type} (c : M Input State ActionData Result World L A)
    (Q : outcome A -> Machine L -> Trace -> Prop) (m : Machine L) : Prop :=
  match c m with
  | (o, m', t) => Q o m' t
  end.

End Specification.

Unset Implicit Arguments.

Arguments outcome_of {Input State ActionData Result World L A} r.
Arguments machine_of {Input State ActionData Result World L A} r.
Arguments trace_of {Input State ActionData Result World L A} r.
Arguments termination_rules {World} cfg custom evaluation iterationIndex.
Arguments termination_decision {World} cfg custom evaluation iterationIndex.
Arguments transition_called {Input State ActionData Result} t.
Arguments is_notice {Input State ActionData Result} o.
Arguments notices {Input State ActionData Result} t.
Arguments logger_total {World} cfg.
Arguments error_sink {Input State ActionData Result World} cfg e.
Arguments notified {Input State ActionData Result World} cfg _ _ _ _.
Arguments wp {Input State ActionData Result World L A} c Q m.
Arguments final_score_spec {ActionData} h.
Arguments call_context {Input State ActionData Result} o.
Arguments produced {Input State ActionData Result} o.
Arguments contexts {Input State ActionData Result} t.
Arguments evaluations {Input State ActionData Result} t.
Arguments sequenced {Input State ActionData Result} i fe t.
Arguments phase_error {Input State ActionData Result} c.
Arguments is_initialize {Input State ActionData Result} o.
Arguments completed {Input State ActionData Result} t.
Arguments known_state {Input State ActionData Result} s0 t.
Arguments tracked {Input State ActionData Result A} l o l' t.
Arguments returns {World A} f.
Arguments with_batch_rules {Input State ActionData Result World} this early always custom.
Arguments loop_head {Input State ActionData Result World} env this startTime input m0 _ _ _ _.
Arguments timeout_check_reading {ActionData World} env w.
Arguments phases_total {Input State ActionData Result World} opts.
Arguments serializable {ActionData World} env.
Arguments recorded_cost {ActionData} entry.
Arguments sum_of_costs {ActionData World} env h.
Arguments final_matches {State ActionData} l.

(* ===================================================================== *)
(** * utils.ts: the helpers on histories, action results and evaluations *)
(* ===================================================================== *)

(** A [Map<string, V>]: the entries in insertion order; [set] on a key that
    is present replaces the value where the entry stands. *)
Module StringMap.

Definition t (V : Type) : Type := list (string * V).

Definition empty {V : Type} : t V := [].

Definition has {V : Type} (m : t V) (key : string) : bool :=
  existsb (fun entry => String.eqb (fst entry) key) m.

Fixpoint set {V : Type} (m : t V) (key : string) (value : V) : t V :=
  match m with
  | [] => [(key, value)]
  | (k, v) :: rest =>
      if String.eqb k key then (k, value) :: rest else (k, v) :: set rest key value
  end.

Definition values {V : Type} (m : t V) : list V := map snd m.

End StringMap.

(** A [Set<string>]: the members in insertion order. *)
Module StringSet.

Definition t : Type := list string.

Definition has (s : t) (x : string) : bool := existsb (String.eqb x) s.

Definition add (s : t) (x : string) : t := if has s x then s else s ++ [x].

(** [new Set(iterable)] *)
Definition from (l : list string) : t := fold_left add l [].

(** [[...set]] *)
Definition spread (s : t) : list string := s.

End StringSet.

(** [array[i]] *)
Definition at_index {A : Type} (l : list A) (i : Z) : option A :=
  if i <? 0 then None else nth_error l (Z.to_nat i).

(** [array.slice(start)] *)
Definition slice {A : Type} (l : list A) (start : Z) : list A :=
  let len := Z.of_nat (List.length l) in
  let k := if start <? 0 then Z.max (len + start) 0 else Z.min start len in
  skipn (Z.to_nat k) l.

(** A possibly undefined operand of an arithmetic comparison: [undefined]
    converts to [NaN]. *)
Definition to_number (x : option number) : number := x ?? JS.NaN.

(** [r.metadata?.field] *)
Definition metadata_field {T A : Type} (r : ActionResult T)
    (field : ActionMetadata -> option A) : option A :=
  match ar_metadata r with
  | Some md => field md
  | None => None
  end.

(** [createActionResult(data, options = {})] *)
Definition createActionResult {T : Type} (d : T) (options : option ActionMetadata)
  : ActionResult T :=
  {| data := d;
     ar_metadata := Some (options ?? mkActionMetadata None None None None) |}.

(** [getScoreProgression(history)] *)
Definition getScoreProgression {T : Type} (h : list (IterationHistory T)) : list number :=
  map (fun entry => score (h_evaluation entry)) h.

(** [isImproving(history, windowSize = 2)] *)
Definition isImproving {T : Type} (h : list (IterationHistory T)) (windowSize : option Z)
  : bool :=
  let windowSize := windowSize ?? 2 in
  if Z.of_nat (List.length h) <? windowSize then true
  else
    let recent := slice h (- windowSize) in
    let scores := map (fun entry => score (h_evaluation entry)) recent in
    JS.gt (to_number (at_index scores (Z.of_nat (List.length scores) - 1)))
      (to_number (at_index scores 0)).

(** [deduplicateBy(items, getKey)] *)
Definition deduplicateBy {T : Type} (items : list T) (getKey : T -> string) : list T :=
  StringMap.values
    (fold_left
       (fun seen item =>
          let key := getKey item in
          if negb (StringMap.has seen key) then StringMap.set seen key item else seen)
       items StringMap.empty).

Section Arithmetic.

(** The arithmetic of doubles, which rounds: [a + b], [a * b], [a / b]. *)
Variables plus times divide : number -> number -> number.

(** [calculateTotalCost(history)] *)
Definition calculateTotalCost {T : Type} (h : list (IterationHistory T)) : number :=
  fold_left
    (fun sum entry => plus sum (metadata_field (h_actionResult entry) cost ?? num 0))
    h (num 0).

(** [mergeActionResults(results, mergeStrategy)] *)
Definition mergeActionResults {T : Type} (results : list (ActionResult T))
    (mergeStrategy : list T -> T) : ActionResult T :=
  let mergedData := mergeStrategy (map (fun r => data r) results) in
  let totalCost :=
    fold_left (fun sum r => plus sum (metadata_field r cost ?? num 0)) results (num 0) in
  let totalLatency :=
    fold_left (fun sum r => plus sum (metadata_field r latency ?? num 0)) results (num 0) in
  let allSources := flat_map (fun r => metadata_field r sources ?? []) results in
  let allWarnings := flat_map (fun r => metadata_field r warnings ?? []) results in
  {| data := mergedData;
     ar_metadata :=
       Some {| sources := Some (StringSet.spread (StringSet.from allSources));
               cost := Some totalCost;
               latency := Some totalLatency;
               warnings :=
                 if Z.of_nat (List.length allWarnings) >? 0 then Some allWarnings
                 else None |} |}.

(** [mergeArrayActionResults(results, dedupe?)] *)
Definition mergeArrayActionResults {T : Type} (results : list (ActionResult (list T)))
    (dedupe : option (T -> string)) : ActionResult (list T) :=
  mergeActionResults results
    (fun arrays =>
       let flattened := List.concat arrays in
       match dedupe with
       | Some getKey => deduplicateBy flattened getKey
       | None => flattened
       end).

(** [evaluations.reduce((sum, eval_, i) => ..., 0)], from index [i]. *)
Fixpoint weighted_sum (normalizedWeights : list number) (totalWeight : number)
    (evs : list Evaluation) (i : nat) (sum : number) : number :=
  match evs with
  | [] => sum
  | eval_ :: rest =>
      weighted_sum normalizedWeights totalWeight rest (S i)
        (plus sum
           (times (score eval_)
              (divide (to_number (nth_error normalizedWeights i)) totalWeight)))
  end.

(** [combineEvaluations(evaluations, weights?)] *)
Definition combineEvaluations (evs : list Evaluation) (weights : option (list number))
  : Evaluation :=
  if (List.length evs =? 0)%nat then
    createEvaluation (num 0)
      {| o_shouldContinue := Some false;
         o_feedback := Some "No evaluations provided";
         o_missingInfo := None;
         o_metadata := None |}
  else
    let normalizedWeights :=
      weights ?? map (fun _ => divide (num 1) (num (Z.of_nat (List.length evs)))) evs in
    let totalWeight := fold_left plus normalizedWeights (num 0) in
    let weightedScore := weighted_sum normalizedWeights totalWeight evs 0 (num 0) in
    let allMissingInfo := flat_map (fun e => missingInfo e ?? []) evs in
    let shouldContinue_ := existsb shouldContinue evs in
    let feedbacks :=
      filter (fun f => negb (String.eqb f "")) (map feedback evs) in
    createEvaluation weightedScore
      {| o_shouldContinue := Some shouldContinue_;
         o_feedback := Some (String.concat "; " feedbacks);
         o_missingInfo :=
           if Z.of_nat (List.length allMissingInfo) >? 0
           then Some (StringSet.spread (StringSet.from allMissingInfo))
           else None;
         o_metadata := None |}.

End Arithmetic.

(** ** withRetry *)

Record RetryOptions : Type := mkRetryOptions {
  maxRetries : option Z;
  initialDelay : option number;
  maxDelay : option number;
  backoffFactor : option number
}.

(** What a call of [withRetry] does, in order: it calls [fn], and it sleeps. *)
Inductive RetryEvent (A : Type) : Type :=
| Attempt (out : outcome A)
| Sleep (ms : number).
Arguments Attempt {A} out.
Arguments Sleep {A} ms.

Section Retry.

Variables A World : Type.

(** [a * b] on doubles, and what the world becomes while [sleep(ms)] is
    awaited. *)
Variable times : number -> number -> number.
Variable sleep : number -> World -> World.

(** The [for] loop with [remaining] values of [attempt] left up to
    [maxRetries], then [throw lastError]. *)
Fixpoint retry_loop (fn : Callback World A) (maxRetries_ : Z) (maxDelay_ backoffFactor_ : number)
    (remaining : nat) (attempt : Z) (delay : number) (lastError : option thrown)
    (w : World) : outcome A * World * list (RetryEvent A) :=
  match remaining with
  | O => (Throw (lastError ?? JS.Value "undefined"), w, [])
  | S n =>
      match fn w with
      | (Ok a, w1) => (Ok a, w1, [Attempt (Ok a)])
      | (Throw error, w1) =>
          let lastError' := Some (JS.toError error) in
          if attempt <? maxRetries_ then
            match retry_loop fn maxRetries_ maxDelay_ backoffFactor_ n (attempt + 1)
                    (JS.min (times delay backoffFactor_) maxDelay_) lastError'
                    (sleep delay w1) with
            | (o, w2, t) => (o, w2, Attempt (Throw error) :: Sleep delay :: t)
            end
          else
            match retry_loop fn maxRetries_ maxDelay_ backoffFactor_ n (attempt + 1)
                    delay lastError' w1 with
            | (o, w2, t) => (o, w2, Attempt (Throw error) :: t)
            end
      end
  end.

(** [withRetry(fn, options = {})] *)
Definition withRetry (fn : Callback World A) (options : option RetryOptions) (w : World)
  : outcome A * World * list (RetryEvent A) :=
  let options := options ?? mkRetryOptions None None None None in
  let maxRetries_ := maxRetries options ?? 3 in
  let initialDelay_ := initialDelay options ?? num 1000 in
  let maxDelay_ := maxDelay options ?? num 10000 in
  let backoffFactor_ := backoffFactor options ?? num 2 in
  retry_loop fn maxRetries_ maxDelay_ backoffFactor_ (Z.to_nat (maxRetries_ + 1)) 0
    initialDelay_ None w.

End Retry.

Arguments retry_loop {A World} times sleep fn _ _ _ remaining attempt delay lastError w.
Arguments withRetry {A World} times sleep fn options w.

(* ===================================================================== *)
(** * stream.ts: the streams derived from executeStream *)
(* ===================================================================== *)

(** [array.filter((x) => x !== undefined)], on an array of optional values. *)
Definition filter_defined {A : Type} (l : list (option A)) : list A :=
  flat_map (fun x => match x with Some a => [a] | None => [] end) l.

Section DerivedStreams.

Variables Input State ActionData Result World : Type.
Variable env : Environment ActionData World.
Variable this : StreamingIteratoP Input State ActionData Result World.

(** A stream of nagare made by [fromArray] is represented by the array it
    yields, [map] and [filter] acting element by element. *)

(** [evaluationStream(input)] *)
Definition evaluationStream (input : Input)
  : M Input State ActionData Result World unit (list Evaluation) :=
  bind (executeStream env this input)
    (fun stateStream => ret (filter_defined (map (fun st => s_evaluation st) stateStream))).

(** [actionStream(input)] *)
Definition actionStream (input : Input)
  : M Input State ActionData Result World unit (list (ActionResult ActionData)) :=
  bind (executeStream env this input)
    (fun stateStream =>
       ret (filter_defined (map (fun st => s_actionResult st) stateStream))).

End DerivedStreams.

Arguments evaluationStream {Input State ActionData Result World} env this input _.
Arguments actionStream {Input State ActionData Result World} env this input _.

(* ===================================================================== *)
(** * builder.ts: IterationBuilder *)
(* ===================================================================== *)

(** The methods of the builder keep their names, in a name space of their
    own.  The builder is a value here: what is said of [build] is said of
    the builder as it stands when [build] is called. *)
Module Builder.

Section Fluent.

Variables Input State ActionData Result World : Type.

(** [Partial<IterationOptions<Input, State, ActionData, Result>>] *)
Record PartialOptions : Type := mkPartialOptions {
  p_initialize : option (Input -> Callback World State);
  p_act : option (State -> IterationContext -> Callback World (ActionResult ActionData));
  p_evaluate :
    option (State -> ActionResult ActionData -> IterationContext
            -> Callback World Evaluation);
  p_transition :
    option (State -> ActionResult ActionData -> Evaluation -> IterationContext
            -> Callback World State);
  p_finalize : option (State -> list (IterationHistory ActionData) -> Callback World Result);
  p_shouldTerminate :
    option (State -> Evaluation -> IterationContext -> Callback World bool);
  p_onError :
    option (thrown -> option State -> IterationContext -> Callback World Result)
}.

Record IterationBuilder : Type := mkBuilder {
  builder_config : IterationConfig World;
  builder_options : PartialOptions;
  builder_listeners : list (IterationEventListener Input State ActionData Result World)
}.

(** [iterationBuilder()] *)
Definition iterationBuilder : IterationBuilder :=
  {| builder_config := empty_config World;
     builder_options := mkPartialOptions None None None None None None None;
     builder_listeners := [] |}.

(** [DEFAULT_PRESETS[preset]], as the condition [if (presetConfig)] sees it.
    A name that is no preset yields [undefined], or a member of
    [Object.prototype], which has no enumerable property of its own to
    assign: both leave the configuration as it is. *)
Definition DEFAULT_PRESETS (name : string) : option (IterationConfig World) :=
  if String.eqb name "fast" then
    Some {| c_maxIterations := Some 3;
            c_targetScore := Some (num 60);
            c_earlyStopScore := Some (num 80);
            c_minIterations := Some 1;
            c_timeout := None;
            c_verbose := None;
            c_alwaysRunTransition := None;
            c_skipMinIterations := Some true;
            c_logger := None |}
  else if String.eqb name "thorough" then
    Some {| c_maxIterations := Some 10;
            c_targetScore := Some (num 90);
            c_earlyStopScore := Some (num 98);
            c_minIterations := Some 3;
            c_timeout := None;
            c_verbose := None;
            c_alwaysRunTransition := None;
            c_skipMinIterations := Some false;
            c_logger := None |}
  else if String.eqb name "balanced" then
    Some {| c_maxIterations := Some 5;
            c_targetScore := Some (num 70);
            c_earlyStopScore := Some (num 95);
            c_minIterations := Some 1;
            c_timeout := None;
            c_verbose := None;
            c_alwaysRunTransition := None;
            c_skipMinIterations := Some false;
            c_logger := None |}
  else if String.eqb name "cost-optimized" then
    Some {| c_maxIterations := Some 3;
            c_targetScore := Some (num 65);
            c_earlyStopScore := Some (num 75);
            c_minIterations := Some 1;
            c_timeout := None;
            c_verbose := None;
            c_alwaysRunTransition := Some false;
            c_skipMinIterations := Some true;
            c_logger := None |}
  else None.

(** [Object.assign(this.config, source)] *)
Definition assign (target source : IterationConfig World) : IterationConfig World :=
  {| c_maxIterations := over_opt (c_maxIterations target) (c_maxIterations source);
     c_targetScore := over_opt (c_targetScore target) (c_targetScore source);
     c_earlyStopScore := over_opt (c_earlyStopScore target) (c_earlyStopScore source);
     c_minIterations := over_opt (c_minIterations target) (c_minIterations source);
     c_timeout := over_opt (c_timeout target) (c_timeout source);
     c_verbose := over_opt (c_verbose target) (c_verbose source);
     c_alwaysRunTransition :=
       over_opt (c_alwaysRunTransition target) (c_alwaysRunTransition source);
     c_skipMinIterations :=
       over_opt (c_skipMinIterations target) (c_skipMinIterations source);
     c_logger := over_opt (c_logger target) (c_logger source) |}.

Definition with_config (b : IterationBuilder) (cfg : IterationConfig World)
  : IterationBuilder :=
  mkBuilder cfg (builder_options b) (builder_listeners b).

Definition with_options (b : IterationBuilder) (opts : PartialOptions) : IterationBuilder :=
  mkBuilder (builder_config b) opts (builder_listeners b).

(** [build()] *)
Definition build (b : IterationBuilder)
  : outcome (IterationProcessor Input State ActionData Result World) :=
  match p_initialize (builder_options b) with
  | None => Throw (JS.ErrorObj "initialize function is required")
  | Some initialize_ =>
  match p_act (builder_options b) with
  | None => Throw (JS.ErrorObj "act function is required")
  | Some act_ =>
  match p_evaluate (builder_options b) with
  | None => Throw (JS.ErrorObj "evaluate function is required")
  | Some evaluate_ =>
  match p_transition (builder_options b) with
  | None => Throw (JS.ErrorObj "transition function is required")
  | Some transition_ =>
  match p_finalize (builder_options b) with
  | None => Throw (JS.ErrorObj "finalize function is required")
  | Some finalize_ =>
      match createIterator
              {| initialize := initialize_;
                 act := act_;
                 evaluate := evaluate_;
                 transition := transition_;
                 finalize := finalize_;
                 shouldTerminate := p_shouldTerminate (builder_options b);
                 onError := p_onError (builder_options b) |}
              (Some (builder_config b)) with
      | Throw e => Throw e
      | Ok processor =>
          Ok (fold_left (fun p listener => on p listener) (builder_listeners b) processor)
      end
  end end end end end.

(** [run(input)]: build and run immediately. *)
Definition run (env : Environment ActionData World) (b : IterationBuilder) (input : Input)
  : M Input State ActionData Result World (RunLocals State ActionData)
      (IterationResult ActionData Result) :=
  match build b with
  | Ok processor => run env processor input
  | Throw e => throw e
  end.

(** The setters of the phases. *)
Definition initialize (b : IterationBuilder) (fn : Input -> Callback World State)
  : IterationBuilder :=
  let o := builder_options b in
  with_options b
    (mkPartialOptions (Some fn) (p_act o) (p_evaluate o) (p_transition o) (p_finalize o)
       (p_shouldTerminate o) (p_onError o)).

Definition act (b : IterationBuilder)
    (fn : State -> IterationContext -> Callback World (ActionResult ActionData))
  : IterationBuilder :=
  let o := builder_options b in
  with_options b
    (mkPartialOptions (p_initialize o) (Some fn) (p_evaluate o) (p_transition o)
       (p_finalize o) (p_shouldTerminate o) (p_onError o)).

Definition evaluate (b : IterationBuilder)
    (fn : State -> ActionResult ActionData -> IterationContext -> Callback World Evaluation)
  : IterationBuilder :=
  let o := builder_options b in
  with_options b
    (mkPartialOptions (p_initialize o) (p_act o) (Some fn) (p_transition o) (p_finalize o)
       (p_shouldTerminate o) (p_onError o)).

Definition transition (b : IterationBuilder)
    (fn : State -> ActionResult ActionData -> Evaluation -> IterationContext
          -> Callback World State)
  : IterationBuilder :=
  let o := builder_options b in
  with_options b
    (mkPartialOptions (p_initialize o) (p_act o) (p_evaluate o) (Some fn) (p_finalize o)
       (p_shouldTerminate o) (p_onError o)).

Definition finalize (b : IterationBuilder)
    (fn : State -> list (IterationHistory ActionData) -> Callback World Result)
  : IterationBuilder :=
  let o := builder_options b in
  with_options b
    (mkPartialOptions (p_initialize o) (p_act o) (p_evaluate o) (p_transition o) (Some fn)
       (p_shouldTerminate o) (p_onError o)).

Definition shouldTerminate (b : IterationBuilder)
    (fn : State -> Evaluation -> IterationContext -> Callback World bool)
  : IterationBuilder :=
  let o := builder_options b in
  with_options b
    (mkPartialOptions (p_initialize o) (p_act o) (p_evaluate o) (p_transition o)
       (p_finalize o) (Some fn) (p_onError o)).

Definition onError (b : IterationBuilder)
    (fn : thrown -> option State -> IterationContext -> Callback World Result)
  : IterationBuilder :=
  let o := builder_options b in
  with_options b
    (mkPartialOptions (p_initialize o) (p_act o) (p_evaluate o) (p_transition o)
       (p_finalize o) (p_shouldTerminate o) (Some fn)).

(** The setters of the configuration: [this.config.key = value]. *)
Definition maxIterations (b : IterationBuilder) (value : Z) : IterationBuilder :=
  let c := builder_config b in
  with_config b
    (mkConfig (Some value) (c_targetScore c) (c_earlyStopScore c) (c_minIterations c)
       (c_timeout c) (c_verbose c) (c_alwaysRunTransition c) (c_skipMinIterations c)
       (c_logger c)).

Definition targetScore (b : IterationBuilder) (value : number) : IterationBuilder :=
  let c := builder_config b in
  with_config b
    (mkConfig (c_maxIterations c) (Some value) (c_earlyStopScore c) (c_minIterations c)
       (c_timeout c) (c_verbose c) (c_alwaysRunTransition c) (c_skipMinIterations c)
       (c_logger c)).

Definition earlyStopScore (b : IterationBuilder) (value : number) : IterationBuilder :=
  let c := builder_config b in
  with_config b
    (mkConfig (c_maxIterations c) (c_targetScore c) (Some value) (c_minIterations c)
       (c_timeout c) (c_verbose c) (c_alwaysRunTransition c) (c_skipMinIterations c)
       (c_logger c)).

Definition minIterations (b : IterationBuilder) (value : Z) : IterationBuilder :=
  let c := builder_config b in
  with_config b
    (mkConfig (c_maxIterations c) (c_targetScore c) (c_earlyStopScore c) (Some value)
       (c_timeout c) (c_verbose c) (c_alwaysRunTransition c) (c_skipMinIterations c)
       (c_logger c)).

Definition timeout (b : IterationBuilder) (ms : number) : IterationBuilder :=
  let c := builder_config b in
  with_config b
    (mkConfig (c_maxIterations c) (c_targetScore c) (c_earlyStopScore c) (c_minIterations c)
       (Some ms) (c_verbose c) (c_alwaysRunTransition c) (c_skipMinIterations c)
       (c_logger c)).

(** [verbose(enabled = true)] *)
Definition verbose (b : IterationBuilder) (enabled : option bool) : IterationBuilder :=
  let c := builder_config b in
  with_config b
    (mkConfig (c_maxIterations c) (c_targetScore c) (c_earlyStopScore c) (c_minIterations c)
       (c_timeout c) (Some (enabled ?? true)) (c_alwaysRunTransition c)
       (c_skipMinIterations c) (c_logger c)).

Definition alwaysRunTransition (b : IterationBuilder) (enabled : option bool)
  : IterationBuilder :=
  let c := builder_config b in
  with_config b
    (mkConfig (c_maxIterations c) (c_targetScore c) (c_earlyStopScore c) (c_minIterations c)
       (c_timeout c) (c_verbose c) (Some (enabled ?? true)) (c_skipMinIterations c)
       (c_logger c)).

Definition skipMinIterations (b : IterationBuilder) (enabled : option bool)
  : IterationBuilder :=
  let c := builder_config b in
  with_config b
    (mkConfig (c_maxIterations c) (c_targetScore c) (c_earlyStopScore c) (c_minIterations c)
       (c_timeout c) (c_verbose c) (c_alwaysRunTransition c) (Some (enabled ?? true))
       (c_logger c)).

Definition logger (b : IterationBuilder) (lg : Logger World) : IterationBuilder :=
  let c := builder_config b in
  with_config b
    (mkConfig (c_maxIterations c) (c_targetScore c) (c_earlyStopScore c) (c_minIterations c)
       (c_timeout c) (c_verbose c) (c_alwaysRunTransition c) (c_skipMinIterations c)
       (Some lg)).

(** [on(listener)] *)
Definition on (b : IterationBuilder)
    (listener : IterationEventListener Input State ActionData Result World)
  : IterationBuilder :=
  mkBuilder (builder_config b) (builder_options b) (builder_listeners b ++ [listener]).

(** [preset(preset)] *)
Definition preset (b : IterationBuilder) (name : string) : IterationBuilder :=
  match DEFAULT_PRESETS name with
  | Some presetConfig => with_config b (assign (builder_config b) presetConfig)
  | None => b
  end.

(** [customPreset(customPreset)] *)
Definition customPreset (b : IterationBuilder) (cfg : IterationConfig World)
  : IterationBuilder :=
  with_config b (assign (builder_config b) cfg).

(** [configure(config)] *)
Definition configure (b : IterationBuilder) (cfg : IterationConfig World)
  : IterationBuilder :=
  with_config b (assign (builder_config b) cfg).

End Fluent.

End Builder.

Arguments Builder.p_initialize {Input State ActionData Result World} _.
Arguments Builder.p_act {Input State ActionData Result World} _.
Arguments Builder.p_evaluate {Input State ActionData Result World} _.
Arguments Builder.p_transition {Input State ActionData Result World} _.
Arguments Builder.p_finalize {Input State ActionData Result World} _.
Arguments Builder.p_shouldTerminate {Input State ActionData Result World} _.
Arguments Builder.p_onError {Input State ActionData Result World} _.
Arguments Builder.builder_config {Input State ActionData Result World} _.
Arguments Builder.builder_options {Input State ActionData Result World} _.
Arguments Builder.builder_listeners {Input State ActionData Result World} _.
Arguments Builder.build {Input State ActionData Result World} _.
Arguments Builder.mkPartialOptions {Input State ActionData Result World} _ _ _ _ _ _ _.
Arguments Builder.mkBuilder {Input State ActionData Result World} _ _ _.
Arguments Builder.iterationBuilder {Input State ActionData Result World}.
Arguments Builder.DEFAULT_PRESETS {World} name.
Arguments Builder.assign {World} target source.
Arguments Builder.run {Input State ActionData Result World} env b input _.
Arguments Builder.with_config {Input State ActionData Result World} b _.
Arguments Builder.with_options {Input State ActionData Result World} b _.
Arguments Builder.initialize {Input State ActionData Result World} b _.
Arguments Builder.act {Input State ActionData Result World} b _.
Arguments Builder.evaluate {Input State ActionData Result World} b _.
Arguments Builder.transition {Input State ActionData Result World} b _.
Arguments Builder.finalize {Input State ActionData Result World} b _.
Arguments Builder.shouldTerminate {Input State ActionData Result World} b _.
Arguments Builder.onError {Input State ActionData Result World} b _.
Arguments Builder.maxIterations {Input State ActionData Result World} b _.
Arguments Builder.targetScore {Input State ActionData Result World} b _.
Arguments Builder.earlyStopScore {Input State ActionData Result World} b _.
Arguments Builder.minIterations {Input State ActionData Result World} b _.
Arguments Builder.timeout {Input State ActionData Result World} b _.
Arguments Builder.verbose {Input State ActionData Result World} b _.
Arguments Builder.alwaysRunTransition {Input State ActionData Result World} b _.
Arguments Builder.skipMinIterations {Input State ActionData Result World} b _.
Arguments Builder.logger {Input State ActionData Result World} b _.
Arguments Builder.on {Input State ActionData Result World} b _.
Arguments Builder.preset {Input State ActionData Result World} b _.
Arguments Builder.customPreset {Input State ActionData Result World} b _.
Arguments Builder.configure {Input State ActionData Result World} b _.

(* ===================================================================== *)
(** * Notions for the properties of the helpers and of the builder *)
(* ===================================================================== *)

(** The first item of [l] that carries the key [k]. *)
Definition first_with_key {T : Type} (getKey : T -> string) (k : string) (l : list T)
  : option T :=
  find (fun x => String.eqb (getKey x) k) l.

(** Every entry of the map stands under the key of its value, and no key
    stands twice. *)
Definition keyed {T : Type} (getKey : T -> string) (seen : StringMap.t T) : Prop :=
  Forall (fun entry => getKey (snd entry) = fst entry) seen /\ NoDup (map fst seen).

(** The outcomes of the calls of [fn] that [withRetry] made, in order. *)
Definition attempts {A : Type} (t : list (RetryEvent A)) : list (outcome A) :=
  flat_map (fun ev => match ev with Attempt o => [o] | Sleep _ => [] end) t.

(** The delays it slept, in order. *)
Definition sleeps {A : Type} (t : list (RetryEvent A)) : list number :=
  flat_map (fun ev => match ev with Attempt _ => [] | Sleep ms => [ms] end) t.

(** The first [n] delays of the backoff that starts with [delay]: each next
    one is the previous one times [factor], capped by [cap]. *)
Fixpoint backoff (times : number -> number -> number) (factor cap : number)
    (n : nat) (delay : number) : list number :=
  match n with
  | O => []
  | S k => delay :: backoff times factor cap k (JS.min (times delay factor) cap)
  end.

Section Obtainable.

Variables Input State ActionData Result World : Type.

(** The processors a program can hold: made by the constructor, or obtained
    from one it holds through a public method ([config] is private). *)
Inductive obtainable : IterationProcessor Input State ActionData Result World -> Prop :=
| obtained_new opts cfg p :
    new_IterationProcessor opts cfg = Ok p -> obtainable p
| obtained_withConfig this cfg p :
    obtainable this -> withConfig this cfg = Ok p -> obtainable p
| obtained_updateConfig this cfg :
    obtainable this -> obtainable (snd (updateConfig this cfg))
| obtained_resetConfig this :
    obtainable this -> obtainable (resetConfig this)
| obtained_on this listener :
    obtainable this -> obtainable (on this listener).

(** The options of a builder on which the five phases are set. *)
Definition complete_options
    (o : @Builder.PartialOptions Input State ActionData Result World)
  : option (IterationOptions Input State ActionData Result World) :=
  match Builder.p_initialize o, Builder.p_act o, Builder.p_evaluate o,
        Builder.p_transition o, Builder.p_finalize o with
  | Some i, Some a, Some e, Some t, Some f =>
      Some (mkOptions i a e t f (Builder.p_shouldTerminate o) (Builder.p_onError o))
  | _, _, _, _, _ => None
  end.

End Obtainable.

Arguments obtainable {Input State ActionData Result World} _.
Arguments complete_options {Input State ActionData Result World} o.

(* ===================================================================== *)
(** * Notions for the further properties of a run *)
(* ===================================================================== *)

Section RunNotions.

Variables Input State ActionData Result World : Type.

(** The number of calls of [act] that a trace shows. *)
Fixpoint act_calls (t : list (Observation Input State ActionData Result)) : nat :=
  match t with
  | [] => O
  | Call (CAct _ _ _) :: t' => S (act_calls t')
  | _ :: t' => act_calls t'
  end.

(** The numbers of [l] count up from [i]. *)
Definition counts_from (i : Z) (l : list Z) : Prop :=
  forall k x, nth_error l k = Some x -> x = i + Z.of_nat k.

(** The locals at the test of the loop at index [i]: no reason is set, and
    [i] iterations are recorded. *)
Definition at_head (l : RunLocals State ActionData) (i : Z) : Prop :=
  terminationReason l = MaxIterations /\ Z.of_nat (List.length (history l)) = i.

(** The locals after a [break]: what the reason that was set says holds of
    them. *)
Definition break_explained
    (this : IterationProcessor Input State ActionData Result World)
    (l : RunLocals State ActionData) : Prop :=
  match terminationReason l with
  | MaxIterations => False
  | EarlyStop =>
      JS.ge (score (finalEvaluation l)) (earlyStopScore (config this)) = true
  | Converged =>
      last_evaluation (history l) = Some (finalEvaluation l)
      /\ (shouldContinue (finalEvaluation l) = false
          \/ (JS.ge (score (finalEvaluation l)) (targetScore (config this)) = true
              /\ (Z.of_nat (List.length (history l)) >= minIterations (config this)
                  \/ skipMinIterations (config this) = true)))
  | Timeout =>
      exists limit,
        timeout (config this) = Some limit /\ JS.truthy limit = true
        /\ Z.of_nat (List.length (history l)) < maxIterations (config this)
  | ManualStop => shouldTerminate (options this) <> None
  end.

(** What the termination reason of a result says of the result. *)
Definition reason_explained
    (this : IterationProcessor Input State ActionData Result World)
    (r : IterationResult ActionData Result) : Prop :=
  match r_terminationReason r with
  | MaxIterations => r_iterations r = Z.max 0 (maxIterations (config this))
  | EarlyStop => JS.ge (r_finalScore r) (earlyStopScore (config this)) = true
  | Converged =>
      exists e,
        last_evaluation (r_history r) = Some e
        /\ (shouldContinue e = false
            \/ (JS.ge (score e) (targetScore (config this)) = true
                /\ (r_iterations r >= minIterations (config this)
                    \/ skipMinIterations (config this) = true)))
  | Timeout =>
      exists limit,
        timeout (config this) = Some limit /\ JS.truthy limit = true
        /\ r_iterations r < maxIterations (config this)
  | ManualStop =>
      shouldTerminate (options this) <> None \/ onError (options this) <> None
  end.

(** What the loop can show: the events and the calls of a pass, and the
    notices. *)
Definition is_loop_observation (o : Observation Input State ActionData Result) : bool :=
  match o with
  | Emit (EvIterationStart _) | Emit (EvActionComplete _ _)
  | Emit (EvEvaluationComplete _ _) | Emit (EvTransitionComplete _ _)
  | Emit (EvIterationComplete _ _) | Emit (EvConverged _ _) => true
  | Emit _ => false
  | Call (CAct _ _ _) | Call (CEvaluate _ _ _ _) | Call (CTransition _ _ _ _ _)
  | Call (CShouldTerminate _ _ _ _) => true
  | Call _ => false
  | Listen _ _ _ | LoggerError _ _ | ConsoleError _ _
  | LoggerLog _ _ | ConsoleLog _ _ => true
  end.

(** The events that end a run: [complete] and [error]. *)
Definition is_terminal (o : Observation Input State ActionData Result) : bool :=
  match o with
  | Emit (EvComplete _) | Emit (EvError _ _ _) => true
  | _ => false
  end.

Definition is_finalize (o : Observation Input State ActionData Result) : bool :=
  match o with
  | Call (CFinalize _ _ _) => true
  | _ => false
  end.

(** A line of the log. *)
Definition is_log (o : Observation Input State ActionData Result) : bool :=
  match o with
  | LoggerLog _ _ | ConsoleLog _ _ => true
  | _ => false
  end.

(** The states pushed before the last one: not converged, not timed out. *)
Definition in_progress (st : StreamingState State ActionData) : Prop :=
  s_converged st = false /\ s_timedOut st = None.

(** The variables of [executeStream] at the test of its loop. *)
Definition stream_head (v : StreamVars State ActionData) : Prop :=
  converged v = false
  /\ Z.of_nat (List.length (states v)) = iteration_counter v + 1
  /\ counts_from 0 (map (fun st => s_iteration st) (states v))
  /\ Forall in_progress (states v)
  /\ (exists front back, states v = front ++ [back] /\ s_state back = currentState v)
  /\ filter_defined (map (fun st => s_evaluation st) (states v))
     = map (fun entry => h_evaluation entry) (stream_history v)
  /\ filter_defined (map (fun st => s_actionResult st) (states v))
     = map (fun entry => h_actionResult entry) (stream_history v)
  /\ Z.of_nat (List.length (stream_history v)) = iteration_counter v
  /\ counts_from 1 (map (fun entry => h_iteration entry) (stream_history v)).

(** The variables of [executeStream] after its loop, at most [bound] states
    having been pushed. *)
Definition stream_done (bound : nat) (v : StreamVars State ActionData) : Prop :=
  (List.length (states v) <= bound)%nat
  /\ counts_from 0 (map (fun st => s_iteration st) (states v))
  /\ (exists front back,
        states v = front ++ [back] /\ Forall in_progress front
        /\ s_state back = currentState v)
  /\ filter_defined (map (fun st => s_evaluation st) (states v))
     = map (fun entry => h_evaluation entry) (stream_history v)
  /\ filter_defined (map (fun st => s_actionResult st) (states v))
     = map (fun entry => h_actionResult entry) (stream_history v)
  /\ counts_from 1 (map (fun entry => h_iteration entry) (stream_history v)).

(** The five phases, as opposed to the optional callbacks. *)
Definition is_plain_phase (c : PhaseCall Input State ActionData Result) : bool :=
  match c with
  | CShouldTerminate _ _ _ _ | COnError _ _ _ _ => false
  | _ => true
  end.

(** Every call that [t] shows is a call of a phase, which returned. *)
Definition plain_calls (t : list (Observation Input State ActionData Result)) : Prop :=
  forall c, In (Call c) t -> phase_error c = None /\ is_plain_phase c = true.

(** A computation that shows only calls of phases, and throws exactly when
    one of them does: the call that threw is the last thing it shows, and
    what it threw is the outcome. *)
Definition fails_with_phase {A : Type} (o : outcome A)
    (t : list (Observation Input State ActionData Result)) : Prop :=
  match o with
  | Ok _ => plain_calls t
  | Throw e =>
      exists front c,
        t = front ++ [Call c]
        /\ phase_error c = Some e /\ is_plain_phase c = true
        /\ plain_calls front
  end.

End RunNotions.

Arguments act_calls {Input State ActionData Result} t.
Arguments is_plain_phase {Input State ActionData Result} c.
Arguments plain_calls {Input State ActionData Result} t.
Arguments fails_with_phase {Input State ActionData Result A} o t.
Arguments in_progress {State ActionData} st.
Arguments stream_head {State ActionData} v.
Arguments stream_done {State ActionData} bound v.
Arguments is_loop_observation {Input State ActionData Result} o.
Arguments is_terminal {Input State ActionData Result} o.
Arguments is_finalize {Input State ActionData Result} o.
Arguments is_log {Input State ActionData Result} o.
Arguments at_head {State ActionData} l i.
Arguments break_explained {Input State ActionData Result World} this l.
Arguments reason_explained {Input State ActionData Result World} this r.

(* ===================================================================== *)
(** * The scenarios of the test suite *)
(* ===================================================================== *)

(** The world of the scenarios is the clock: each reading takes one
    millisecond. *)
Definition ticking_clock (w : Z) : Z * Z := (w, w + 1).

(** Addition without the rounding of doubles (the scenarios only add a few
    cents). *)
Definition exact_add (a b : number) : number :=
  match a, b with
  | JS.NaN, _ | _, JS.NaN => JS.NaN
  | JS.PosInf, JS.NegInf | JS.NegInf, JS.PosInf => JS.NaN
  | JS.PosInf, _ | _, JS.PosInf => JS.PosInf
  | JS.NegInf, _ | _, JS.NegInf => JS.NegInf
  | JS.Fin x, JS.Fin y => JS.Fin (Qred (x + y))
  end.

Definition test_env : Environment Z Z :=
  {| Date_now := ticking_clock;
     add := exact_add;
     JSON_stringify_length := fun _ => Ok 1 |}.

(** [createActionResult(data, { cost: 0.01 })] *)
Definition action_costing_a_cent (d : Z) : ActionResult Z :=
  {| data := d;
     ar_metadata :=
       Some {| sources := None; cost := Some (JS.Fin (1 # 100));
               latency := None; warnings := None |} |}.

(** [createMockOptions(scoreFunction)]: the state is a counter, the action
    proposes the next value, the score is a function of the proposal, and
    [initialize] takes [delay] milliseconds. *)
Definition createMockOptions (scoreFunction : Z -> Z) (delay : Z)
  : IterationOptions Z Z Z Z Z :=
  {| initialize := fun input w => (Ok input, w + delay);
     act := fun s _ w => (Ok (action_costing_a_cent (s + 1)), w);
     evaluate := fun _ a _ w =>
       (Ok (createEvaluation (num (scoreFunction (data a)))
              {| o_shouldContinue := Some (JS.lt (num (scoreFunction (data a))) (num 70));
                 o_feedback := Some "Score";
                 o_missingInfo := None;
                 o_metadata := None |}), w);
     transition := fun _ a _ _ w => (Ok (data a), w);
     finalize := fun s _ w => (Ok s, w);
     shouldTerminate := None;
     onError := None |}.

Definition times_ten (v : Z) : Z := v * 10.

(** The mock options with an [act] that throws and an [onError] that falls
    back to [-1]. *)
Definition failing_options : IterationOptions Z Z Z Z Z :=
  {| initialize := initialize (createMockOptions times_ten 0);
     act := fun _ _ w => (Throw (JS.ErrorObj "Test error"), w);
     evaluate := evaluate (createMockOptions times_ten 0);
     transition := transition (createMockOptions times_ten 0);
     finalize := finalize (createMockOptions times_ten 0);
     shouldTerminate := None;
     onError := Some (fun _ _ _ w => (Ok (-1), w)) |}.

(** [{ maxIterations, targetScore: 70, timeout }] *)
Definition test_config (maxI : Z) (limit : option number) : IterationConfig Z :=
  {| c_maxIterations := Some maxI;
     c_targetScore := Some (num 70);
     c_earlyStopScore := None;
     c_minIterations := None;
     c_timeout := limit;
     c_verbose := None;
     c_alwaysRunTransition := None;
     c_skipMinIterations := None;
     c_logger := None |}.

(** The processor that [createIterator(options, config)] returns (the one of
    the default configuration, should it throw). *)
Definition created (opts : IterationOptions Z Z Z Z Z) (cfg : IterationConfig Z)
  : IterationProcessor Z Z Z Z Z :=
  match createIterator opts (Some cfg) with
  | Ok processor => processor
  | Throw _ => mkProcessor opts (default_config Z) []
  end.

(** "should throw error when minIterations > maxIterations" *)
Definition inverted_bounds : IterationConfig Z :=
  {| c_maxIterations := Some 3; c_targetScore := None; c_earlyStopScore := None;
     c_minIterations := Some 5; c_timeout := None; c_verbose := None;
     c_alwaysRunTransition := None; c_skipMinIterations := None; c_logger := None |}.

(** "should converge when score reaches targetScore" *)
Definition converging_processor : IterationProcessor Z Z Z Z Z :=
  created (createMockOptions times_ten 0) (test_config 10 None).

(** "should use error handler when provided" *)
Definition failing_processor : IterationProcessor Z Z Z Z Z :=
  created failing_options (test_config 3 None).

(** "should handle timeout in first iteration": [initialize] takes 100 ms and
    the timeout is 50 ms. *)
Definition slow_processor : IterationProcessor Z Z Z Z Z :=
  created (createMockOptions times_ten 100) (test_config 5 (Some (num 50))).

(** The converging scenario with [timeout: 0]. *)
Definition zero_timeout_processor : IterationProcessor Z Z Z Z Z :=
  created (createMockOptions times_ten 0) (test_config 10 (Some (num 0))).

(** "should use console.error when logger.error is not provided": one
    listener, which throws on every event. *)
Definition heckled_processor : IterationProcessor Z Z Z Z Z :=
  on (created (createMockOptions times_ten 0) (test_config 1 None))
    (fun _ w => (Throw (JS.ErrorObj "Test error"), w)).

(** "should not stop before minIterations even if converged":
    [{ maxIterations: 10, targetScore: 70, minIterations: 3 }] *)
Definition patient_processor : IterationProcessor Z Z Z Z Z :=
  created (createMockOptions times_ten 0)
    {| c_maxIterations := Some 10; c_targetScore := Some (num 70);
       c_earlyStopScore := None; c_minIterations := Some 3; c_timeout := None;
       c_verbose := None; c_alwaysRunTransition := None; c_skipMinIterations := None;
       c_logger := None |}.

(** A streaming iterator on the configuration of "should throw error when
    minIterations > maxIterations". *)
Definition inverted_stream : StreamingIteratoP Z Z Z Z Z :=
  createStreamingIterator (createMockOptions times_ten 0) (Some inverted_bounds).

(** "should remove duplicates based on key function": items with an [id] and
    a [name], keyed by [String(item.id)]. *)
Definition id_key (item : Z * string) : string := JS.show (fst item).

(** A history entry whose evaluation is [createEvaluation(score)]. *)
Definition entry_scoring (value : Z) : IterationHistory Z :=
  {| h_iteration := 0;
     h_actionResult := createActionResult 0 None;
     h_evaluation := createEvaluation (num value) no_options;
     h_timestamp := 0;
     h_duration := 100 |}.

(* ===================================================================== *)
(** * Properties of createEvaluation *)
(* ===================================================================== *)

Lemma clamp_finite (q : Q) :
  in_score_range (JS.max (num 0) (JS.min (num 100) (JS.Fin q))) = true.
Proof.
  unfold in_score_range, JS.max, JS.min, num, JS.of_Z; cbn [JS.ge].
  destruct (Qle_bool (inject_Z 100) q) eqn:Hhi; cbn [JS.ge].
  - reflexivity.
  - destruct (Qle_bool q (inject_Z 0)) eqn:Hlo; cbn [JS.ge].
    + reflexivity.
    + apply andb_true_iff; split.
      * apply Qle_bool_iff, Qnot_lt_le. intro H.
        apply Qlt_le_weak in H. apply Qle_bool_iff in H. congruence.
      * apply Qle_bool_iff, Qnot_lt_le. intro H.
        apply Qlt_le_weak in H. apply Qle_bool_iff in H. congruence.
Qed.

(** C9, as the code has it: the score of [createEvaluation(s, options)] lies
    in [[0, 100]] for every [s] other than [NaN], infinities included;
    [createEvaluation(-10)] has score [0] and [createEvaluation(150)] has
    score [100]. *)
Theorem createEvaluation_score_clamped (s : number) (options : EvaluationOptions) :
  s <> JS.NaN ->
  in_score_range (score (createEvaluation s options)) = true
  /\ score (createEvaluation (num (-10)) options) = num 0
  /\ score (createEvaluation (num 150) options) = num 100.
Proof.
  intros Hs. split; [| split; reflexivity].
  destruct s as [| | q |]; cbn [createEvaluation score].
  - congruence.
  - reflexivity.
  - apply clamp_finite.
  - reflexivity.
Qed.

Lemma createEvaluation_score_clamped_witness :
  in_score_range (score (createEvaluation (num 72) no_options)) = true
  /\ score (createEvaluation (num (-10)) no_options) = num 0
  /\ score (createEvaluation (num 150) no_options) = num 100.
Proof.
  apply (createEvaluation_score_clamped (num 72) no_options). discriminate.
Defined.

(** C9, as stated, fails at [NaN]: [Math.min(100, NaN)] and [Math.max(0, NaN)]
    are [NaN], which is the score of the evaluation and lies in no interval. *)
Lemma createEvaluation_NaN_passes_through :
  score (createEvaluation JS.NaN no_options) = JS.NaN
  /\ in_score_range (score (createEvaluation JS.NaN no_options)) = false.
Proof. split; reflexivity. Qed.

(* ===================================================================== *)
(** * Properties of the batch controller *)
(* ===================================================================== *)

Section ConfigProperties.

Variables Input State ActionData Result World : Type.

#[local] Abbreviation Processor := (IterationProcessor Input State ActionData Result World).

(** C6: a configuration whose [minIterations] exceeds its [maxIterations],
    once the defaults (construction) or the live values (update) are filled
    in, is refused with the validation error; the refused [updateConfig]
    leaves the processor, hence the snapshot [getConfig()] returns, as it
    was. *)
Theorem invalid_bounds_rejected
    (opts : IterationOptions Input State ActionData Result World)
    (this : Processor) (cfg : IterationConfig World) :
  (c_minIterations cfg ?? 1 > c_maxIterations cfg ?? 5 ->
   new_IterationProcessor opts cfg
   = Throw (invalid_configuration (c_minIterations cfg ?? 1) (c_maxIterations cfg ?? 5)))
  /\
  (c_minIterations cfg ?? minIterations (config this)
   > c_maxIterations cfg ?? maxIterations (config this) ->
   fst (updateConfig this cfg)
   = Throw (invalid_configuration
              (c_minIterations cfg ?? minIterations (config this))
              (c_maxIterations cfg ?? maxIterations (config this)))
   /\ snd (updateConfig this cfg) = this
   /\ getConfig (snd (updateConfig this cfg)) = getConfig this).
Proof.
  split; intros H.
  - unfold new_IterationProcessor.
    destruct (Z.gtb_spec (c_minIterations cfg ?? 1) (c_maxIterations cfg ?? 5)) as [_ | Hle].
    + reflexivity.
    + lia.
  - unfold updateConfig.
    destruct (Z.gtb_spec (c_minIterations cfg ?? minIterations (config this))
                (c_maxIterations cfg ?? maxIterations (config this))) as [_ | Hle].
    + repeat split.
    + lia.
Qed.

End ConfigProperties.

Section RunProperties.

Variables Input State ActionData Result World : Type.
Variable env : Environment ActionData World.
Variable this : IterationProcessor Input State ActionData Result World.

#[local] Abbreviation Obs := (Observation Input State ActionData Result).
#[local] Abbreviation Locals := (RunLocals State ActionData).

#[local] Abbreviation Post L A := (outcome A -> Machine World L -> list Obs -> Prop).

(** ** The monad *)

Lemma wp_ret {L A : Type} (a : A) (Q : Post L A) m :
  Q (Ok a) m [] -> wp (ret a) Q m.
Proof. exact (fun H => H). Qed.

Lemma wp_throw {L A : Type} (e : thrown) (Q : Post L A) m :
  Q (Throw e) m [] -> wp (throw e) Q m.
Proof. exact (fun H => H). Qed.

Lemma wp_eval {L A : Type} (o : outcome A) (Q : Post L A) m :
  Q o m [] -> wp (eval o) Q m.
Proof. exact (fun H => H). Qed.

Lemma wp_bind {L A B : Type} (c : M Input State ActionData Result World L A)
    (k : A -> M Input State ActionData Result World L B) (Q : Post L B) m :
  wp c (fun o m1 t1 =>
          match o with
          | Ok a => wp (k a) (fun o2 m2 t2 => Q o2 m2 (t1 ++ t2)) m1
          | Throw e => Q (Throw e) m1 t1
          end) m ->
  wp (bind c k) Q m.
Proof.
  unfold wp, bind. destruct (c m) as [[[a | e] m1] t1]; [| exact (fun H => H)].
  destruct (k a m1) as [[o2 m2] t2]. exact (fun H => H).
Qed.

Lemma wp_try_catch {L A : Type} (c : M Input State ActionData Result World L A)
    (handler : thrown -> M Input State ActionData Result World L A) (Q : Post L A) m :
  wp c (fun o m1 t1 =>
          match o with
          | Ok a => Q (Ok a) m1 t1
          | Throw e => wp (handler e) (fun o2 m2 t2 => Q o2 m2 (t1 ++ t2)) m1
          end) m ->
  wp (try_catch c handler) Q m.
Proof.
  unfold wp, try_catch. destruct (c m) as [[[a | e] m1] t1]; [exact (fun H => H) |].
  destruct (handler e m1) as [[o2 m2] t2]. exact (fun H => H).
Qed.

Lemma wp_get {L A : Type} (f : L -> A) (Q : Post L A) m :
  Q (Ok (f (locals m))) m [] -> wp (get f) Q m.
Proof. exact (fun H => H). Qed.

Lemma wp_modify {L : Type} (f : L -> L) (Q : Post L unit) m :
  Q (Ok tt) (mkMachine (world m) (f (locals m))) [] -> wp (modify f) Q m.
Proof. exact (fun H => H). Qed.

Lemma wp_observe {L : Type} (o : Obs) (Q : Post L unit) m :
  Q (Ok tt) m [o] -> wp (observe o) Q m.
Proof. exact (fun H => H). Qed.

Lemma wp_now {L : Type} (Q : Post L Z) m :
  (forall z w, Date_now env (world m) = (z, w) -> Q (Ok z) (mkMachine w (locals m)) []) ->
  wp (now env) Q m.
Proof.
  unfold wp, now. intros H. destruct (Date_now env (world m)) as [z w] eqn:E.
  apply H. reflexivity.
Qed.

Lemma wp_phase {L A : Type} (f : Callback World A)
    (record : outcome A -> PhaseCall Input State ActionData Result) (Q : Post L A) m :
  (forall o w, f (world m) = (o, w) ->
               Q o (mkMachine w (locals m)) [Call (record o)]) ->
  wp (phase f record) Q m.
Proof.
  unfold wp, phase. intros H. destruct (f (world m)) as [o w] eqn:E.
  apply H. reflexivity.
Qed.

Lemma wp_mono {L A : Type} (c : M Input State ActionData Result World L A)
    (Q Q' : Post L A) m :
  wp c Q m -> (forall o m' t, Q o m' t -> Q' o m' t) -> wp c Q' m.
Proof.
  unfold wp. destruct (c m) as [[o m'] t]. intros H HQ. apply HQ, H.
Qed.

(** What [wp] says of a run whose result is known. *)
Lemma wp_elim {L A : Type} (c : M Input State ActionData Result World L A)
    (Q : Post L A) m o m' t :
  wp c Q m -> c m = (o, m', t) -> Q o m' t.
Proof. unfold wp. intros H E. rewrite E in H. exact H. Qed.

Lemma wp_intro {L A : Type} (c : M Input State ActionData Result World L A)
    (Q : Post L A) m :
  (forall o m' t, c m = (o, m', t) -> Q o m' t) -> wp c Q m.
Proof. unfold wp. intros H. destruct (c m) as [[o m'] t]. apply H. reflexivity. Qed.

(** ** emit and log *)

Lemma report_listener_error_spec {L : Type} (e : thrown) (m : Machine World L) :
  exists o w,
    report_listener_error this e m
    = (o, mkMachine w (locals m), [error_sink (config this) e])
    /\ (logger_total (config this) -> o = Ok tt).
Proof.
  unfold report_listener_error, error_sink, listener_error_prefix.
  destruct (logger (config this)) as [lg |] eqn:Hlg.
  - unfold bind, observe, lift.
    destruct (logger_error lg _ e (world m)) as [o w] eqn:E.
    exists o, w. split; [reflexivity |].
    intros Htotal. destruct (Htotal lg Hlg) as [Herr _].
    destruct (Herr "[IteratoP] Event listener error:" e (world m)) as [w' Hw].
    congruence.
  - exists (Ok tt), (world m). destruct m. split; reflexivity.
Qed.

Lemma error_sink_notice (e : thrown) :
  is_notice (error_sink (config this) e : Obs) = true.
Proof. unfold error_sink. destruct (logger (config this)); reflexivity. Qed.

Lemma notify_spec {L : Type} ls k ev (m : Machine World L) :
  exists o w t,
    notify this ls k ev m = (o, mkMachine w (locals m), t)
    /\ notices t
    /\ (logger_total (config this) ->
        o = Ok tt /\ notified (config this) (List.length ls) k ev t).
Proof.
  revert k m. induction ls as [| l rest IH]; intros k m.
  - exists (Ok tt), (world m), []. destruct m. cbn.
    repeat split; constructor.
  - cbn [notify]. unfold bind at 1. unfold try_catch, listen.
    destruct (l ev (world m)) as [[[] | e] w1] eqn:El.
    + destruct (IH (S k) (mkMachine w1 (locals m))) as (o & w & t & E & Hn & Ht).
      rewrite E. exists o, w, (Listen k ev (Ok tt) :: t). cbn [locals app].
      split; [reflexivity |]. split; [constructor; [reflexivity | exact Hn] |].
      intros Htotal. destruct (Ht Htotal) as [-> Hnot]. split; [reflexivity |].
      cbn [List.length]. constructor. exact Hnot.
    + destruct (report_listener_error_spec e (mkMachine w1 (locals m)))
        as (o1 & w2 & E1 & Ho1).
      rewrite E1. cbn [locals]. destruct o1 as [[] | e1].
      * destruct (IH (S k) (mkMachine w2 (locals m))) as (o & w & t & E & Hn & Ht).
        rewrite E. exists o, w, (Listen k ev (Throw e) :: error_sink (config this) e :: t).
        cbn [locals app]. split; [reflexivity |].
        split; [constructor; [reflexivity |]; constructor;
                [apply error_sink_notice | exact Hn] |].
        intros Htotal. destruct (Ht Htotal) as [-> Hnot]. split; [reflexivity |].
        cbn [List.length]. constructor. exact Hnot.
      * exists (Throw e1), w2, [Listen k ev (Throw e); error_sink (config this) e].
        split; [reflexivity |].
        split; [constructor; [reflexivity |]; constructor;
                [apply error_sink_notice | constructor] |].
        intros Htotal. specialize (Ho1 Htotal). discriminate.
Qed.

Lemma wp_emit {L : Type} ev (Q : Post L unit) m :
  (forall o w t,
      notices t ->
      (logger_total (config this) ->
       o = Ok tt /\ notified (config this) (List.length (listeners this)) 0 ev t) ->
      Q o (mkMachine w (locals m)) (Emit ev :: t)) ->
  wp (emit this ev) Q m.
Proof.
  intros H. unfold wp, emit, bind, observe.
  destruct (notify_spec (listeners this) 0 ev m) as (o & w & t & E & Hn & Ht).
  rewrite E. cbn [app]. apply H; assumption.
Qed.

Lemma wp_log {L : Type} message args (Q : Post L unit) m :
  (forall o w t,
      notices t ->
      (logger_total (config this) -> o = Ok tt) ->
      Q o (mkMachine w (locals m)) t) ->
  wp (log this message args) Q m.
Proof.
  intros H. unfold wp, log.
  destruct (verbose (config this)).
  - destruct (logger (config this)) as [[lerr [f |]] |] eqn:Hlg.
    + unfold bind, observe, lift.
      destruct (f _ args (world m)) as [o w] eqn:E. cbn [app locals].
      apply H.
      * constructor; [reflexivity | constructor].
      * intros Htotal. destruct (Htotal _ Hlg) as [_ Hlog].
        destruct (Hlog f eq_refl ("[IteratoP] " ++ message)%string args (world m))
          as [w' Hw].
        change (f ("[IteratoP] " ++ message)%string args (world m) = (o, w)) in E.
        rewrite Hw in E. injection E as <- _. reflexivity.
    + unfold observe. destruct m as [w l]. apply H.
      * constructor; [reflexivity | constructor].
      * reflexivity.
    + unfold observe. destruct m as [w l]. apply H.
      * constructor; [reflexivity | constructor].
      * reflexivity.
  - unfold ret. destruct m as [w l]. apply H; [constructor | reflexivity].
Qed.

(** ** The termination evaluator *)

Lemma checkTermination_decides
    (s : State) (evaluation : Evaluation) (context : IterationContext) (i : Z)
    (m : Machine World Locals) :
  checkTermination this s evaluation context i m
  = bind (custom_termination this s evaluation context)
      (fun custom => ret (termination_decision (config this) custom evaluation i)) m.
Proof.
  unfold checkTermination, bind.
  destruct (custom_termination this s evaluation context m) as [[[custom | e] m1] t1];
    [| reflexivity].
  unfold termination_decision, termination_rules. cbn [find fst].
  destruct custom; [reflexivity |].
  destruct (JS.ge (score evaluation) (earlyStopScore (config this))); [reflexivity |].
  destruct (shouldContinue evaluation); cbn [negb]; [| reflexivity].
  destruct (JS.ge (score evaluation) (targetScore (config this))); cbn [andb];
    [| reflexivity].
  destruct ((i >=? minIterations (config this) - 1) || skipMinIterations (config this));
    reflexivity.
Qed.


(** Everything [checkTermination] can do: ask the callback, if there is one,
    and decide; the locals are left alone. *)
Lemma wp_checkTermination s evaluation context i
    (Q : Post Locals (bool * TerminationReason)) (m : Machine World Locals) :
  (shouldTerminate (options this) = None ->
   Q (Ok (termination_decision (config this) false evaluation i)) m []) ->
  (forall f out w,
      shouldTerminate (options this) = Some f ->
      f s evaluation context (world m) = (out, w) ->
      Q match out with
        | Ok custom => Ok (termination_decision (config this) custom evaluation i)
        | Throw e => Throw e
        end
        (mkMachine w (locals m))
        [Call (CShouldTerminate s evaluation context out)]) ->
  wp (checkTermination this s evaluation context i) Q m.
Proof.
  intros Hnone Hsome. unfold wp. rewrite checkTermination_decides.
  unfold bind, custom_termination, ret, phase.
  destruct (shouldTerminate (options this)) as [f |].
  - destruct (f s evaluation context (world m)) as [out w] eqn:E.
    specialize (Hsome f out w eq_refl E).
    destruct out as [custom | e]; cbn [app]; exact Hsome.
  - apply Hnone. reflexivity.
Qed.

(** ** Symbolic execution *)

Lemma In_notices (t : list Obs) (o : Obs) : notices t -> In o t -> is_notice o = true.
Proof. intros Hn Hin. exact (proj1 (Forall_forall _ t) Hn o Hin). Qed.

Ltac wp_step :=
  lazymatch goal with
  | |- wp (bind _ _) _ _ => apply wp_bind
  | |- wp (ret _) _ _ => apply wp_ret
  | |- wp (throw _) _ _ => apply wp_throw
  | |- wp (try_catch _ _) _ _ => apply wp_try_catch
  | |- wp (eval ?x) _ _ => apply wp_eval; destruct x as [? | ?] eqn:?
  | |- wp (get _) _ _ => apply wp_get
  | |- wp (modify _) _ _ => apply wp_modify
  | |- wp (now _) _ _ => apply wp_now; intros ? ? ?
  | |- wp (emit _ _) _ _ =>
      let o := fresh "o" in
      apply wp_emit; intros o ? ? ? ?; destruct o as [[] | ?]
  | |- wp (log _ _ _) _ _ =>
      let o := fresh "o" in
      apply wp_log; intros o ? ? ? ?; destruct o as [[] | ?]
  | |- wp (phase _ _) _ _ =>
      let o := fresh "o" in
      apply wp_phase; intros o ? ?; destruct o as [? | ?]
  | |- wp (checkTermination _ _ _ _ _) _ _ =>
      let out := fresh "out" in
      apply wp_checkTermination; [intros ? | intros ? out ? ? ?; destruct out as [? | ?]]
  | |- wp (match ?x with _ => _ end) _ _ => destruct x eqn:?
  end;
  cbn [locals world].

(** Case analysis on the membership [H] of an observation in a trace built
    by appending; memberships in a list of notices are left as they are. *)
Ltac in_cases H :=
  cbn [app In] in H;
  repeat match type of H with
         | In _ (_ ++ _) => apply in_app_or in H
         | _ \/ _ => destruct H as [H | H]
         | In _ (_ :: _) => destruct H as [H | H]
         | In _ [] => destruct H
         | False => destruct H
         end.

(** The membership [H] is of an observation that is no notice. *)
Ltac not_a_notice H :=
  match goal with
  | Hn : notices ?t |- _ =>
      match type of H with
      | In _ t => apply (In_notices _ _ Hn) in H; discriminate H
      end
  end.

(** ** The transition gate *)


(** ** The result of a completed run *)

Lemma last_evaluation_snoc (h : list (IterationHistory ActionData)) entry :
  last_evaluation (h ++ [entry]) = Some (h_evaluation entry).
Proof. unfold last_evaluation. rewrite rev_app_distr. reflexivity. Qed.

Lemma total_cost_is_sum (h : list (IterationHistory ActionData)) :
  total_cost env h = sum_of_costs env h.
Proof.
  unfold total_cost, sum_of_costs.
  assert (H : forall acc,
             fold_left (fun sum entry => add env sum (cost_of entry)) h acc
             = fold_left (add env) (map (fun entry => recorded_cost entry ?? num 0) h) acc).
  { induction h as [| entry h IH]; intros acc; [reflexivity |].
    cbn [fold_left map]. rewrite IH. f_equal. f_equal.
    unfold cost_of, recorded_cost.
    destruct (ar_metadata (h_actionResult entry)); reflexivity. }
  apply H.
Qed.

Ltac locals_simpl :=
  cbn [locals world finalEvaluation history state terminationReason
       set_state push_history set_finalEvaluation set_terminationReason] in *.

Lemma perform_iteration_final startTime iterationStart i s (m : Machine World Locals) :
  wp (perform_iteration env this startTime iterationStart i s)
    (fun o m' _ => forall c, o = Ok c -> final_matches (locals m')) m.
Proof.
  unfold perform_iteration, conclude_iteration.
  repeat wp_step;
    try (intros c [=]);
    unfold final_matches; locals_simpl;
    rewrite last_evaluation_snoc; reflexivity.
Qed.

Lemma iteration_final startTime i s (m : Machine World Locals) :
  final_matches (locals m) ->
  wp (iteration env this startTime i s)
    (fun o m' _ => forall c, o = Ok c -> final_matches (locals m')) m.
Proof.
  intros Hm. unfold iteration, timeout_reached.
  repeat wp_step;
    try (intros c [=]);
    try exact Hm;
    try apply perform_iteration_final.
Qed.

Lemma loop_final slots startTime i s (m : Machine World Locals) :
  final_matches (locals m) ->
  wp (loop env this slots startTime i s)
    (fun o m' _ => forall s', o = Ok s' -> final_matches (locals m')) m.
Proof.
  revert i s m. induction slots as [| n IH]; intros i s m Hm; cbn [loop].
  - apply wp_ret. intros _ _. exact Hm.
  - apply wp_bind. apply wp_mono with (1 := iteration_final startTime i s m Hm).
    intros [[s' | s'] | e] m' t H.
    + apply IH. exact (H _ eq_refl).
    + apply wp_ret. intros _ _. exact (H _ eq_refl).
    + intros s' [=].
Qed.

Lemma complete_result startTime s (m : Machine World Locals) :
  final_matches (locals m) ->
  wp (complete env this startTime s)
    (fun o _ _ =>
       forall r, o = Ok r ->
         r_finalScore r = final_score_spec (r_history r)
         /\ r_converged r = JS.ge (r_finalScore r) (targetScore (config this))
         /\ r_totalCost r = sum_of_costs env (r_history r)
         /\ r_iterations r = Z.of_nat (List.length (r_history r))) m.
Proof.
  intros Hm. unfold complete.
  repeat wp_step; intros r [=]; subst r; cbn.
  rewrite total_cost_is_sum. repeat split.
  unfold final_score_spec. rewrite Hm.
  destruct (last_evaluation (history (locals m))); reflexivity.
Qed.

Lemma run_try_result startTime input (m : Machine World Locals) :
  locals m = initial_locals ->
  wp (run_try env this startTime input)
    (fun o _ _ =>
       forall r, o = Ok r ->
         r_finalScore r = final_score_spec (r_history r)
         /\ r_converged r = JS.ge (r_finalScore r) (targetScore (config this))
         /\ r_totalCost r = sum_of_costs env (r_history r)
         /\ r_iterations r = Z.of_nat (List.length (r_history r))) m.
Proof.
  intros Hm. unfold run_try, prepare, run_from.
  repeat wp_step; try (intros r [=]).
  eapply wp_mono.
  - apply loop_final. rewrite Hm. reflexivity.
  - intros [s' | e] m' t' Hfinal; [| intros r [=]].
    apply complete_result. exact (Hfinal _ eq_refl).
Qed.

Lemma run_catch_emits_error startTime error (m : Machine World Locals) :
  wp (run_catch env this startTime error)
    (fun _ _ t =>
       exists t',
         t = Emit (EvError (JS.toError error)
                     (Z.of_nat (List.length (history (locals m)))) (state (locals m)))
             :: t') m.
Proof.
  unfold run_catch. repeat wp_step; cbn [app]; eexists; reflexivity.
Qed.


(** ** The previous evaluation in the context *)

Lemma contexts_app (t1 t2 : list Obs) : contexts (t1 ++ t2) = contexts t1 ++ contexts t2.
Proof.
  induction t1 as [| o t1 IH]; [reflexivity |].
  cbn [app contexts]. rewrite IH. destruct (call_context o); reflexivity.
Qed.

Lemma evaluations_app (t1 t2 : list Obs) :
  evaluations (t1 ++ t2) = evaluations t1 ++ evaluations t2.
Proof.
  induction t1 as [| o t1 IH]; [reflexivity |].
  cbn [app evaluations]. rewrite IH. destruct (produced o); reflexivity.
Qed.

Lemma notices_contexts (t : list Obs) : notices t -> contexts t = [].
Proof.
  induction 1 as [| o t Ho _ IH]; [reflexivity |].
  cbn [contexts]. rewrite IH. destruct o; try discriminate Ho; reflexivity.
Qed.

Lemma notices_evaluations (t : list Obs) : notices t -> evaluations t = [].
Proof.
  induction 1 as [| o t Ho _ IH]; [reflexivity |].
  cbn [evaluations]. rewrite IH. destruct o; try discriminate Ho; reflexivity.
Qed.

Lemma In_contexts (t : list Obs) (c : Obs) ctx :
  In c t -> call_context c = Some ctx -> In ctx (contexts t).
Proof.
  induction t as [| o t IH]; intros Hin Hc; [destruct Hin |].
  cbn [contexts]. destruct Hin as [-> | Hin].
  - rewrite Hc. left. reflexivity.
  - destruct (call_context o); [right |]; apply IH; assumption.
Qed.

(** Rewrite the contexts and the evaluations of a trace built by appending. *)
Ltac summarize :=
  repeat first
    [ rewrite contexts_app
    | rewrite evaluations_app
    | progress cbn [contexts evaluations call_context produced app]
    | match goal with
      | H : notices ?t |- context [contexts ?t] => rewrite (notices_contexts t H)
      | H : notices ?t |- context [evaluations ?t] => rewrite (notices_evaluations t H)
      end ].

Lemma conclude_iteration_contexts i s actionResult evaluation context decision
    (m : Machine World Locals) :
  wp (conclude_iteration this i s actionResult evaluation context decision)
    (fun o m' t =>
       Forall (fun c => c = context) (contexts t)
       /\ evaluations t = []
       /\ finalEvaluation (locals m') = finalEvaluation (locals m)) m.
Proof.
  unfold conclude_iteration.
  repeat wp_step; summarize; locals_simpl; repeat constructor.
Qed.

Lemma perform_iteration_contexts startTime iterationStart i s (m : Machine World Locals) :
  wp (perform_iteration env this startTime iterationStart i s)
    (fun o m' t =>
       Forall (fun c => ctx_iteration c = i
                        /\ ctx_previousEvaluation c
                           = previous_at i (finalEvaluation (locals m)))
         (contexts t)
       /\ (evaluations t = [] \/ exists e, evaluations t = [(i, e)])
       /\ (forall c, o = Ok c -> evaluations t = [(i, finalEvaluation (locals m'))])) m.
Proof.
  unfold perform_iteration.
  repeat wp_step;
    try (eapply wp_mono; [apply conclude_iteration_contexts |];
         cbn beta; intros oc mc tc (Hc & He & Hf));
    summarize; locals_simpl; rewrite ?He, ?Hf; locals_simpl;
    (split;
     [ repeat first
         [ apply Forall_nil
         | apply Forall_cons; [split; reflexivity |]
         | eapply Forall_impl; [| exact Hc]; cbn beta; intros ? ->; split; reflexivity ]
     | ]);
    (split; [first [left; reflexivity | right; eexists; reflexivity] |]);
    intros c [=]; reflexivity.
Qed.

Lemma iteration_contexts startTime i s (m : Machine World Locals) :
  wp (iteration env this startTime i s)
    (fun o m' t =>
       Forall (fun c => ctx_iteration c = i
                        /\ ctx_previousEvaluation c
                           = previous_at i (finalEvaluation (locals m)))
         (contexts t)
       /\ (evaluations t = [] \/ exists e, evaluations t = [(i, e)])
       /\ (forall s', o = Ok (Continue s') ->
           evaluations t = [(i, finalEvaluation (locals m'))])) m.
Proof.
  unfold iteration, timeout_reached.
  repeat wp_step;
    try (eapply wp_mono; [apply perform_iteration_contexts |];
         cbn beta; intros op mp tp (Hc & He & Hf));
    summarize;
    (split; [first [apply Forall_nil | exact Hc] |]);
    (split; [first [left; reflexivity | exact He] |]);
    intros s' [=]; subst; apply Hf with (c := Continue s'); reflexivity.
Qed.

Lemma sequenced_pass i fe (t : list Obs) :
  Forall (fun c => ctx_iteration c = i /\ ctx_previousEvaluation c = previous_at i fe)
    (contexts t) ->
  (evaluations t = [] \/ exists e, evaluations t = [(i, e)]) ->
  sequenced i fe t.
Proof.
  intros Hc He. split; [| split].
  - eapply Forall_impl; [| exact Hc]. cbn beta. intros c [Hi Hp].
    split; [lia |]. split; [intros _; exact Hp | lia].
  - destruct He as [-> | [e ->]]; repeat constructor.
  - destruct He as [-> | [e ->]]; repeat constructor. cbn. lia.
Qed.

Lemma sequenced_step i fe fe1 (t1 t2 : list Obs) :
  0 <= i ->
  Forall (fun c => ctx_iteration c = i /\ ctx_previousEvaluation c = previous_at i fe)
    (contexts t1) ->
  evaluations t1 = [(i, fe1)] ->
  sequenced (i + 1) fe1 t2 ->
  sequenced i fe (t1 ++ t2).
Proof.
  intros Hi Hc He (Gc & Gs & Gl). unfold sequenced.
  rewrite contexts_app, evaluations_app, He. cbn [app map fst].
  split; [| split].
  - apply Forall_app. split.
    + eapply Forall_impl; [| exact Hc]. cbn beta. intros c [Hci Hp].
      split; [lia |]. split; [intros _; exact Hp | lia].
    + eapply Forall_impl; [| exact Gc]. cbn beta. intros c (Hle & Heq & Hgt).
      split; [lia |]. split; [lia |]. intros _.
      destruct (Z.eq_dec (ctx_iteration c) (i + 1)) as [E | E].
      * exists fe1. split.
        -- left. f_equal. lia.
        -- rewrite (Heq E). unfold previous_at.
           destruct (Z.gtb_spec (i + 1) 0); [reflexivity | lia].
      * destruct Hgt as (e & Hin & Hp); [lia |].
        exists e. split; [right; exact Hin | exact Hp].
  - constructor; [exact Gs |].
    eapply Forall_impl; [| exact Gl]. cbn beta. intros k Hk. lia.
  - constructor; [lia |].
    eapply Forall_impl; [| exact Gl]. cbn beta. intros k Hk. lia.
Qed.

Lemma loop_contexts slots startTime i s (m : Machine World Locals) :
  0 <= i ->
  wp (loop env this slots startTime i s)
    (fun _ _ t => sequenced i (finalEvaluation (locals m)) t) m.
Proof.
  revert i s m. induction slots as [| n IH]; intros i s m Hi; cbn [loop].
  - apply wp_ret. apply sequenced_pass; [constructor | left; reflexivity].
  - apply wp_bind. eapply wp_mono; [apply iteration_contexts |].
    cbn beta. intros [[s' | s'] | e] m1 t1 (Hc & He & Hf).
    + eapply wp_mono; [apply (IH (i + 1) s' m1); lia |].
      cbn beta. intros _ _ t2 Hseq.
      eapply sequenced_step; [exact Hi | exact Hc | apply (Hf s'); reflexivity | exact Hseq].
    + apply wp_ret. rewrite app_nil_r. apply sequenced_pass; assumption.
    + apply sequenced_pass; assumption.
Qed.

Lemma sequenced_ext i fe (t t' : list Obs) :
  contexts t' = contexts t -> evaluations t' = evaluations t ->
  sequenced i fe t -> sequenced i fe t'.
Proof. unfold sequenced. intros -> ->. exact (fun H => H). Qed.

Lemma sequenced_quiet i fe (t : list Obs) :
  contexts t = [] -> evaluations t = [] -> sequenced i fe t.
Proof.
  intros Hc He. apply sequenced_pass; [rewrite Hc; constructor | left; exact He].
Qed.

Lemma complete_quiet startTime s (m : Machine World Locals) :
  wp (complete env this startTime s)
    (fun _ _ t => contexts t = [] /\ evaluations t = []) m.
Proof.
  unfold complete. repeat wp_step; summarize; split; reflexivity.
Qed.

Lemma run_catch_quiet startTime error (m : Machine World Locals) :
  wp (run_catch env this startTime error)
    (fun _ _ t => contexts t = [] /\ evaluations t = []) m.
Proof.
  unfold run_catch. repeat wp_step; summarize; split; reflexivity.
Qed.

Lemma run_try_contexts startTime input (m : Machine World Locals) :
  wp (run_try env this startTime input)
    (fun _ _ t => sequenced 0 (finalEvaluation (locals m)) t) m.
Proof.
  unfold run_try, prepare, run_from.
  repeat wp_step;
    try (apply sequenced_quiet; summarize; reflexivity).
  eapply wp_mono; [apply loop_contexts; lia |].
  cbn beta. intros [s' | e] ml tl Hseq.
  - eapply wp_mono; [apply complete_quiet |].
    cbn beta. intros _ _ tc [Hc He].
    eapply sequenced_ext; [| | exact Hseq];
      summarize; rewrite ?Hc, ?He, ?app_nil_r; reflexivity.
  - eapply sequenced_ext; [| | exact Hseq];
      summarize; rewrite ?app_nil_r; reflexivity.
Qed.

Lemma StronglySorted_lt_NoDup (l : list Z) : StronglySorted Z.lt l -> NoDup l.
Proof.
  induction 1 as [| a l _ IH Hall]; constructor; [| exact IH].
  intros Hin. pose proof (proj1 (Forall_forall _ l) Hall a Hin). lia.
Qed.

(** C10: in every run, a context handed to [act], [evaluate] or [transition]
    at index 0 has no previous evaluation, and one handed at an index [i > 0]
    has for previous evaluation the evaluation that the evaluate phase
    returned at index [i - 1]; the evaluate phase returns at most once per
    index, so that evaluation is determined. *)
Theorem previous_evaluation_follows (input : Input) (w : World) :
  let t := snd (run_in env this input w) in
  (forall c ctx,
      In c t -> call_context c = Some ctx ->
      (ctx_iteration ctx = 0 /\ ctx_previousEvaluation ctx = None)
      \/ (ctx_iteration ctx > 0
          /\ exists e, In (ctx_iteration ctx - 1, e) (evaluations t)
                       /\ ctx_previousEvaluation ctx = Some e))
  /\ NoDup (map fst (evaluations t)).
Proof.
  cbv zeta. unfold run_in.
  destruct (run env this input (mkMachine w initial_locals)) as [[o m'] t] eqn:E.
  cbn [snd].
  assert (Hseq : sequenced 0 (finalEvaluation (@initial_locals State ActionData)) t).
  { refine (wp_elim _ (fun _ _ t => sequenced 0 _ t) _ _ _ _ _ E).
    unfold run.
    repeat wp_step; try (apply sequenced_quiet; summarize; reflexivity).
    eapply wp_mono; [apply run_try_contexts |].
    cbn beta. intros [r | e] mt tt Hseq.
    - eapply sequenced_ext; [| | exact Hseq]; summarize; reflexivity.
    - eapply wp_mono; [apply run_catch_quiet |].
      cbn beta. intros _ _ tc [Hc He].
      eapply sequenced_ext; [| | exact Hseq];
        summarize; rewrite ?Hc, ?He, ?app_nil_r; reflexivity. }
  destruct Hseq as (Hc & Hs & _). split.
  - intros c ctx Hin Hctx.
    pose proof (proj1 (Forall_forall _ _) Hc ctx (In_contexts t c ctx Hin Hctx))
      as (Hle & Heq & Hgt).
    destruct (Z.eq_dec (ctx_iteration ctx) 0) as [E0 | E0].
    + left. split; [exact E0 |]. rewrite (Heq E0). reflexivity.
    + right. split; [lia |]. apply Hgt. lia.
  - apply StronglySorted_lt_NoDup. exact Hs.
Qed.

(** ** The error path *)

Lemma completed_app (t1 t2 : list Obs) : completed (t1 ++ t2) = completed t1 ++ completed t2.
Proof.
  induction t1 as [| o t1 IH]; [reflexivity |].
  cbn [app completed]. rewrite IH. destruct o as [[] | | | | | |]; reflexivity.
Qed.

Lemma known_state_app s0 (t1 t2 : list Obs) :
  known_state s0 (t1 ++ t2) = known_state (known_state s0 t1) t2.
Proof.
  revert s0. induction t1 as [| o t1 IH]; intros s0; [reflexivity |].
  cbn [app known_state].
  destruct o as [| | | | | | [? [] | | | ? ? ? ? [] | | |]]; apply IH.
Qed.

Lemma notices_completed (t : list Obs) : notices t -> completed t = [].
Proof.
  induction 1 as [| o t Ho _ IH]; [reflexivity |].
  destruct o; try discriminate Ho; exact IH.
Qed.

Lemma notices_known_state s0 (t : list Obs) : notices t -> known_state s0 t = s0.
Proof.
  induction 1 as [| o t Ho _ IH]; [reflexivity |].
  destruct o; try discriminate Ho; exact IH.
Qed.

Lemma notices_not_initialize (t : list Obs) x :
  notices t -> In x t -> is_initialize x = false.
Proof.
  intros Hn Hin. pose proof (In_notices t x Hn Hin) as Hx.
  destruct x; try discriminate Hx; reflexivity.
Qed.

(** Rewrite the completed iterations and the known state of a trace built by
    appending. *)
Ltac track :=
  repeat first
    [ rewrite completed_app
    | rewrite known_state_app
    | progress cbn [completed known_state app]
    | match goal with
      | H : notices ?t |- context [completed ?t] => rewrite (notices_completed t H)
      | H : notices ?t |- context [known_state _ ?t] => rewrite (notices_known_state _ t H)
      end ].

(** A call found in a trace built by appending threw what the block throws. *)
Ltac thrown_by Hin Hpe :=
  in_cases Hin;
  first
    [ discriminate Hin
    | not_a_notice Hin
    | injection Hin as <-; cbn in Hpe;
      first [discriminate Hpe | injection Hpe as <-; reflexivity]
    | match goal with
      | H : forall c e, In (Call c) ?t -> _ |- _ =>
          match type of Hin with In _ t => exact (H _ _ Hin Hpe) end
      end ].

(** No observation of a trace built by appending is a call of [initialize]. *)
Ltac not_initialize Hin :=
  in_cases Hin;
  first
    [ subst; reflexivity
    | match goal with
      | H : notices ?t |- _ =>
          match type of Hin with In _ t => exact (notices_not_initialize t _ H Hin) end
      | H : forall x, In x ?t -> is_initialize x = false |- _ =>
          match type of Hin with In _ t => exact (H _ Hin) end
      end ].

Ltac tracked_leaf :=
  repeat match goal with
         | H : tracked _ _ _ _ |- _ => destruct H as (? & ? & ? & ?)
         end;
  unfold tracked; locals_simpl;
  repeat match goal with
         | H : history ?l = _ |- context [history ?l] => rewrite H
         | H : state ?l = _ |- context [state ?l] => rewrite H
         end;
  locals_simpl; track; rewrite ?app_nil_r, <- ?app_assoc; cbn [app];
  split;
  [ reflexivity
  | split;
    [ reflexivity
    | split;
      [ let c := fresh "c" in
        let e := fresh "e" in
        let Hin := fresh "Hin" in
        let Hpe := fresh "Hpe" in
        intros c e Hin Hpe; thrown_by Hin Hpe
      | let x := fresh "x" in
        let Hin := fresh "Hin" in
        intros x Hin; not_initialize Hin ] ] ].

Lemma conclude_iteration_tracked i s actionResult evaluation context decision
    (m : Machine World Locals) :
  wp (conclude_iteration this i s actionResult evaluation context decision)
    (fun o m' t => tracked (locals m) o (locals m') t) m.
Proof.
  unfold conclude_iteration. repeat wp_step; tracked_leaf.
Qed.

Lemma perform_iteration_tracked startTime iterationStart i s (m : Machine World Locals) :
  wp (perform_iteration env this startTime iterationStart i s)
    (fun o m' t => tracked (locals m) o (locals m') t) m.
Proof.
  unfold perform_iteration.
  repeat wp_step;
    try (eapply wp_mono; [apply conclude_iteration_tracked |];
         cbn beta; intros oc mc tc Hc);
    tracked_leaf.
Qed.

Lemma iteration_tracked startTime i s (m : Machine World Locals) :
  wp (iteration env this startTime i s)
    (fun o m' t => tracked (locals m) o (locals m') t) m.
Proof.
  unfold iteration, timeout_reached.
  repeat wp_step;
    try (eapply wp_mono; [apply perform_iteration_tracked |];
         cbn beta; intros oc mc tc Hc);
    tracked_leaf.
Qed.

Lemma tracked_trans {A B : Type} (l l1 l2 : Locals) (a : A) (o : outcome B)
    (t1 t2 : list Obs) :
  tracked l (Ok a) l1 t1 -> tracked l1 o l2 t2 -> tracked l o l2 (t1 ++ t2).
Proof.
  intros (Hh1 & Hs1 & Hf1 & Hi1) (Hh2 & Hs2 & Hf2 & Hi2). unfold tracked.
  rewrite completed_app, known_state_app, Hh2, Hs2, Hh1, Hs1, app_assoc.
  split; [reflexivity |]. split; [reflexivity |]. split.
  - intros c e Hin Hpe. apply in_app_or in Hin. destruct Hin as [Hin | Hin].
    + discriminate (Hf1 c e Hin Hpe).
    + exact (Hf2 c e Hin Hpe).
  - intros x Hin. apply in_app_or in Hin. destruct Hin as [Hin | Hin]; auto.
Qed.

Lemma tracked_nil {A : Type} (l : Locals) (o : outcome A) :
  tracked l o l ([] : list Obs).
Proof.
  unfold tracked. cbn [completed known_state]. rewrite app_nil_r.
  split; [reflexivity |]. split; [reflexivity |].
  split; [intros c e [] | intros x []].
Qed.

Lemma tracked_throw {A B : Type} (l l' : Locals) (e : thrown) (t : list Obs) :
  tracked l (Throw e : outcome A) l' t -> tracked l (Throw e : outcome B) l' t.
Proof.
  intros (Hh & Hs & Hf & Hi). repeat split; try assumption.
  intros c e' Hin Hpe. specialize (Hf c e' Hin Hpe). congruence.
Qed.

Lemma loop_tracked slots startTime i s (m : Machine World Locals) :
  wp (loop env this slots startTime i s)
    (fun o m' t => tracked (locals m) o (locals m') t) m.
Proof.
  revert i s m. induction slots as [| n IH]; intros i s m; cbn [loop].
  - apply wp_ret. apply tracked_nil.
  - apply wp_bind. eapply wp_mono; [apply iteration_tracked |].
    cbn beta. intros [[s' | s'] | e] m1 t1 H1.
    + eapply wp_mono; [apply IH |]. cbn beta. intros o2 m2 t2 H2.
      exact (tracked_trans _ _ _ _ _ _ _ H1 H2).
    + apply wp_ret. rewrite app_nil_r. destruct H1 as (Hh & Hs & Hf & Hi).
      repeat split; try assumption. intros c e Hin Hpe.
      discriminate (Hf c e Hin Hpe).
    + exact (tracked_throw _ _ _ _ H1).
Qed.

Lemma complete_tracked startTime s (m : Machine World Locals) :
  wp (complete env this startTime s)
    (fun o m' t => tracked (locals m) o (locals m') t) m.
Proof. unfold complete. repeat wp_step; tracked_leaf. Qed.

Lemma run_from_tracked startTime i s (m : Machine World Locals) :
  wp (run_from env this startTime i s)
    (fun o m' t => tracked (locals m) o (locals m') t) m.
Proof.
  unfold run_from. apply wp_bind. eapply wp_mono; [apply loop_tracked |].
  cbn beta. intros [s' | e] m1 t1 H1; [| exact (tracked_throw _ _ _ _ H1)].
  eapply wp_mono; [apply complete_tracked |]. cbn beta. intros o2 m2 t2 H2.
  exact (tracked_trans _ _ _ _ _ _ _ H1 H2).
Qed.

(** From the fresh locals, the [try] block keeps the history and the state
    in step with what it shows, ends with the exception of the phase that
    threw, and leaves the state undefined if [initialize] threw. *)
Lemma run_try_tracked startTime input (m : Machine World Locals) :
  locals m = initial_locals ->
  wp (run_try env this startTime input)
    (fun o m' t =>
       history (locals m') = completed t
       /\ state (locals m') = known_state None t
       /\ (forall c e, In (Call c) t -> phase_error c = Some e -> o = Throw e)
       /\ (forall input' e, In (Call (CInitialize input' (Throw e))) t ->
           known_state None t = None /\ completed t = [])) m.
Proof.
  intros Hm. unfold run_try, prepare.
  repeat wp_step;
    try (eapply wp_mono; [apply run_from_tracked |];
         cbn beta; intros oc mc tc (Hh & Hs & Hf & Hi));
    locals_simpl; rewrite ?Hh, ?Hs, ?Hm; locals_simpl; track;
    rewrite ?app_nil_r; cbn [initial_locals history state app];
    (split; [reflexivity |]); (split; [reflexivity |]);
    (split;
     [ let c := fresh "c" in
       let e := fresh "e" in
       let Hin := fresh "Hin" in
       let Hpe := fresh "Hpe" in
       intros c e Hin Hpe; thrown_by Hin Hpe
     | let i' := fresh "input'" in
       let e := fresh "e" in
       let Hin := fresh "Hin" in
       intros i' e Hin; in_cases Hin;
       first
         [ discriminate Hin
         | not_a_notice Hin
         | split; reflexivity
         | discriminate (Hi _ Hin) ] ]).
Qed.

(** A total logger makes [emit] and [log] return: the case where one threw
    is absurd. *)
Ltac logger_returns Htotal :=
  match goal with
  | H : logger_total _ -> Throw _ = Ok tt /\ _ |- _ =>
      destruct (H Htotal) as [Habsurd _]; discriminate Habsurd
  | H : logger_total _ -> Throw _ = Ok tt |- _ =>
      discriminate (H Htotal)
  end.

Lemma run_catch_spec startTime error (m : Machine World Locals) :
  wp (run_catch env this startTime error)
    (fun o m' t =>
       exists tn,
         t = Emit (EvError (JS.toError error)
                     (Z.of_nat (List.length (history (locals m)))) (state (locals m)))
             :: tn
         /\ completed tn = []
         /\ (forall s0, known_state s0 tn = s0)
         /\ (forall c e, In (Call c) tn -> phase_error c = Some e -> False)
         /\ (logger_total (config this) ->
             match onError (options this) with
             | None => o = Throw error
             | Some _ =>
                 exists ctx out,
                   In (Call (COnError (JS.toError error) (state (locals m)) ctx out)) tn
                   /\ ctx_iteration ctx = Z.of_nat (List.length (history (locals m)))
                   /\ (forall fallback, out = Ok fallback ->
                       exists r,
                         o = Ok r
                         /\ r_result r = fallback
                         /\ r_terminationReason r = ManualStop
                         /\ r_converged r = false
                         /\ r_history r = history (locals m)
                         /\ r_iterations r = Z.of_nat (List.length (history (locals m)))
                         /\ r_totalCost r = sum_of_costs env (history (locals m)))
             end)) m.
Proof.
  unfold run_catch.
  repeat wp_step; cbn [app];
    (eexists; split; [reflexivity |]);
    (split; [track; reflexivity |]);
    (split; [intros s0; track; reflexivity |]);
    (split;
     [ let c := fresh "c" in
       let e := fresh "e" in
       let Hin := fresh "Hin" in
       let Hpe := fresh "Hpe" in
       intros c e Hin Hpe; in_cases Hin;
       first [ discriminate Hin | not_a_notice Hin
             | injection Hin as <-; discriminate Hpe ]
     | ]);
    intros Htotal; try logger_returns Htotal.
  - do 2 eexists. split; [apply in_or_app; right; apply in_or_app; right; left; reflexivity |].
    split; [reflexivity |]. intros fallback [= <-].
    eexists. split; [reflexivity |]. cbn. rewrite total_cost_is_sum. repeat split.
  - do 2 eexists. split; [apply in_or_app; right; apply in_or_app; right; left; reflexivity |].
    split; [reflexivity |]. intros fallback [=].
  - reflexivity.
Qed.

(** C4: when a phase or [shouldTerminate] throws [e] during a run, an [error]
    event is emitted, carrying the error (as an [Error] object), the number
    of completed iterations and the last state a phase returned -- none if
    it is [initialize] that threw.  Provided the logger's own functions
    return: without [onError] the run rejects with [e] itself; with [onError],
    the handler is called with that error, that state and a context whose
    [iteration] is the number of completed iterations, and if it returns, the
    run resolves with its value as [result], [manual_stop], [converged]
    false, and the history, iteration count and total cost of the iterations
    completed before the failure. *)
Theorem error_path
    (input : Input) (w w' : World) (o : outcome (IterationResult ActionData Result))
    (t : list Obs) (c : PhaseCall Input State ActionData Result) (e : thrown) :
  run_in env this input w = (o, w', t) ->
  In (Call c) t ->
  phase_error c = Some e ->
  let n := Z.of_nat (List.length (completed t)) in
  let st := known_state None t in
  In (Emit (EvError (JS.toError e) n st)) t
  /\ ((exists input', c = CInitialize input' (Throw e)) -> st = None /\ n = 0)
  /\ (logger_total (config this) ->
      match onError (options this) with
      | None => o = Throw e
      | Some _ =>
          exists ctx out,
            In (Call (COnError (JS.toError e) st ctx out)) t
            /\ ctx_iteration ctx = n
            /\ (forall fallback, out = Ok fallback ->
                exists r,
                  o = Ok r
                  /\ r_result r = fallback
                  /\ r_terminationReason r = ManualStop
                  /\ r_converged r = false
                  /\ r_history r = completed t
                  /\ r_iterations r = n
                  /\ r_totalCost r = sum_of_costs env (completed t))
      end).
Proof.
  intros Hrun Hin Hpe. cbv zeta. unfold run_in in Hrun.
  destruct (run env this input (mkMachine w initial_locals)) as [[o0 m'] t0] eqn:E.
  injection Hrun as -> _ ->. revert c e Hin Hpe.
  refine (wp_elim _ (fun o _ t => forall c e, In (Call c) t -> phase_error c = Some e -> _)
            _ _ _ _ _ E).
  unfold run.
  repeat wp_step;
    try (intros ? ? Hin0 Hpe0; exfalso; in_cases Hin0;
         first [discriminate Hin0 | not_a_notice Hin0]).
  eapply wp_mono; [apply run_try_tracked; reflexivity |].
  cbn beta. intros [r | e0] mt tt (Hh & Hs & Hf & Hi).
  - intros c e Hin Hpe. exfalso. in_cases Hin;
      first [discriminate Hin | not_a_notice Hin | discriminate (Hf c e Hin Hpe)].
  - eapply wp_mono; [apply run_catch_spec |].
    cbn beta. intros oc mc tc (tn & -> & Hcn & Hkn & Hpn & Hon) c e Hin Hpe.
    assert (He : e0 = e).
    { in_cases Hin;
        first [ discriminate Hin | not_a_notice Hin
              | specialize (Hf c e Hin Hpe); congruence
              | exfalso; exact (Hpn c e Hin Hpe) ]. }
    subst e0. track. rewrite ?Hcn, ?Hkn, ?app_nil_r, <- ?Hh, <- ?Hs.
    split; [| split].
    + repeat first [apply in_eq | apply in_cons | apply in_or_app; right].
    + intros [input' ->].
      assert (Hinit : In (Call (CInitialize input' (Throw e))) tt).
      { in_cases Hin;
          first [ discriminate Hin | not_a_notice Hin | exact Hin
                | exfalso; exact (Hpn _ e Hin Hpe) ]. }
      destruct (Hi input' e Hinit) as [Hnone Hempty].
      rewrite Hs, Hh, Hnone, Hempty. split; reflexivity.
    + intros Htotal. specialize (Hon Htotal).
      destruct (onError (options this)) as [handler |]; [| exact Hon].
      destruct Hon as (ctx & out & Hcall & Hctx & Hres).
      exists ctx, out. split; [| split; [exact Hctx | exact Hres]].
      repeat first [exact Hcall | apply in_cons | apply in_or_app; right].
Qed.

(** ** Listeners *)

Section Totality.

Hypothesis Hlogger : logger_total (config this).
Hypothesis Hphases : phases_total (options this).
Hypothesis Hjson : serializable env.

(** Under these hypotheses nothing throws: the case at hand is absurd. *)
Ltac cannot_throw :=
  exfalso;
  first
    [ logger_returns Hlogger
    | match goal with
      | H : JSON_stringify_length env ?d = Throw _ |- _ =>
          destruct (Hjson d) as [? E]; congruence
      end
    | destruct Hphases as (Hi & Ha & He & Ht & Hf & Hs);
      match goal with
      | H : initialize _ ?x ?w = (Throw _, _) |- _ =>
          destruct (Hi x w) as (? & ? & E); congruence
      | H : act _ ?s ?c ?w = (Throw _, _) |- _ =>
          destruct (Ha s c w) as (? & ? & E); congruence
      | H : evaluate _ ?s ?a ?c ?w = (Throw _, _) |- _ =>
          destruct (He s a c w) as (? & ? & E); congruence
      | H : transition _ ?s ?a ?e ?c ?w = (Throw _, _) |- _ =>
          destruct (Ht s a e c w) as (? & ? & E); congruence
      | H : finalize _ ?s ?h ?w = (Throw _, _) |- _ =>
          destruct (Hf s h w) as (? & ? & E); congruence
      | Hsome : shouldTerminate _ = Some ?f, H : ?f ?s ?e ?c ?w = (Throw _, _) |- _ =>
          destruct (Hs f Hsome s e c w) as (? & ? & E); congruence
      end ].

Lemma conclude_iteration_returns i s actionResult evaluation context decision
    (m : Machine World Locals) :
  wp (conclude_iteration this i s actionResult evaluation context decision)
    (fun o _ _ => exists c, o = Ok c) m.
Proof.
  unfold conclude_iteration.
  repeat wp_step; first [eexists; reflexivity | cannot_throw].
Qed.

Lemma iteration_returns startTime i s (m : Machine World Locals) :
  wp (iteration env this startTime i s) (fun o _ _ => exists c, o = Ok c) m.
Proof.
  unfold iteration, timeout_reached, perform_iteration.
  repeat wp_step;
    first [ eexists; reflexivity
          | apply conclude_iteration_returns
          | cannot_throw ].
Qed.

Lemma loop_returns slots startTime i s (m : Machine World Locals) :
  wp (loop env this slots startTime i s) (fun o _ _ => exists s', o = Ok s') m.
Proof.
  revert i s m. induction slots as [| n IH]; intros i s m; cbn [loop].
  - apply wp_ret. eexists; reflexivity.
  - apply wp_bind. eapply wp_mono; [apply iteration_returns |].
    cbn beta. intros o m1 t1 [[s' | s'] ->].
    + apply IH.
    + apply wp_ret. eexists; reflexivity.
Qed.

Lemma run_returns input (m : Machine World Locals) :
  wp (run env this input)
    (fun o _ t => exists r, o = Ok r /\ In (Emit (EvComplete r)) t) m.
Proof.
  unfold run, run_try, prepare, run_from.
  repeat wp_step; try cannot_throw.
  eapply wp_mono; [apply loop_returns |].
  cbn beta. intros o ml tl [s' ->].
  unfold complete.
  repeat wp_step; try cannot_throw.
  eexists. split; [reflexivity |].
  repeat first [apply in_eq | apply in_cons | apply in_or_app; right].
Qed.

End Totality.

(** C7: whatever the listeners do, provided the functions of the logger
    return.  Emitting an event calls every listener, in order; an exception
    of a listener goes to the error sink -- [logger.error] if a logger is
    configured, [console.error] otherwise -- with the prefix
    ["[IteratoP] Event listener error:"], and the next listener is called;
    [emit] returns and leaves the locals alone.  And a run whose phases all
    return resolves, after emitting [complete] with its result. *)
Theorem listeners_cannot_abort :
  logger_total (config this) ->
  (forall ev (m : Machine World Locals),
      exists w tn,
        emit this ev m = (Ok tt, mkMachine w (locals m), Emit ev :: tn)
        /\ notified (config this) (List.length (listeners this)) 0 ev tn)
  /\ (phases_total (options this) -> serializable env ->
      forall input w,
      exists r w' t,
        run_in env this input w = (Ok r, w', t) /\ In (Emit (EvComplete r)) t).
Proof.
  intros Hlogger. split.
  - intros ev m. unfold emit, bind, observe.
    destruct (notify_spec (listeners this) 0 ev m) as (o & w & t & E & _ & Ht).
    destruct (Ht Hlogger) as [-> Hn]. rewrite E. exists w, t. split; [reflexivity | exact Hn].
  - intros Hphases Hjson input w. unfold run_in.
    pose proof (run_returns Hlogger Hphases Hjson input (mkMachine w initial_locals)) as H.
    unfold wp in H.
    destruct (run env this input (mkMachine w initial_locals)) as [[o m'] t].
    destruct H as (r & -> & Hin). exists r, (world m'), t. split; [reflexivity | exact Hin].
Qed.

(** ** Timeout *)

Lemma slots_from_lt i :
  i < maxIterations (config this) -> slots_from this i = S (slots_from this (i + 1)).
Proof. unfold slots_from. intros Hi. rewrite <- Z2Nat.inj_succ by lia. f_equal. lia. Qed.

(** A pass that ends without [break] hands the rest of the block to the next
    index. *)
Lemma run_from_next startTime i s s' (m m' : Machine World Locals) (t' : list Obs) :
  i < maxIterations (config this) ->
  iteration env this startTime i s m = (Ok (Continue s'), m', t') ->
  run_from env this startTime i s m
  = (outcome_of (run_from env this startTime (i + 1) s' m'),
     machine_of (run_from env this startTime (i + 1) s' m'),
     t' ++ trace_of (run_from env this startTime (i + 1) s' m')).
Proof.
  intros Hi Hpass. unfold run_from, outcome_of, machine_of, trace_of.
  rewrite (slots_from_lt i Hi). cbn [loop]. unfold bind at 1 3 4 5. unfold bind at 1.
  rewrite Hpass.
  destruct (loop env this (slots_from this (i + 1)) startTime (i + 1) s' m')
    as [[[sl | el] ml] tl]; cbn [fst snd].
  - destruct (complete env this startTime sl ml) as [[oc mc] tc]. cbn [fst snd].
    rewrite app_assoc. reflexivity.
  - reflexivity.
Qed.

(** The [try] block is what it has shown up to a loop head, followed by the
    rest of the block from there. *)
Lemma run_try_from_head startTime input m0 i s (m : Machine World Locals) (t : list Obs) :
  loop_head env this startTime input m0 i s m t ->
  run_try env this startTime input m0
  = (outcome_of (run_from env this startTime i s m),
     machine_of (run_from env this startTime i s m),
     t ++ trace_of (run_from env this startTime i s m)).
Proof.
  induction 1 as [s m t Hm Hprep | i s m t s' m' t' Hhead IH Hi Hpass].
  - unfold run_try, bind, outcome_of, machine_of, trace_of. rewrite Hprep.
    destruct (run_from env this startTime 0 s m) as [[o mf] tf]. reflexivity.
  - rewrite IH, (run_from_next startTime i s s' m m' t' Hi Hpass).
    unfold outcome_of, machine_of, trace_of. cbn [fst snd].
    rewrite app_assoc. reflexivity.
Qed.

Lemma conclude_iteration_continue i s actionResult evaluation context decision
    (m : Machine World Locals) :
  wp (conclude_iteration this i s actionResult evaluation context decision)
    (fun o m' t =>
       completed t = []
       /\ (forall s', o = Ok (Continue s') ->
           terminationReason (locals m') = terminationReason (locals m))) m.
Proof.
  unfold conclude_iteration.
  repeat wp_step; locals_simpl; track; (split; [reflexivity |]);
    intros s' [=]; reflexivity.
Qed.

Lemma iteration_continue startTime i s (m : Machine World Locals) :
  wp (iteration env this startTime i s)
    (fun o m' t =>
       forall s', o = Ok (Continue s') ->
         List.length (completed t) = 1%nat
         /\ terminationReason (locals m') = terminationReason (locals m)) m.
Proof.
  unfold iteration, timeout_reached, perform_iteration.
  repeat wp_step;
    try (eapply wp_mono; [apply conclude_iteration_continue |];
         cbn beta; intros oc mc tc [Hc Hr]);
    intros s' Hs'; try discriminate Hs';
    locals_simpl; track; rewrite ?Hc; cbn [List.length app];
    (split; [reflexivity | apply (Hr s' Hs')]).
Qed.

Lemma prepare_head input (m0 m : Machine World Locals) s (t : list Obs) :
  locals m0 = initial_locals ->
  prepare this input m0 = (Ok s, m, t) ->
  history (locals m) = [] /\ completed t = []
  /\ terminationReason (locals m) = MaxIterations.
Proof.
  intros Hm0 Hprep.
  refine (wp_elim _ (fun o m t => forall s, o = Ok s -> _) _ _ _ _ _ Hprep s eq_refl).
  unfold prepare.
  repeat wp_step; intros s0 Hs0; try discriminate Hs0;
    locals_simpl; track; rewrite Hm0; repeat split.
Qed.

(** At the loop head of index [i], exactly [i] iterations are completed and
    recorded, and no termination reason is set yet. *)
Lemma loop_head_invariant startTime input m0 i s (m : Machine World Locals) (t : list Obs) :
  loop_head env this startTime input m0 i s m t ->
  0 <= i
  /\ history (locals m) = completed t
  /\ Z.of_nat (List.length (completed t)) = i
  /\ terminationReason (locals m) = MaxIterations.
Proof.
  induction 1 as [s m t Hm Hprep | i s m t s' m' t' Hhead IH Hi Hpass].
  - destruct (prepare_head input m0 m s t Hm Hprep) as (Hh & Hc & Hr).
    rewrite Hh, Hc. repeat split; [lia | exact Hr].
  - destruct IH as (H0 & Hh & Hl & Hr).
    pose proof (wp_elim _ _ _ _ _ _ (iteration_tracked startTime i s m) Hpass)
      as (Hh' & _).
    pose proof (wp_elim _ _ _ _ _ _ (iteration_continue startTime i s m) Hpass s' eq_refl)
      as (Hone & Hr').
    rewrite completed_app, Hh', Hh, length_app, Hone, Hr', Hr.
    repeat split; lia.
Qed.

Lemma run_from_timeout startTime i s (m : Machine World Locals) limit :
  i < maxIterations (config this) ->
  timeout (config this) = Some limit ->
  JS.truthy limit = true ->
  JS.gt (num (timeout_check_reading env (world m) - startTime)) limit = true ->
  wp (run_from env this startTime i s)
    (fun o _ t =>
       (forall x, In x t ->
          is_notice x = true
          \/ (exists h out, x = Call (CFinalize s h out))
          \/ (exists r, x = Emit (EvComplete r)))
       /\ (forall r, o = Ok r ->
           r_terminationReason r = Timeout
           /\ r_history r = history (locals m)
           /\ r_iterations r = Z.of_nat (List.length (history (locals m))))
       /\ (logger_total (config this) ->
           forall e, o = Throw e -> exists h, In (Call (CFinalize s h (Throw e))) t)) m.
Proof.
  intros Hi Hlimit Htruthy Hexpired.
  unfold run_from. rewrite (slots_from_lt i Hi). cbn [loop].
  unfold iteration, timeout_reached. rewrite Hlimit, Htruthy.
  apply wp_bind. apply wp_bind. apply wp_bind.
  apply wp_now. intros z w Hz. cbn [locals world].
  apply wp_bind. apply wp_bind.
  apply wp_now. intros z0 w0 Hz0. cbn [locals world].
  apply wp_ret.
  assert (Hgt : JS.gt (num (z0 - startTime)) limit = true).
  { unfold timeout_check_reading in Hexpired.
    rewrite Hz in Hexpired. cbn [snd] in Hexpired. cbn [world] in Hz0.
    rewrite Hz0 in Hexpired. exact Hexpired. }
  rewrite Hgt. unfold complete.
  repeat wp_step; locals_simpl;
    (split;
     [ let x := fresh "x" in
       let Hin := fresh "Hin" in
       intros x Hin; in_cases Hin;
       first
         [ left; match goal with
                 | H : notices ?t |- _ =>
                     match type of Hin with In _ t => exact (In_notices t _ H Hin) end
                 end
         | right; left; subst; do 2 eexists; reflexivity
         | right; right; subst; eexists; reflexivity ]
     | split;
       [ let r := fresh "r" in
         let Hr := fresh "Hr" in
         intros r Hr; first [discriminate Hr | injection Hr as <-; repeat split]
       | let Htotal := fresh "Htotal" in
         let e := fresh "e" in
         let He := fresh "He" in
         intros Htotal e He;
         first
           [ discriminate He
           | logger_returns Htotal
           | injection He as <-; eexists;
             repeat first [apply in_eq | apply in_cons | apply in_or_app; right] ] ] ]).
Qed.


(** ** The iterations of a run, counted *)

Lemma wp_and {L A : Type} (c : M Input State ActionData Result World L A)
    (Q1 Q2 : Post L A) m :
  wp c Q1 m -> wp c Q2 m -> wp c (fun o m' t => Q1 o m' t /\ Q2 o m' t) m.
Proof. unfold wp. destruct (c m) as [[o m'] t]. intros H1 H2. split; assumption. Qed.

Lemma act_calls_app (t1 t2 : list Obs) :
  act_calls (t1 ++ t2) = (act_calls t1 + act_calls t2)%nat.
Proof.
  induction t1 as [| o t1 IH]; [reflexivity |].
  cbn [app act_calls]. rewrite IH.
  destruct o as [| | | | | | []]; reflexivity.
Qed.

Lemma notices_act_calls (t : list Obs) : notices t -> act_calls t = 0%nat.
Proof.
  induction 1 as [| o t Ho _ IH]; [reflexivity |].
  destruct o; try discriminate Ho; exact IH.
Qed.

(** Count the calls of [act] and the completed iterations of a trace built
    by appending. *)
Ltac census :=
  repeat first
    [ rewrite act_calls_app
    | rewrite completed_app
    | progress cbn [act_calls completed app Nat.add]
    | match goal with
      | H : notices ?t |- context [act_calls ?t] => rewrite (notices_act_calls t H)
      | H : notices ?t |- context [completed ?t] => rewrite (notices_completed t H)
      end ].

Lemma conclude_iteration_census i s actionResult evaluation context decision
    (m : Machine World Locals) :
  wp (conclude_iteration this i s actionResult evaluation context decision)
    (fun _ _ t => act_calls t = 0%nat /\ completed t = []) m.
Proof.
  unfold conclude_iteration. repeat wp_step; census; split; reflexivity.
Qed.

Lemma iteration_census startTime i s (m : Machine World Locals) :
  wp (iteration env this startTime i s)
    (fun _ _ t =>
       (act_calls t = 0%nat /\ completed t = [])
       \/ (act_calls t = 1%nat
           /\ (completed t = []
               \/ exists entry, completed t = [entry] /\ h_iteration entry = i))) m.
Proof.
  unfold iteration, timeout_reached, perform_iteration.
  repeat wp_step;
    try (eapply wp_mono; [apply conclude_iteration_census |];
         cbn beta; intros oc mc tc [Ha Hc]);
    census; rewrite ?Ha, ?Hc;
    first
      [ left; split; reflexivity
      | right; split; [reflexivity |]; left; reflexivity
      | right; split; [reflexivity |]; right; eexists; split; reflexivity ].
Qed.

Lemma counts_from_nil i : counts_from i [].
Proof. intros [| k] x H; discriminate H. Qed.

Lemma counts_from_cons i l : counts_from (i + 1) l -> counts_from i (i :: l).
Proof.
  intros H [| k] x Hx.
  - injection Hx as <-. lia.
  - cbn in Hx. rewrite (H k x Hx). lia.
Qed.

Lemma loop_census slots startTime i s (m : Machine World Locals) :
  wp (loop env this slots startTime i s)
    (fun _ _ t =>
       (act_calls t <= slots)%nat
       /\ (List.length (completed t) <= act_calls t)%nat
       /\ counts_from i (map (fun entry => h_iteration entry) (completed t))) m.
Proof.
  revert i s m. induction slots as [| n IH]; intros i s m; cbn [loop].
  - apply wp_ret. cbn. repeat split; [lia | lia | apply counts_from_nil].
  - apply wp_bind.
    eapply wp_mono;
      [apply (wp_and _ _ _ _ (iteration_census startTime i s m)
                (iteration_continue startTime i s m)) |].
    cbn beta. intros o m1 t1 [Hcensus Hcontinue].
    assert (Hpass : (act_calls t1 <= 1)%nat
                    /\ (List.length (completed t1) <= act_calls t1)%nat
                    /\ counts_from i (map (fun entry => h_iteration entry) (completed t1))).
    { destruct Hcensus as [[-> ->] | [-> [-> | (entry & -> & Hi)]]]; cbn.
      - repeat split; [lia | lia | apply counts_from_nil].
      - repeat split; [lia | lia | apply counts_from_nil].
      - repeat split; [lia | lia |]. rewrite Hi.
        apply counts_from_cons, counts_from_nil. }
    destruct o as [[s' | s'] | e].
    + eapply wp_mono; [apply (IH (i + 1) s' m1) |].
      cbn beta. intros _ _ t2 (Ha2 & Hc2 & Hn2).
      destruct (Hcontinue s' eq_refl) as [Hone _].
      destruct Hcensus as [[_ Hnone] | [Hact [Hnone | (entry & Hentry & Hi)]]];
        try (rewrite Hnone in Hone; discriminate Hone).
      census. rewrite Hact, Hentry. cbn [map app List.length].
      repeat split; [lia | lia |]. rewrite Hi. apply counts_from_cons. exact Hn2.
    + apply wp_ret. rewrite app_nil_r.
      destruct Hpass as (Ha & Hc & Hn). repeat split; [lia | exact Hc | exact Hn].
    + destruct Hpass as (Ha & Hc & Hn). repeat split; [lia | exact Hc | exact Hn].
Qed.

Lemma complete_census startTime s (m : Machine World Locals) :
  wp (complete env this startTime s)
    (fun o m' t =>
       act_calls t = 0%nat /\ completed t = []
       /\ history (locals m') = history (locals m)
       /\ forall r, o = Ok r ->
            r_history r = history (locals m)
            /\ r_iterations r = Z.of_nat (List.length (history (locals m)))
            /\ r_totalCost r = total_cost env (history (locals m))) m.
Proof.
  unfold complete.
  repeat wp_step; census; locals_simpl;
    (split; [reflexivity |]); (split; [reflexivity |]); (split; [reflexivity |]);
    intros r [=]; subst r; repeat split.
Qed.

Lemma run_catch_census startTime error (m : Machine World Locals) :
  wp (run_catch env this startTime error)
    (fun o m' t =>
       act_calls t = 0%nat /\ completed t = []
       /\ forall r, o = Ok r ->
            r_history r = history (locals m)
            /\ r_iterations r = Z.of_nat (List.length (history (locals m)))
            /\ r_totalCost r = total_cost env (history (locals m))) m.
Proof.
  unfold run_catch.
  repeat wp_step; census; locals_simpl;
    (split; [reflexivity |]); (split; [reflexivity |]);
    intros r [=]; subst r; repeat split.
Qed.

(** Nothing is counted before the loop is entered. *)
Ltac census_nil :=
  cbn;
  split; [lia |]; split; [lia |]; split; [apply counts_from_nil |];
  try (split; [reflexivity |]);
  let r := fresh "r" in
  let Hr := fresh "Hr" in
  intros r Hr; discriminate Hr.

Lemma run_try_census startTime input (m : Machine World Locals) :
  locals m = initial_locals ->
  wp (run_try env this startTime input)
    (fun o m' t =>
       (act_calls t <= slots_from this 0)%nat
       /\ (List.length (completed t) <= act_calls t)%nat
       /\ counts_from 0 (map (fun entry => h_iteration entry) (completed t))
       /\ history (locals m') = completed t
       /\ forall r, o = Ok r ->
            r_history r = completed t
            /\ r_iterations r = Z.of_nat (List.length (completed t))
            /\ r_totalCost r = total_cost env (completed t)) m.
Proof.
  intros Hm. unfold run_try, prepare, run_from.
  repeat wp_step; census; locals_simpl; rewrite ?Hm;
    try census_nil.
  eapply wp_mono;
    [apply (wp_and _ _ _ _ (loop_census _ _ _ _ _) (loop_tracked _ _ _ _ _)) |].
  cbn beta. intros [s' | e] ml tl [(Ha & Hc & Hn) (Hh & _)];
    locals_simpl; rewrite ?Hm in Hh; cbn [initial_locals history app] in Hh.
  - eapply wp_mono; [apply complete_census |].
    cbn beta. intros oc mc tc (Ha' & Hc' & Hh' & Hr).
    census. rewrite Ha', Hc', Hh', Hh, Nat.add_0_r, app_nil_r.
    split; [exact Ha |]. split; [exact Hc |]. split; [exact Hn |].
    split; [reflexivity |].
    intros r0 Hr0. rewrite <- Hh. exact (Hr r0 Hr0).
  - census. rewrite Hh.
    split; [exact Ha |]. split; [exact Hc |]. split; [exact Hn |].
    split; [reflexivity |]. intros r0 Hr0. discriminate Hr0.
Qed.

(** What a run shows and yields, counted: the calls of [act] are at most
    the slots of the loop, every completed iteration had its call, the
    completed iterations are numbered from 0, and the history of the result
    is the one of the completed iterations. *)
Lemma run_census input (m : Machine World Locals) :
  wp (run env this input)
    (fun o _ t =>
       (act_calls t <= slots_from this 0)%nat
       /\ (List.length (completed t) <= act_calls t)%nat
       /\ counts_from 0 (map (fun entry => h_iteration entry) (completed t))
       /\ forall r, o = Ok r ->
            r_history r = completed t
            /\ r_iterations r = Z.of_nat (List.length (completed t))
            /\ r_totalCost r = total_cost env (completed t)) m.
Proof.
  unfold run.
  repeat wp_step; census;
    try census_nil.
  eapply wp_mono; [apply run_try_census; reflexivity |].
  cbn beta. intros [r | e] mt tt (Ha & Hc & Hn & Hh & Hr).
  - census.
    split; [exact Ha |]. split; [exact Hc |]. split; [exact Hn |].
    intros r0 Hr0. exact (Hr r0 Hr0).
  - eapply wp_mono; [apply run_catch_census |].
    cbn beta. intros oc mc tc (Ha' & Hc' & Hr').
    census. rewrite Ha', Hc', Nat.add_0_r, app_nil_r.
    split; [exact Ha |]. split; [exact Hc |]. split; [exact Hn |].
    intros r0 Hr0. rewrite <- Hh. exact (Hr' r0 Hr0).
Qed.


(** X1: A run calls [act] at most [maxIterations] times (never, when
    [maxIterations] is 0 or less), and an iteration is recorded only after
    its call of [act].  When the run resolves, normally or through
    [onError], the history of the result is the list of the entries announced
    by the [iteration_complete] events, [iterations] is its length, and
    [iterations] is at most [maxIterations]. *)
Theorem run_iterations_bounded (input : Input) (w : World) :
  let t := snd (run_in env this input w) in
  (act_calls t <= Z.to_nat (maxIterations (config this)))%nat
  /\ (List.length (completed t) <= act_calls t)%nat
  /\ forall r, fst (fst (run_in env this input w)) = Ok r ->
       r_history r = completed t
       /\ r_iterations r = Z.of_nat (List.length (r_history r))
       /\ 0 <= r_iterations r <= Z.max 0 (maxIterations (config this)).
Proof.
  cbv zeta. unfold run_in.
  pose proof (run_census input (mkMachine w initial_locals)) as H. unfold wp in H.
  destruct (run env this input (mkMachine w initial_locals)) as [[o m'] t].
  cbn [fst snd]. destruct H as (Ha & Hc & _ & Hr).
  unfold slots_from in Ha. rewrite Z.sub_0_r in Ha.
  split; [exact Ha |]. split; [exact Hc |].
  intros r Hok. destruct (Hr r Hok) as (Hh & Hi & _).
  rewrite Hh, Hi. split; [reflexivity |]. split; [reflexivity | lia].
Qed.

(** X2: The entries of the history are numbered from 0: in the history of
    the result of a run, and among the entries announced by the
    [iteration_complete] events of any run, the entry at position [k] has
    [iteration = k]. *)
Theorem history_numbered (input : Input) (w : World) :
  counts_from 0
    (map (fun entry => h_iteration entry) (completed (snd (run_in env this input w))))
  /\ forall r k entry,
      fst (fst (run_in env this input w)) = Ok r ->
      nth_error (r_history r) k = Some entry -> h_iteration entry = Z.of_nat k.
Proof.
  unfold run_in.
  pose proof (run_census input (mkMachine w initial_locals)) as H. unfold wp in H.
  destruct (run env this input (mkMachine w initial_locals)) as [[o m'] t].
  cbn [fst snd]. destruct H as (_ & _ & Hn & Hr).
  split; [exact Hn |].
  intros r k entry Hok Hk. destruct (Hr r Hok) as (Hh & _).
  rewrite Hh in Hk.
  apply (Hn k (h_iteration entry)).
  rewrite nth_error_map, Hk. reflexivity.
Qed.

Lemma total_cost_is_calculateTotalCost (h : list (IterationHistory ActionData)) :
  total_cost env h = calculateTotalCost (add env) h.
Proof.
  unfold total_cost, calculateTotalCost.
  assert (H : forall acc,
             fold_left (fun sum entry => add env sum (cost_of entry)) h acc
             = fold_left
                 (fun sum entry =>
                    add env sum (metadata_field (h_actionResult entry) cost ?? num 0))
                 h acc).
  { induction h as [| entry h IH]; intros acc; [reflexivity |].
    cbn [fold_left]. rewrite IH. f_equal. f_equal.
    unfold cost_of, metadata_field.
    destruct (ar_metadata (h_actionResult entry)); reflexivity. }
  apply H.
Qed.

(** X3: Whenever a run resolves, normally or through [onError], the
    [totalCost] of its result is what [calculateTotalCost] computes from the
    [history] of the result. *)
Theorem totalCost_is_calculateTotalCost (input : Input) (w : World) :
  match fst (fst (run_in env this input w)) with
  | Ok r => r_totalCost r = calculateTotalCost (add env) (r_history r)
  | Throw _ => True
  end.
Proof.
  unfold run_in.
  pose proof (run_census input (mkMachine w initial_locals)) as H. unfold wp in H.
  destruct (run env this input (mkMachine w initial_locals)) as [[[r | e] m'] t];
    cbn [fst snd]; [| exact I].
  destruct H as (_ & _ & _ & Hr). destruct (Hr r eq_refl) as (Hh & _ & Hcost).
  rewrite Hcost, Hh. apply total_cost_is_calculateTotalCost.
Qed.

(** ** The termination reason, explained *)

Lemma termination_decision_explained (custom : bool) (evaluation : Evaluation) (i : Z) :
  let decision := termination_decision (config this) custom evaluation i in
  fst decision = true ->
  match snd decision with
  | ManualStop => custom = true
  | EarlyStop => JS.ge (score evaluation) (earlyStopScore (config this)) = true
  | Converged =>
      shouldContinue evaluation = false
      \/ (JS.ge (score evaluation) (targetScore (config this)) = true
          /\ (i >= minIterations (config this) - 1
              \/ skipMinIterations (config this) = true))
  | MaxIterations | Timeout => False
  end.
Proof.
  cbv zeta. unfold termination_decision, termination_rules. cbn [find fst].
  destruct custom; cbn [fst snd]; [intros _; reflexivity |].
  destruct (JS.ge (score evaluation) (earlyStopScore (config this)));
    cbn [fst snd]; [intros _; reflexivity |].
  destruct (shouldContinue evaluation); cbn [negb fst snd];
    [| intros _; left; reflexivity].
  destruct (JS.ge (score evaluation) (targetScore (config this))); cbn [andb fst snd];
    [| intros H; discriminate H].
  destruct (Z.geb_spec i (minIterations (config this) - 1)) as [Hi | Hi];
    cbn [orb fst snd].
  - intros _. right. split; [reflexivity |]. left. lia.
  - destruct (skipMinIterations (config this)); cbn [fst snd];
      [| intros H; discriminate H].
    intros _. right. split; [reflexivity |]. right. reflexivity.
Qed.

Lemma conclude_iteration_reason i s actionResult evaluation context decision
    (m : Machine World Locals) :
  wp (conclude_iteration this i s actionResult evaluation context decision)
    (fun o m' _ =>
       history (locals m') = history (locals m)
       /\ finalEvaluation (locals m') = finalEvaluation (locals m)
       /\ match o with
          | Ok (Continue _) =>
              fst decision = false
              /\ terminationReason (locals m') = terminationReason (locals m)
          | Ok (Break _) =>
              fst decision = true /\ terminationReason (locals m') = snd decision
          | Throw _ => True
          end) m.
Proof.
  unfold conclude_iteration.
  repeat wp_step; locals_simpl; repeat split; assumption.
Qed.

(** The pass that recorded [entry] and then concluded as [oc] on the
    decision of the termination evaluator. *)
Lemma decision_explained (l l' : Locals) (i : Z) (entry : IterationHistory ActionData)
    (custom : bool) (oc : outcome (LoopControl State)) :
  at_head l i ->
  (custom = true -> shouldTerminate (options this) <> None) ->
  history l' = history l ++ [entry] ->
  finalEvaluation l' = h_evaluation entry ->
  match oc with
  | Ok (Continue _) =>
      fst (termination_decision (config this) custom (h_evaluation entry) i) = false
      /\ terminationReason l' = terminationReason l
  | Ok (Break _) =>
      fst (termination_decision (config this) custom (h_evaluation entry) i) = true
      /\ terminationReason l'
         = snd (termination_decision (config this) custom (h_evaluation entry) i)
  | Throw _ => True
  end ->
  match oc with
  | Ok (Continue _) => at_head l' (i + 1)
  | Ok (Break _) => break_explained this l'
  | Throw _ => True
  end.
Proof.
  intros [Hreason Hlen] Hcustom Hh Hf Hoc.
  assert (Hlen' : Z.of_nat (List.length (history l')) = i + 1).
  { rewrite Hh, length_app. cbn [List.length]. lia. }
  destruct oc as [[s' | s'] | e]; [| | exact I].
  - destruct Hoc as [_ Hkeep]. split; [congruence | exact Hlen'].
  - destruct Hoc as [Hfst Hsnd].
    pose proof (termination_decision_explained custom (h_evaluation entry) i Hfst) as H.
    unfold break_explained. rewrite Hsnd, Hf.
    destruct (snd (termination_decision (config this) custom (h_evaluation entry) i)).
    + split; [rewrite Hh; apply last_evaluation_snoc |].
      destruct H as [H | [Ht Hmin]]; [left; exact H | right].
      split; [exact Ht |]. destruct Hmin as [Hmin | Hskip]; [left; lia | right; exact Hskip].
    + exact H.
    + exact H.
    + destruct H.
    + exact (Hcustom H).
Qed.

Lemma iteration_reason startTime i s (m : Machine World Locals) :
  at_head (locals m) i ->
  i < maxIterations (config this) ->
  wp (iteration env this startTime i s)
    (fun o m' _ =>
       match o with
       | Ok (Continue _) => at_head (locals m') (i + 1)
       | Ok (Break _) => break_explained this (locals m')
       | Throw _ => True
       end) m.
Proof.
  intros Hhead Hi. unfold iteration, timeout_reached, perform_iteration.
  repeat wp_step; try exact I;
    try (eapply wp_mono; [apply conclude_iteration_reason |];
         cbn beta; intros oc mc tc (Hh & Hf & Hoc); locals_simpl;
         eapply (decision_explained (locals m) (locals mc) i _ _ oc Hhead);
         [ | exact Hh | exact Hf | exact Hoc ];
         first [ intros Hc; discriminate Hc | intros _; congruence ]).
  unfold break_explained. locals_simpl.
  destruct Hhead as [_ Hlen].
  eexists. split; [eassumption |]. split; [assumption | lia].
Qed.

Lemma loop_reason slots startTime i s (m : Machine World Locals) :
  at_head (locals m) i ->
  Z.of_nat slots = Z.max 0 (maxIterations (config this) - i) ->
  wp (loop env this slots startTime i s)
    (fun o m' _ =>
       forall s', o = Ok s' ->
         at_head (locals m') (Z.max i (maxIterations (config this)))
         \/ break_explained this (locals m')) m.
Proof.
  revert i s m. induction slots as [| n IH]; intros i s m Hhead Hslots; cbn [loop].
  - apply wp_ret. intros _ _. left.
    replace (Z.max i (maxIterations (config this))) with i by lia. exact Hhead.
  - apply wp_bind.
    eapply wp_mono; [apply (iteration_reason startTime i s m Hhead); lia |].
    cbn beta. intros [[s' | s'] | e] m1 t1 H1.
    + eapply wp_mono; [apply (IH (i + 1) s' m1 H1); lia |].
      cbn beta. intros o2 m2 _ H2 s2 Hs2.
      replace (Z.max i (maxIterations (config this)))
        with (Z.max (i + 1) (maxIterations (config this))) by lia.
      exact (H2 s2 Hs2).
    + apply wp_ret. intros _ _. right. exact H1.
    + intros s' Hs'. discriminate Hs'.
Qed.

Lemma complete_reason startTime s (m : Machine World Locals) :
  at_head (locals m) (Z.max 0 (maxIterations (config this)))
  \/ break_explained this (locals m) ->
  wp (complete env this startTime s)
    (fun o _ _ => forall r, o = Ok r -> reason_explained this r) m.
Proof.
  intros Hm. unfold complete.
  repeat wp_step; intros r Hr; try discriminate Hr.
  injection Hr as <-. unfold reason_explained. cbn.
  destruct Hm as [[Hreason Hlen] | Hbreak].
  - rewrite Hreason. exact Hlen.
  - unfold break_explained in Hbreak.
    destruct (terminationReason (locals m)).
    + destruct Hbreak as [Hlast Hwhy]. eexists. split; [exact Hlast | exact Hwhy].
    + exact Hbreak.
    + destruct Hbreak.
    + exact Hbreak.
    + left. exact Hbreak.
Qed.

Lemma run_try_reason startTime input (m : Machine World Locals) :
  locals m = initial_locals ->
  wp (run_try env this startTime input)
    (fun o _ _ => forall r, o = Ok r -> reason_explained this r) m.
Proof.
  intros Hm. unfold run_try, prepare, run_from.
  repeat wp_step; try (intros r Hr; discriminate Hr).
  eapply wp_mono.
  - apply loop_reason.
    + locals_simpl. rewrite Hm. split; reflexivity.
    + unfold slots_from. lia.
  - cbn beta. intros [s' | e] ml tl Hl; [| intros r Hr; discriminate Hr].
    apply complete_reason. exact (Hl s' eq_refl).
Qed.


(** ** What the loop shows *)

Lemma notices_loop_observations (t : list Obs) :
  notices t -> Forall (fun o => is_loop_observation o = true) t.
Proof.
  intros Hn. eapply Forall_impl; [| exact Hn]. cbn beta.
  intros o Ho. destruct o; try discriminate Ho; reflexivity.
Qed.

(** Every observation of a trace built by appending is one of the loop. *)
Ltac vocabulary :=
  repeat first
    [ apply Forall_nil
    | apply Forall_cons; [reflexivity |]
    | apply Forall_app; split
    | assumption
    | match goal with
      | H : notices ?t |- Forall _ ?t => exact (notices_loop_observations t H)
      end ].

Lemma conclude_iteration_vocabulary i s actionResult evaluation context decision
    (m : Machine World Locals) :
  wp (conclude_iteration this i s actionResult evaluation context decision)
    (fun _ _ t => Forall (fun o => is_loop_observation o = true) t) m.
Proof. unfold conclude_iteration. repeat wp_step; vocabulary. Qed.

Lemma iteration_vocabulary startTime i s (m : Machine World Locals) :
  wp (iteration env this startTime i s)
    (fun _ _ t => Forall (fun o => is_loop_observation o = true) t) m.
Proof.
  unfold iteration, timeout_reached, perform_iteration.
  repeat wp_step;
    try (eapply wp_mono; [apply conclude_iteration_vocabulary |];
         cbn beta; intros oc mc tc Hc);
    vocabulary.
Qed.

Lemma loop_vocabulary slots startTime i s (m : Machine World Locals) :
  wp (loop env this slots startTime i s)
    (fun _ _ t => Forall (fun o => is_loop_observation o = true) t) m.
Proof.
  revert i s m. induction slots as [| n IH]; intros i s m; cbn [loop].
  - apply wp_ret. constructor.
  - apply wp_bind. eapply wp_mono; [apply iteration_vocabulary |].
    cbn beta. intros [[s' | s'] | e] m1 t1 H1.
    + eapply wp_mono; [apply IH |]. cbn beta. intros _ _ t2 H2.
      apply Forall_app. split; assumption.
    + apply wp_ret. rewrite app_nil_r. exact H1.
    + exact H1.
Qed.

(** ** The event that ends a run *)

Lemma notices_not_terminal (t : list Obs) : notices t -> filter is_terminal t = [].
Proof.
  induction 1 as [| o t Ho _ IH]; [reflexivity |].
  cbn [filter]. rewrite IH. destruct o; try discriminate Ho; reflexivity.
Qed.

Lemma loop_observations_not_terminal (t : list Obs) :
  Forall (fun o => is_loop_observation o = true) t -> filter is_terminal t = [].
Proof.
  induction 1 as [| o t Ho _ IH]; [reflexivity |].
  cbn [filter]. rewrite IH.
  destruct o as [[] | | | | | | []]; try discriminate Ho; reflexivity.
Qed.

(** The terminal events of a trace built by appending. *)
Ltac terminals :=
  repeat first
    [ rewrite filter_app
    | progress cbn [filter is_terminal app]
    | match goal with
      | H : notices ?t |- context [filter is_terminal ?t] =>
          rewrite (notices_not_terminal t H)
      end ].

Lemma run_try_terminal startTime input (m : Machine World Locals) :
  logger_total (config this) ->
  wp (run_try env this startTime input)
    (fun o _ t =>
       match o with
       | Ok r => filter is_terminal t = [Emit (EvComplete r)]
       | Throw _ => filter is_terminal t = []
       end) m.
Proof.
  intros Htotal. unfold run_try, prepare, run_from.
  repeat wp_step; try logger_returns Htotal; terminals; try reflexivity.
  eapply wp_mono; [apply loop_vocabulary |].
  cbn beta. intros [s' | e] ml tl Hl;
    [| terminals; rewrite (loop_observations_not_terminal tl Hl); reflexivity].
  unfold complete.
  repeat wp_step; try logger_returns Htotal; terminals;
    rewrite ?(loop_observations_not_terminal tl Hl); reflexivity.
Qed.

Lemma run_catch_terminal startTime error (m : Machine World Locals) :
  logger_total (config this) ->
  wp (run_catch env this startTime error)
    (fun o _ t =>
       (exists e n s, filter is_terminal t = [Emit (EvError e n s)])
       /\ forall r, o = Ok r ->
            onError (options this) <> None /\ r_terminationReason r = ManualStop) m.
Proof.
  intros Htotal. unfold run_catch.
  repeat wp_step; try logger_returns Htotal; terminals;
    (split; [do 3 eexists; reflexivity |]);
    intros r Hr; try discriminate Hr;
    injection Hr as <-; split; [discriminate | reflexivity].
Qed.

(** X5: With a logger whose functions return (or none), every run shows
    [start] first and then exactly one of [complete] and [error], once.
    [complete] carries the result the run resolves with.  After [error] the
    run rejects, or resolves with the [manual_stop] result of [onError]. *)
Theorem run_ends_with_one_event (input : Input) (w : World) :
  logger_total (config this) ->
  exists rest,
    snd (run_in env this input w) = Emit (EvStart input) :: rest
    /\ match fst (fst (run_in env this input w)) with
       | Ok r =>
           filter is_terminal rest = [Emit (EvComplete r)]
           \/ ((exists e n s, filter is_terminal rest = [Emit (EvError e n s)])
               /\ onError (options this) <> None
               /\ r_terminationReason r = ManualStop)
       | Throw _ => exists e n s, filter is_terminal rest = [Emit (EvError e n s)]
       end.
Proof.
  intros Htotal. unfold run_in.
  assert (H : wp (run env this input)
                (fun o _ t =>
                   exists rest,
                     t = Emit (EvStart input) :: rest
                     /\ match o with
                        | Ok r =>
                            filter is_terminal rest = [Emit (EvComplete r)]
                            \/ ((exists e n s,
                                    filter is_terminal rest = [Emit (EvError e n s)])
                                /\ onError (options this) <> None
                                /\ r_terminationReason r = ManualStop)
                        | Throw _ =>
                            exists e n s, filter is_terminal rest = [Emit (EvError e n s)]
                        end)
                (mkMachine w initial_locals)).
  { unfold run. repeat wp_step; try logger_returns Htotal.
    eapply wp_mono; [apply (run_try_terminal _ _ _ Htotal) |].
    cbn beta. intros [r | e] mt tt Htry.
    - eexists. split; [reflexivity |]. left. terminals. rewrite Htry. reflexivity.
    - eapply wp_mono; [apply (run_catch_terminal _ _ _ Htotal) |].
      cbn beta. intros oc mc tc [(e' & n & s & Hc) Hr].
      eexists. split; [reflexivity |]. terminals. rewrite Htry, Hc. cbn [app].
      destruct oc as [r | e2].
      + right. split; [do 3 eexists; reflexivity | exact (Hr r eq_refl)].
      + do 3 eexists; reflexivity. }
  unfold wp in H.
  destruct (run env this input (mkMachine w initial_locals)) as [[o m'] t].
  cbn [fst snd]. exact H.
Qed.

(** ** What finalize receives *)

Lemma conclude_iteration_state i s actionResult evaluation context decision
    (m : Machine World Locals) :
  state (locals m) = Some s ->
  wp (conclude_iteration this i s actionResult evaluation context decision)
    (fun o m' _ =>
       match o with
       | Ok (Continue s') | Ok (Break s') => state (locals m') = Some s'
       | Throw _ => True
       end) m.
Proof.
  intros Hs. unfold conclude_iteration.
  repeat wp_step; locals_simpl; first [exact I | exact Hs | reflexivity].
Qed.

Lemma iteration_state startTime i s (m : Machine World Locals) :
  state (locals m) = Some s ->
  wp (iteration env this startTime i s)
    (fun o m' _ =>
       match o with
       | Ok (Continue s') | Ok (Break s') => state (locals m') = Some s'
       | Throw _ => True
       end) m.
Proof.
  intros Hs. unfold iteration, timeout_reached, perform_iteration.
  repeat wp_step;
    try (apply conclude_iteration_state);
    locals_simpl; first [exact I | exact Hs].
Qed.

Lemma loop_state slots startTime i s (m : Machine World Locals) :
  state (locals m) = Some s ->
  wp (loop env this slots startTime i s)
    (fun o m' _ => forall s', o = Ok s' -> state (locals m') = Some s') m.
Proof.
  revert i s m. induction slots as [| n IH]; intros i s m Hs; cbn [loop].
  - apply wp_ret. intros s' [= <-]. exact Hs.
  - apply wp_bind. eapply wp_mono; [apply (iteration_state startTime i s m Hs) |].
    cbn beta. intros [[s' | s'] | e] m1 t1 H1.
    + eapply wp_mono; [apply (IH (i + 1) s' m1 H1) |].
      cbn beta. intros o2 m2 _ H2. exact H2.
    + apply wp_ret. intros s2 [= <-]. exact H1.
    + intros s' Hs'. discriminate Hs'.
Qed.

Lemma notices_not_finalize (t : list Obs) :
  notices t -> Forall (fun x => is_finalize x = false) t.
Proof.
  intros Hn. eapply Forall_impl; [| exact Hn]. cbn beta.
  intros o Ho. destruct o; try discriminate Ho; reflexivity.
Qed.

Lemma loop_observations_not_finalize (t : list Obs) :
  Forall (fun o => is_loop_observation o = true) t ->
  Forall (fun x => is_finalize x = false) t.
Proof.
  intros H. eapply Forall_impl; [| exact H]. cbn beta.
  intros o Ho. destruct o as [| | | | | | []]; try discriminate Ho; reflexivity.
Qed.

Lemma not_finalize_In (t : list Obs) s h out :
  Forall (fun x => is_finalize x = false) t -> ~ In (Call (CFinalize s h out)) t.
Proof.
  intros H Hin. pose proof (proj1 (Forall_forall _ t) H _ Hin) as Hx. discriminate Hx.
Qed.

(** No observation of a trace built by appending is a call of [finalize]. *)
Ltac no_finalize :=
  repeat first
    [ apply Forall_nil
    | apply Forall_cons; [reflexivity |]
    | apply Forall_app; split
    | assumption
    | match goal with
      | H : notices ?t |- Forall _ ?t => exact (notices_not_finalize t H)
      | H : Forall (fun o => is_loop_observation o = true) ?t |- Forall _ ?t =>
          exact (loop_observations_not_finalize t H)
      end ].

Lemma complete_finalize startTime s (m : Machine World Locals) :
  wp (complete env this startTime s)
    (fun o _ t =>
       exists out rest,
         t = Call (CFinalize s (history (locals m)) out) :: rest
         /\ Forall (fun x => is_finalize x = false) rest
         /\ completed rest = []
         /\ (forall s0, known_state s0 rest = s0)
         /\ (logger_total (config this) ->
             forall result, out = Ok result ->
               exists r,
                 o = Ok r /\ r_result r = result /\ r_history r = history (locals m))) m.
Proof.
  unfold complete.
  repeat wp_step; cbn [app];
    (do 2 eexists; split; [reflexivity |]);
    (split; [no_finalize |]);
    (split; [track; reflexivity |]);
    (split; [intros s0; track; reflexivity |]);
    intros Htotal result Hout; try logger_returns Htotal; try discriminate Hout;
    injection Hout as <-; eexists; repeat split.
Qed.

Lemma run_catch_finalize startTime error (m : Machine World Locals) :
  wp (run_catch env this startTime error)
    (fun _ _ t =>
       Forall (fun x => is_finalize x = false) t
       /\ completed t = []
       /\ forall s0, known_state s0 t = s0) m.
Proof.
  unfold run_catch.
  repeat wp_step;
    (split; [no_finalize |]);
    (split; [track; reflexivity |]);
    intros s0; track; reflexivity.
Qed.

Lemma run_try_finalize startTime input (m : Machine World Locals) :
  locals m = initial_locals ->
  wp (run_try env this startTime input)
    (fun o _ t =>
       forall s h out,
         In (Call (CFinalize s h out)) t ->
         h = completed t
         /\ known_state None t = Some s
         /\ (logger_total (config this) ->
             forall result, out = Ok result ->
               exists r, o = Ok r /\ r_result r = result /\ r_history r = h)) m.
Proof.
  intros Hm. unfold run_try, prepare, run_from.
  repeat wp_step;
    try (intros s0 h0 out0 Hin; exfalso; in_cases Hin;
         first [discriminate Hin | not_a_notice Hin]).
  match goal with
  | |- wp (loop _ _ _ _ _ ?s0) _ ?m0 =>
      assert (Hs0 : state (locals m0) = Some s0) by reflexivity;
      eapply wp_mono;
      [ apply (wp_and _ _ _ _
                 (wp_and _ _ _ _ (loop_vocabulary _ _ _ s0 m0) (loop_tracked _ _ _ s0 m0))
                 (loop_state _ _ _ s0 m0 Hs0)) |]
  end.
  cbn beta. intros [s' | e] ml tl [[Hv (Hh & Hst & _)] Hs'];
    locals_simpl; rewrite Hm in Hh; cbn [initial_locals history app] in Hh.
  - eapply wp_mono; [apply complete_finalize |].
    cbn beta. intros oc mc tc (out & rest & -> & Hrest & Hcr & Hkr & Hres).
    intros s1 h1 out1 Hin. in_cases Hin;
      try discriminate Hin; try not_a_notice Hin;
      try (exfalso; eapply not_finalize_In; [| exact Hin]; no_finalize).
    injection Hin as <- <- <-.
    track. rewrite Hcr, Hkr, app_nil_r, <- Hst, (Hs' s' eq_refl).
    split; [exact Hh |]. split; [reflexivity |]. exact Hres.
  - intros s1 h1 out1 Hin. exfalso. in_cases Hin;
      try discriminate Hin; try not_a_notice Hin.
    eapply not_finalize_In; [| exact Hin]. no_finalize.
Qed.

(** X6: Whenever [finalize] is called in a run, it is called with the
    history of the completed iterations of the whole run, the one announced
    by the [iteration_complete] events, and with the state that [initialize]
    or the last [transition] of the run returned: no iteration is recorded
    and no state is made after the call.  With a logger whose functions
    return (or none), when [finalize] returns the run resolves with that
    value as [result] and that history. *)
Theorem finalize_receives (input : Input) (w : World) (s : State)
    (h : list (IterationHistory ActionData)) (out : outcome Result) :
  In (Call (CFinalize s h out)) (snd (run_in env this input w)) ->
  h = completed (snd (run_in env this input w))
  /\ known_state None (snd (run_in env this input w)) = Some s
  /\ (logger_total (config this) ->
      forall result, out = Ok result ->
        exists r,
          fst (fst (run_in env this input w)) = Ok r
          /\ r_result r = result /\ r_history r = h).
Proof.
  unfold run_in.
  assert (H : wp (run env this input)
                (fun o _ t =>
                   forall s h out,
                     In (Call (CFinalize s h out)) t ->
                     h = completed t
                     /\ known_state None t = Some s
                     /\ (logger_total (config this) ->
                         forall result, out = Ok result ->
                           exists r, o = Ok r /\ r_result r = result /\ r_history r = h))
                (mkMachine w initial_locals)).
  { unfold run.
    repeat wp_step;
      try (intros s0 h0 out0 Hin; exfalso; in_cases Hin;
           first [discriminate Hin | not_a_notice Hin]).
    eapply wp_mono; [apply run_try_finalize; reflexivity |].
    cbn beta. intros [r | e] mt tt Htry.
    - intros s0 h0 out0 Hin. in_cases Hin;
        try discriminate Hin; try not_a_notice Hin.
      destruct (Htry s0 h0 out0 Hin) as (Hh & Hk & Hres).
      track. split; [exact Hh |]. split; [exact Hk | exact Hres].
    - eapply wp_mono; [apply run_catch_finalize |].
      cbn beta. intros oc mc tc (Hnf & Hcc & Hkc) s0 h0 out0 Hin.
      in_cases Hin; try discriminate Hin; try not_a_notice Hin;
        try (exfalso; exact (not_finalize_In tc _ _ _ Hnf Hin)).
      destruct (Htry s0 h0 out0 Hin) as (Hh & Hk & Hres).
      track. rewrite Hcc, Hkc, app_nil_r.
      split; [exact Hh |]. split; [exact Hk |].
      intros Htotal result Hout.
      destruct (Hres Htotal result Hout) as (r & Hr & _). discriminate Hr. }
  unfold wp in H.
  destruct (run env this input (mkMachine w initial_locals)) as [[o m'] t].
  cbn [fst snd]. apply H.
Qed.

(** ** The log of a run that is not verbose *)

Lemma error_sink_unlogged (e : thrown) :
  is_log (error_sink (config this) e : Obs) = false.
Proof. unfold error_sink. destruct (logger (config this)); reflexivity. Qed.

Lemma notify_unlogged {L : Type} ls k ev (m : Machine World L) :
  exists o w t,
    notify this ls k ev m = (o, mkMachine w (locals m), t)
    /\ Forall (fun x : Obs => is_log x = false) t.
Proof.
  revert k m. induction ls as [| l rest IH]; intros k m.
  - exists (Ok tt), (world m), []. destruct m. split; [reflexivity | constructor].
  - cbn [notify]. unfold bind at 1. unfold try_catch, listen.
    destruct (l ev (world m)) as [[[] | e] w1] eqn:El.
    + destruct (IH (S k) (mkMachine w1 (locals m))) as (o & w & t & E & Ht).
      rewrite E. exists o, w, (Listen k ev (Ok tt) :: t). cbn [locals app].
      split; [reflexivity |]. constructor; [reflexivity | exact Ht].
    + destruct (report_listener_error_spec e (mkMachine w1 (locals m)))
        as (o1 & w2 & E1 & _).
      rewrite E1. cbn [locals]. destruct o1 as [[] | e1].
      * destruct (IH (S k) (mkMachine w2 (locals m))) as (o & w & t & E & Ht).
        rewrite E. exists o, w, (Listen k ev (Throw e) :: error_sink (config this) e :: t).
        cbn [locals app]. split; [reflexivity |].
        constructor; [reflexivity |]. constructor; [apply error_sink_unlogged | exact Ht].
      * exists (Throw e1), w2, [Listen k ev (Throw e); error_sink (config this) e].
        split; [reflexivity |].
        constructor; [reflexivity |]. constructor; [apply error_sink_unlogged | constructor].
Qed.

Lemma wp_emit_unlogged {L : Type} ev (Q : Post L unit) m :
  (forall o w t,
      Forall (fun x : Obs => is_log x = false) t ->
      Q o (mkMachine w (locals m)) (Emit ev :: t)) ->
  wp (emit this ev) Q m.
Proof.
  intros H. unfold wp, emit, bind, observe.
  destruct (notify_unlogged (listeners this) 0 ev m) as (o & w & t & E & Ht).
  rewrite E. cbn [app]. apply H. exact Ht.
Qed.

Lemma wp_log_silent {L : Type} message args (Q : Post L unit) m :
  verbose (config this) = false -> Q (Ok tt) m [] -> wp (log this message args) Q m.
Proof. intros Hv H. unfold wp, log. rewrite Hv. exact H. Qed.

Section Silent.

Hypothesis Hsilent : verbose (config this) = false.

Ltac silent_step :=
  lazymatch goal with
  | |- wp (bind _ _) _ _ => apply wp_bind
  | |- wp (ret _) _ _ => apply wp_ret
  | |- wp (throw _) _ _ => apply wp_throw
  | |- wp (try_catch _ _) _ _ => apply wp_try_catch
  | |- wp (eval ?x) _ _ => apply wp_eval; destruct x as [? | ?] eqn:?
  | |- wp (get _) _ _ => apply wp_get
  | |- wp (modify _) _ _ => apply wp_modify
  | |- wp (now _) _ _ => apply wp_now; intros ? ? ?
  | |- wp (emit _ _) _ _ =>
      let o := fresh "o" in
      apply wp_emit_unlogged; intros o ? ? ?; destruct o as [[] | ?]
  | |- wp (log _ _ _) _ _ => apply (wp_log_silent _ _ _ _ Hsilent)
  | |- wp (phase _ _) _ _ =>
      let o := fresh "o" in
      apply wp_phase; intros o ? ?; destruct o as [? | ?]
  | |- wp (checkTermination _ _ _ _ _) _ _ =>
      let out := fresh "out" in
      apply wp_checkTermination; [intros ? | intros ? out ? ? ?; destruct out as [? | ?]]
  | |- wp (match ?x with _ => _ end) _ _ => destruct x eqn:?
  end;
  cbn [locals world].

(** No observation of a trace built by appending is a line of the log. *)
Ltac unlogged :=
  repeat first
    [ apply Forall_nil
    | apply Forall_cons; [reflexivity |]
    | apply Forall_app; split
    | assumption ].

Lemma conclude_iteration_silent i s actionResult evaluation context decision
    (m : Machine World Locals) :
  wp (conclude_iteration this i s actionResult evaluation context decision)
    (fun _ _ t => Forall (fun x => is_log x = false) t) m.
Proof. unfold conclude_iteration. repeat silent_step; unlogged. Qed.

Lemma iteration_silent startTime i s (m : Machine World Locals) :
  wp (iteration env this startTime i s)
    (fun _ _ t => Forall (fun x => is_log x = false) t) m.
Proof.
  unfold iteration, timeout_reached, perform_iteration.
  repeat silent_step;
    try (eapply wp_mono; [apply conclude_iteration_silent |];
         cbn beta; intros oc mc tc Hc);
    unlogged.
Qed.

Lemma loop_silent slots startTime i s (m : Machine World Locals) :
  wp (loop env this slots startTime i s)
    (fun _ _ t => Forall (fun x => is_log x = false) t) m.
Proof.
  revert i s m. induction slots as [| n IH]; intros i s m; cbn [loop].
  - apply wp_ret. constructor.
  - apply wp_bind. eapply wp_mono; [apply iteration_silent |].
    cbn beta. intros [[s' | s'] | e] m1 t1 H1.
    + eapply wp_mono; [apply IH |]. cbn beta. intros _ _ t2 H2.
      apply Forall_app. split; assumption.
    + apply wp_ret. rewrite app_nil_r. exact H1.
    + exact H1.
Qed.

Lemma run_silent input (m : Machine World Locals) :
  wp (run env this input) (fun _ _ t => Forall (fun x => is_log x = false) t) m.
Proof.
  unfold run, run_try, prepare, run_from.
  repeat silent_step; unlogged;
    try (unfold run_catch; repeat silent_step; unlogged).
  eapply wp_mono; [apply loop_silent |].
  cbn beta. intros [s' | e] ml tl Hl.
  - unfold complete. repeat silent_step; unlogged;
      unfold run_catch; repeat silent_step; unlogged.
  - unfold run_catch. repeat silent_step; unlogged.
Qed.

End Silent.

(** X7: A run of a processor whose [verbose] is false writes no line of
    the log: neither [logger.log] nor [console.log] is called, whatever the
    phases and the listeners do. *)
Theorem silent_when_not_verbose (input : Input) (w : World) :
  verbose (config this) = false ->
  Forall (fun x => is_log x = false) (snd (run_in env this input w)).
Proof.
  intros Hsilent. unfold run_in.
  pose proof (run_silent Hsilent input (mkMachine w initial_locals)) as H.
  unfold wp in H.
  destruct (run env this input (mkMachine w initial_locals)) as [[o m'] t].
  exact H.
Qed.

(** ** Evaluations made by createEvaluation *)

(** X8: An evaluation made by [createEvaluation(score)] without an
    explicit [shouldContinue], whose score is not below 70 ([NaN] included),
    ends the loop in the iteration it is returned in, whatever [targetScore],
    [minIterations] and the index of the iteration are: its [shouldContinue]
    is false, so the termination evaluator stops at the latest at its third
    rule.  (If [shouldTerminate] throws, that exception is the outcome.) *)
Theorem createEvaluation_default_stops
    (s : State) (value : number) (options : EvaluationOptions)
    (context : IterationContext) (i : Z) (m : Machine World Locals) :
  o_shouldContinue options = None ->
  JS.lt value (num 70) = false ->
  match outcome_of (checkTermination this s (createEvaluation value options) context i m) with
  | Ok (terminate, reason) =>
      terminate = true
      /\ (reason = ManualStop \/ reason = EarlyStop \/ reason = Converged)
  | Throw e =>
      outcome_of (custom_termination this s (createEvaluation value options) context m)
      = Throw e
  end.
Proof.
  intros Hdefault Hscore. rewrite checkTermination_decides.
  unfold bind, outcome_of.
  destruct (custom_termination this s (createEvaluation value options) context m)
    as [[[custom | e] m1] t1]; cbn [fst snd ret]; [| reflexivity].
  unfold termination_decision, termination_rules. cbn [find fst].
  destruct custom; [split; [reflexivity | left; reflexivity] |].
  destruct (JS.ge (score (createEvaluation value options)) (earlyStopScore (config this)));
    [split; [reflexivity | right; left; reflexivity] |].
  cbn [createEvaluation shouldContinue]. rewrite Hdefault. cbn [JS.nullish].
  rewrite Hscore. cbn [negb].
  split; [reflexivity | right; right; reflexivity].
Qed.

End RunProperties.

(* ===================================================================== *)
(** * Properties of the streaming controller *)
(* ===================================================================== *)

(** Case analysis on the membership [H] of an observation in a trace built
    by appending. *)
Ltac in_cases_stream H :=
  cbn [app In] in H;
  repeat match type of H with
         | In _ (_ ++ _) => apply in_app_or in H
         | _ \/ _ => destruct H as [H | H]
         | In _ (_ :: _) => destruct H as [H | H]
         | In _ [] => destruct H
         | False => destruct H
         end.

Section StreamProperties.

Variables Input State ActionData Result World : Type.
Variable env : Environment ActionData World.
Variable this : StreamingIteratoP Input State ActionData Result World.

#[local] Abbreviation Obs := (Observation Input State ActionData Result).

Lemma check_convergence_spec (evaluation : Evaluation) (iteration : Z) :
  check_convergence this evaluation iteration false
  = stream_converges_spec (stream_skipMinIterations this) (stream_targetScore this)
      (stream_minIterations this) evaluation iteration.
Proof.
  unfold check_convergence, stream_converges_spec.
  destruct (stream_skipMinIterations this
            && JS.ge (score evaluation) (stream_targetScore this)); [reflexivity |].
  destruct (JS.ge (score evaluation) (stream_targetScore this)
            && (iteration >=? stream_minIterations this)); [reflexivity |].
  destruct (negb (shouldContinue evaluation) && (iteration >=? stream_minIterations this));
    reflexivity.
Qed.

Ltac stream_step :=
  lazymatch goal with
  | |- wp (bind _ _) _ _ => apply wp_bind
  | |- wp (ret _) _ _ => apply wp_ret
  | |- wp (now _) _ _ => apply wp_now; intros ? ? ?
  | |- wp (phase _ _) _ _ =>
      let o := fresh "o" in
      apply wp_phase; intros o ? ?; destruct o as [? | ?]
  | |- wp (match ?x with _ => _ end) _ _ => destruct x eqn:?
  end;
  cbn [locals world].

(** One pass of the streaming loop, entered with [converged] false as the
    loop test requires: the phases are called with the counter plus one; if
    the evaluate phase returned, the transition phase is called exactly when
    the rule of the specification does not hold of that evaluation; and a
    pass that completes has incremented the counter, and breaks exactly when
    it converged. *)
Lemma stream_iteration_spec startTime iterationStartTime (v : StreamVars State ActionData)
    (m : Machine World unit) :
  converged v = false ->
  wp (stream_iteration env this startTime iterationStartTime v)
    (fun o _ t =>
       (forall x ctx, In x t -> call_context x = Some ctx ->
                      ctx_iteration ctx = iteration_counter v + 1)
       /\ (forall s a ctx e,
             In (Call (CEvaluate s a ctx (Ok e))) t ->
             (transition_called t <->
              stream_converges_spec (stream_skipMinIterations this)
                (stream_targetScore this) (stream_minIterations this) e
                (iteration_counter v + 1) = false))
       /\ (forall v' brk, o = Ok (v', brk) ->
             iteration_counter v' = iteration_counter v + 1 /\ brk = converged v')) m.
Proof.
  intros Hv. unfold stream_iteration. rewrite Hv.
  repeat stream_step;
    (split;
     [ let x := fresh "x" in
       let ctx := fresh "ctx" in
       let Hin := fresh "Hin" in
       let Hc := fresh "Hc" in
       intros x ctx Hin Hc; in_cases_stream Hin; subst x; cbn in Hc;
       injection Hc as <-; reflexivity
     | split;
       [ let Hin := fresh "Hin" in
         intros ? ? ? ? Hin; in_cases_stream Hin; try discriminate Hin;
         injection Hin as <- <- <- <-;
         rewrite <- check_convergence_spec;
         match goal with
         | H : negb _ = true |- _ => apply negb_true_iff in H; rewrite H
         | H : negb _ = false |- _ => apply negb_false_iff in H; rewrite H
         end;
         (split;
          [ let Hcalled := fresh "Hcalled" in
            intros Hcalled; try reflexivity;
            destruct Hcalled as (? & ? & ? & ? & ? & Hcalled);
            in_cases_stream Hcalled; discriminate Hcalled
          | let Hf := fresh "Hf" in
            intros Hf; try discriminate Hf;
            do 5 eexists;
            repeat first [apply in_eq | apply in_cons | apply in_or_app; right] ])
       | let Heq := fresh "Heq" in
         intros ? ? Heq; try discriminate Heq; injection Heq as <- <-;
         split; reflexivity ] ]).
Qed.

Lemma stream_pass_contexts startTime (v : StreamVars State ActionData)
    (m : Machine World unit) :
  converged v = false ->
  wp (stream_pass env this startTime v)
    (fun o _ t =>
       (forall x ctx, In x t -> call_context x = Some ctx ->
                      ctx_iteration ctx = iteration_counter v + 1)
       /\ (forall v', o = Ok (v', false) ->
             iteration_counter v' = iteration_counter v + 1)) m.
Proof.
  intros Hv. unfold stream_pass, stream_timeout_reached.
  repeat stream_step;
    try (eapply wp_mono; [apply stream_iteration_spec; exact Hv |];
         cbn beta; intros op mp tp (Hctx & _ & Hnext);
         split; [exact Hctx | intros v' Hv'; apply (Hnext v' false Hv')]);
    (split;
     [ intros x ctx Hin; in_cases_stream Hin
     | intros v' Hv'; discriminate Hv' ]).
Qed.

Lemma stream_loop_contexts slots startTime (v : StreamVars State ActionData)
    (m : Machine World unit) :
  wp (stream_loop env this slots startTime v)
    (fun _ _ t =>
       forall x ctx, In x t -> call_context x = Some ctx ->
                     iteration_counter v + 1 <= ctx_iteration ctx) m.
Proof.
  revert v m. induction slots as [| n IH]; intros v m; cbn [stream_loop].
  - apply wp_ret. intros x ctx [].
  - destruct (converged v) eqn:Hv.
    + apply wp_ret. intros x ctx [].
    + apply wp_bind. eapply wp_mono; [apply stream_pass_contexts; exact Hv |].
      cbn beta. intros [[v' brk] | e] m1 t1 [Hctx Hnext].
      * cbn [fst snd]. destruct brk.
        -- apply wp_ret. rewrite app_nil_r. intros x ctx Hin Hc.
           rewrite (Hctx x ctx Hin Hc). lia.
        -- eapply wp_mono; [apply IH |]. cbn beta. intros _ _ t2 Hrest x ctx Hin Hc.
           apply in_app_or in Hin. destruct Hin as [Hin | Hin].
           ++ rewrite (Hctx x ctx Hin Hc). lia.
           ++ specialize (Hrest x ctx Hin Hc). rewrite (Hnext v' eq_refl) in Hrest. lia.
      * intros x ctx Hin Hc. rewrite (Hctx x ctx Hin Hc). lia.
Qed.

(** The streaming controller reads neither [earlyStopScore], nor
    [alwaysRunTransition], nor [shouldTerminate]. *)
Lemma stream_loop_ignores_batch_rules early always custom slots startTime
    (v : StreamVars State ActionData) (m : Machine World unit) :
  stream_loop env (with_batch_rules this early always custom) slots startTime v m
  = stream_loop env this slots startTime v m.
Proof.
  revert v m. induction slots as [| n IH]; intros v m; cbn [stream_loop]; [reflexivity |].
  destruct (converged v); [reflexivity |].
  unfold bind.
  assert (Hpass : stream_pass env (with_batch_rules this early always custom) startTime v m
                  = stream_pass env this startTime v m).
  { unfold stream_pass, stream_timeout_reached, stream_iteration, check_convergence,
      stream_timeout, stream_maxIterations, stream_minIterations, stream_targetScore,
      stream_skipMinIterations, with_batch_rules.
    cbn [stream_config stream_options act evaluate transition].
    destruct (stream_options this); reflexivity. }
  rewrite Hpass.
  destruct (stream_pass env this startTime v m) as [[[[v' brk] | e] m1] t1];
    [| reflexivity].
  cbn [fst snd]. destruct brk; [reflexivity |]. rewrite IH. reflexivity.
Qed.


(** ** The states of a stream *)

Lemma counts_from_snoc i (l : list Z) :
  counts_from i l -> counts_from i (l ++ [i + Z.of_nat (List.length l)]).
Proof.
  intros H k x Hx.
  destruct (Nat.lt_ge_cases k (List.length l)) as [Hlt | Hge].
  - rewrite nth_error_app1 in Hx by exact Hlt. exact (H k x Hx).
  - rewrite nth_error_app2 in Hx by exact Hge.
    destruct (k - List.length l)%nat as [| j] eqn:E; cbn in Hx.
    + injection Hx as <-. f_equal. lia.
    + destruct j; discriminate Hx.
Qed.

Lemma filter_defined_snoc {A : Type} (l : list (option A)) (x : option A) :
  filter_defined (l ++ [x])
  = filter_defined l ++ match x with Some a => [a] | None => [] end.
Proof.
  unfold filter_defined. rewrite flat_map_app. cbn [flat_map]. rewrite app_nil_r.
  reflexivity.
Qed.

Lemma stream_head_done (v : StreamVars State ActionData) (bound : nat) :
  stream_head v -> (List.length (states v) <= bound)%nat -> stream_done bound v.
Proof.
  intros (_ & _ & Hcount & Hprog & (front & back & Hst & Hback) & Hev & Hact & _ & Hhist)
    Hbound.
  split; [exact Hbound |]. split; [exact Hcount |]. split.
  - exists front, back. split; [exact Hst |]. split; [| exact Hback].
    rewrite Hst in Hprog. apply Forall_app in Hprog. exact (proj1 Hprog).
  - split; [exact Hev |]. split; [exact Hact | exact Hhist].
Qed.

Lemma stream_done_weaken (v : StreamVars State ActionData) (bound bound' : nat) :
  stream_done bound v -> (bound <= bound')%nat -> stream_done bound' v.
Proof.
  intros (Hb & Hrest) Hle. split; [lia | exact Hrest].
Qed.

(** The variables after a pass that ran the iteration and recorded [entry]. *)
Lemma head_push_iteration (v : StreamVars State ActionData) (cs : State) (conv : bool)
    (entry : IterationHistory ActionData) (ctx : IterationContext) :
  stream_head v ->
  h_iteration entry = iteration_counter v + 1 ->
  let pushed :=
    mkStreamingState (iteration_counter v + 1) cs (Some (h_evaluation entry))
      (Some (h_actionResult entry)) conv None ctx in
  let v' :=
    mkStreamVars cs (iteration_counter v + 1) conv (stream_history v ++ [entry])
      (states v ++ [pushed]) in
  (conv = false ->
   stream_head v' /\ List.length (states v') = S (List.length (states v)))
  /\ (conv = true -> stream_done (S (List.length (states v))) v').
Proof.
  intros (Hc & Hlen & Hcount & Hprog & (front & back & Hst & Hback) & Hev & Hact
          & Hhl & Hhist) Hentry.
  cbv zeta. cbn [states stream_history converged iteration_counter currentState].
  assert (Hlen' : List.length (states v ++ [mkStreamingState (iteration_counter v + 1) cs
                     (Some (h_evaluation entry)) (Some (h_actionResult entry)) conv None ctx])
                  = S (List.length (states v))).
  { rewrite length_app. cbn [List.length]. lia. }
  assert (Hcount' : counts_from 0
                      (map (fun st : StreamingState State ActionData => s_iteration st)
                         (states v ++ [mkStreamingState (iteration_counter v + 1) cs
                            (Some (h_evaluation entry)) (Some (h_actionResult entry))
                            conv None ctx]))).
  { rewrite map_app. cbn [map s_iteration].
    replace (iteration_counter v + 1)
      with (0 + Z.of_nat (List.length
                            (map (fun st : StreamingState State ActionData => s_iteration st)
                               (states v))))
      by (rewrite length_map; lia).
    apply counts_from_snoc. exact Hcount. }
  assert (Hev' : filter_defined
                   (map (fun st : StreamingState State ActionData => s_evaluation st)
                      (states v ++ [mkStreamingState (iteration_counter v + 1) cs
                         (Some (h_evaluation entry)) (Some (h_actionResult entry))
                         conv None ctx]))
                 = map (fun e : IterationHistory ActionData => h_evaluation e)
                     (stream_history v ++ [entry])).
  { rewrite !map_app. cbn [map s_evaluation]. rewrite filter_defined_snoc, Hev.
    reflexivity. }
  assert (Hact' : filter_defined
                    (map (fun st : StreamingState State ActionData => s_actionResult st)
                       (states v ++ [mkStreamingState (iteration_counter v + 1) cs
                          (Some (h_evaluation entry)) (Some (h_actionResult entry))
                          conv None ctx]))
                  = map (fun e : IterationHistory ActionData => h_actionResult e)
                      (stream_history v ++ [entry])).
  { rewrite !map_app. cbn [map s_actionResult]. rewrite filter_defined_snoc, Hact.
    reflexivity. }
  assert (Hhist' : counts_from 1
                     (map (fun e : IterationHistory ActionData => h_iteration e)
                        (stream_history v ++ [entry]))).
  { rewrite map_app. cbn [map]. rewrite Hentry.
    replace (iteration_counter v + 1)
      with (1 + Z.of_nat (List.length
                            (map (fun e : IterationHistory ActionData => h_iteration e)
                               (stream_history v))))
      by (rewrite length_map; lia).
    apply counts_from_snoc. exact Hhist. }
  split.
  - intros ->. split; [| exact Hlen']. unfold stream_head.
    cbn [states stream_history converged iteration_counter currentState].
    split; [reflexivity |]. split; [rewrite Hlen'; lia |].
    split; [exact Hcount' |]. split.
    { apply Forall_app. split; [exact Hprog |].
      constructor; [split; reflexivity | constructor]. }
    split; [eexists _, _; split; reflexivity |].
    split; [exact Hev' |]. split; [exact Hact' |].
    split; [rewrite length_app; cbn [List.length]; lia | exact Hhist'].
  - intros ->. unfold stream_done.
    cbn [states stream_history converged iteration_counter currentState].
    split; [rewrite Hlen'; lia |]. split; [exact Hcount' |]. split.
    { eexists _, _. split; [reflexivity |]. split; [exact Hprog | reflexivity]. }
    split; [exact Hev' |]. split; [exact Hact' | exact Hhist'].
Qed.

(** The variables after the pass that timed out. *)
Lemma head_push_timeout (v : StreamVars State ActionData) (ctx : IterationContext) :
  stream_head v ->
  stream_done (S (List.length (states v)))
    (mkStreamVars (currentState v) (iteration_counter v) (converged v) (stream_history v)
       (states v
        ++ [mkStreamingState (iteration_counter v + 1) (currentState v) None None false
              (Some true) ctx])).
Proof.
  intros (Hc & Hlen & Hcount & Hprog & (front & back & Hst & Hback) & Hev & Hact
          & Hhl & Hhist).
  unfold stream_done. cbn [states stream_history converged iteration_counter currentState].
  split; [rewrite length_app; cbn [List.length]; lia |]. split.
  { rewrite map_app. cbn [map s_iteration].
    replace (iteration_counter v + 1)
      with (0 + Z.of_nat (List.length
                            (map (fun st : StreamingState State ActionData => s_iteration st)
                               (states v))))
      by (rewrite length_map; lia).
    apply counts_from_snoc. exact Hcount. }
  split.
  { eexists _, _. split; [reflexivity |]. split; [exact Hprog | reflexivity]. }
  split.
  { rewrite map_app. cbn [map s_evaluation]. rewrite filter_defined_snoc, Hev.
    apply app_nil_r. }
  split; [| exact Hhist].
  rewrite map_app. cbn [map s_actionResult]. rewrite filter_defined_snoc, Hact.
  apply app_nil_r.
Qed.

Lemma stream_pass_states startTime (v : StreamVars State ActionData)
    (m : Machine World unit) :
  stream_head v ->
  wp (stream_pass env this startTime v)
    (fun o _ _ =>
       forall v' brk, o = Ok (v', brk) ->
         (brk = false ->
          stream_head v' /\ List.length (states v') = S (List.length (states v)))
         /\ (brk = true -> stream_done (S (List.length (states v))) v')) m.
Proof.
  intros Hhead. unfold stream_pass, stream_timeout_reached, stream_iteration.
  repeat stream_step;
    intros v' brk Heq; try discriminate Heq; injection Heq as <- <-.
  all: try (split; [intros Hb; discriminate Hb | intros _; apply head_push_timeout; exact Hhead]).
  all: match goal with
       | |- context [mkHistory ?i ?a ?e ?ts ?d] =>
           apply (head_push_iteration v _ _ (mkHistory i a e ts d) _ Hhead eq_refl)
       end.
Qed.

Lemma stream_loop_states slots startTime (v : StreamVars State ActionData)
    (m : Machine World unit) :
  stream_head v ->
  wp (stream_loop env this slots startTime v)
    (fun o _ _ =>
       forall v', o = Ok v' -> stream_done (List.length (states v) + slots) v') m.
Proof.
  revert v m. induction slots as [| n IH]; intros v m Hhead; cbn [stream_loop].
  - apply wp_ret. intros v' [= <-]. apply stream_head_done; [exact Hhead | lia].
  - rewrite (proj1 Hhead).
    apply wp_bind. eapply wp_mono; [apply (stream_pass_states startTime v m Hhead) |].
    cbn beta. intros [[v1 brk] | e] m1 t1 H1; [| intros v' Hv'; discriminate Hv'].
    cbn [fst snd]. destruct (H1 v1 brk eq_refl) as [Hfalse Htrue].
    destruct brk.
    + apply wp_ret. intros v' [= <-].
      eapply stream_done_weaken; [exact (Htrue eq_refl) | lia].
    + destruct (Hfalse eq_refl) as [Hhead1 Hlen1].
      eapply wp_mono; [apply (IH v1 m1 Hhead1) |].
      cbn beta. intros o2 _ _ H2 v' Hv'.
      eapply stream_done_weaken; [exact (H2 v' Hv') | lia].
Qed.

Lemma executeStream_states input (m : Machine World unit) :
  wp (executeStream env this input)
    (fun o _ t =>
       forall sts, o = Ok sts ->
         exists v result,
           sts = states v
           /\ stream_done (S (Z.to_nat (stream_maxIterations this))) v
           /\ In (Call (CFinalize (currentState v) (stream_history v) (Ok result))) t) m.
Proof.
  unfold executeStream.
  repeat stream_step; try (intros sts Hsts; discriminate Hsts).
  eapply wp_mono.
  - apply stream_loop_states.
    unfold stream_head. cbn [states stream_history converged iteration_counter currentState].
    split; [reflexivity |]. split; [reflexivity |].
    split; [apply counts_from_cons, counts_from_nil |].
    split; [constructor; [split; reflexivity | constructor] |].
    split; [eexists [], _; split; reflexivity |].
    split; [reflexivity |]. split; [reflexivity |].
    split; [reflexivity | apply counts_from_nil].
  - cbn beta. cbn [states List.length Nat.add].
    intros [v | e] ml tl Hl; [| intros sts Hsts; discriminate Hsts].
    repeat stream_step; intros sts Hsts; try discriminate Hsts.
    injection Hsts as <-. eexists v, _. split; [reflexivity |].
    split; [exact (Hl v eq_refl) |].
    repeat first [apply in_eq | apply in_cons | apply in_or_app; right].
Qed.

(** X9: The array behind the stream that [executeStream] returns holds at
    least the initial state and at most [maxIterations + 1] states; the
    state at position [k] has [iteration = k] (the initial state 0, the
    iterations from 1, a timed-out state the number of the iteration that
    did not start); and every state but the last is neither converged nor
    timed out. *)
Theorem stream_states_shape (input : Input) (m : Machine World unit) :
  match outcome_of (executeStream env this input m) with
  | Ok sts =>
      (1 <= List.length sts <= S (Z.to_nat (stream_maxIterations this)))%nat
      /\ counts_from 0 (map (fun st => s_iteration st) sts)
      /\ exists front back, sts = front ++ [back] /\ Forall in_progress front
  | Throw _ => True
  end.
Proof.
  pose proof (executeStream_states input m) as H. unfold wp, outcome_of in *.
  destruct (executeStream env this input m) as [[[sts | e] m'] t]; cbn [fst];
    [| exact I].
  destruct (H sts eq_refl)
    as (v & result & -> & (Hb & Hcount & (front & back & Hst & Hprog & _) & _) & _).
  split; [| split; [exact Hcount | exists front, back; split; assumption]].
  split; [| exact Hb]. rewrite Hst, length_app. cbn [List.length]. lia.
Qed.


(** ** The exceptions of a stream *)

Lemma plain_calls_app (t1 t2 : list Obs) :
  plain_calls t1 -> plain_calls t2 -> plain_calls (t1 ++ t2).
Proof.
  intros H1 H2 c Hin. apply in_app_or in Hin. destruct Hin as [Hin | Hin]; auto.
Qed.

Lemma fails_with_phase_bind {A B : Type} (a : A) (o : outcome B) (t1 t2 : list Obs) :
  fails_with_phase (Ok a) t1 -> fails_with_phase o t2 -> fails_with_phase o (t1 ++ t2).
Proof.
  intros H1 H2. destruct o as [b | e]; cbn in *.
  - apply plain_calls_app; assumption.
  - destruct H2 as (front & c & -> & Hpe & Hplain & Hfront).
    exists (t1 ++ front), c. rewrite app_assoc. split; [reflexivity |].
    split; [exact Hpe |]. split; [exact Hplain |].
    apply plain_calls_app; assumption.
Qed.

(** The calls of a trace of calls built by appending all returned. *)
Ltac calls_returned :=
  let c := fresh "c" in
  let Hin := fresh "Hin" in
  intros c Hin; in_cases_stream Hin; injection Hin as <-; split; reflexivity.

(** The outcome of a trace of calls built by appending is the exception of
    the call that threw, which is the last one. *)
Ltac phase_failure :=
  cbn [fails_with_phase app];
  first
    [ calls_returned
    | eexists [], _; split; [reflexivity |];
      split; [reflexivity |]; split; [reflexivity |]; calls_returned
    | eexists [_], _; split; [reflexivity |];
      split; [reflexivity |]; split; [reflexivity |]; calls_returned
    | eexists [_; _], _; split; [reflexivity |];
      split; [reflexivity |]; split; [reflexivity |]; calls_returned ].

Lemma stream_pass_fails startTime (v : StreamVars State ActionData)
    (m : Machine World unit) :
  wp (stream_pass env this startTime v) (fun o _ t => fails_with_phase o t) m.
Proof.
  unfold stream_pass, stream_timeout_reached, stream_iteration.
  repeat stream_step; phase_failure.
Qed.

Lemma stream_loop_fails slots startTime (v : StreamVars State ActionData)
    (m : Machine World unit) :
  wp (stream_loop env this slots startTime v) (fun o _ t => fails_with_phase o t) m.
Proof.
  revert v m. induction slots as [| n IH]; intros v m; cbn [stream_loop].
  - apply wp_ret. phase_failure.
  - destruct (converged v); [apply wp_ret; phase_failure |].
    apply wp_bind. eapply wp_mono; [apply stream_pass_fails |].
    cbn beta. intros [[v1 brk] | e] m1 t1 H1; cbn [fst snd]; [| exact H1].
    destruct brk.
    + apply wp_ret. rewrite app_nil_r. exact H1.
    + eapply wp_mono; [apply IH |]. cbn beta. intros o2 _ t2 H2.
      exact (fails_with_phase_bind _ _ _ _ H1 H2).
Qed.

(** X11: [executeStream] has no error path of its own.  It shows nothing
    but calls of the five phases: [onError] and [shouldTerminate] are never
    consulted.  It resolves when every call returned, and it rejects exactly
    when a phase throws, with the very value the phase threw (not turned
    into an [Error]); the call that threw is the last one: no phase is
    called after it, [finalize] included. *)
Theorem stream_errors_propagate (input : Input) (m : Machine World unit) :
  let r := executeStream env this input m in
  (forall c, In (Call c) (trace_of r) -> is_plain_phase c = true)
  /\ match outcome_of r with
     | Ok _ => forall c, In (Call c) (trace_of r) -> phase_error c = None
     | Throw e =>
         exists front c,
           trace_of r = front ++ [Call c]
           /\ phase_error c = Some e
           /\ forall c', In (Call c') front -> phase_error c' = None
     end.
Proof.
  cbv zeta.
  assert (H : wp (executeStream env this input) (fun o _ t => fails_with_phase o t) m).
  { unfold executeStream.
    repeat stream_step; try phase_failure.
    eapply wp_mono; [apply stream_loop_fails |].
    cbn beta. intros [v | e] ml tl Hl.
    - repeat stream_step; rewrite ?app_nil_r; cbn [app];
        match goal with
        | |- fails_with_phase _ (?x :: ?rest) =>
            change (x :: rest) with ([x] ++ rest);
            (apply (fails_with_phase_bind tt); [phase_failure |])
        end;
        (apply (fails_with_phase_bind v); [exact Hl | phase_failure]).
    - cbn [app].
      match goal with
      | |- fails_with_phase _ (?x :: ?rest) =>
          change (x :: rest) with ([x] ++ rest);
          (apply (fails_with_phase_bind tt); [phase_failure | exact Hl])
      end. }
  unfold wp, outcome_of, trace_of in *.
  destruct (executeStream env this input m) as [[[sts | e] m'] t]; cbn [fst snd] in *.
  - split; intros c Hin; apply (H c Hin).
  - destruct H as (front & c & -> & Hpe & Hplain & Hfront). split.
    + intros c0 Hin. apply in_app_or in Hin. destruct Hin as [Hin | [Hin | []]].
      * apply (Hfront c0 Hin).
      * injection Hin as <-. exact Hplain.
    + exists front, c. split; [reflexivity |]. split; [exact Hpe |].
      intros c' Hin. apply (Hfront c' Hin).
Qed.

(** ** execute *)

(** X12: On a streaming iterator whose [minIterations] exceeds its
    [maxIterations] (after the defaults 1 and 5), [execute] rejects with
    the validation error of the batch constructor before any phase is
    called, whereas [executeStream] validates nothing: it starts by calling
    [initialize]. *)
Theorem execute_validates_bounds (input : Input)
    (m : Machine World (RunLocals State ActionData)) (mu : Machine World unit) :
  stream_minIterations this > stream_maxIterations this ->
  execute env this input m
  = (Throw (invalid_configuration (stream_minIterations this) (stream_maxIterations this)),
     m, [])
  /\ exists out rest,
      trace_of (executeStream env this input mu) = Call (CInitialize input out) :: rest.
Proof.
  intros Hbounds. split.
  - unfold execute, createIterator, new_IterationProcessor.
    unfold stream_minIterations, stream_maxIterations, option_field in *.
    destruct (stream_options this) as [cfg |]; cbn [JS.nullish] in *.
    + destruct (Z.gtb_spec (c_minIterations cfg ?? 1) (c_maxIterations cfg ?? 5))
        as [_ | H]; [reflexivity | lia].
    + cbn in Hbounds. lia.
  - unfold executeStream, bind, phase, trace_of.
    destruct (initialize (stream_config this) input (world mu)) as [[s0 | e] w].
    + destruct (now env _) as [[[z | e] m1] t1].
      * destruct (stream_loop env this _ z _ m1) as [[[v | e] m2] t2].
        -- destruct (finalize (stream_config this) (currentState v) (stream_history v)
                       (world m2)) as [[r | e] w2]; cbn; do 2 eexists; reflexivity.
        -- cbn; do 2 eexists; reflexivity.
      * cbn; do 2 eexists; reflexivity.
    + cbn; do 2 eexists; reflexivity.
Qed.

End StreamProperties.

(* ===================================================================== *)
(** * Properties of the configuration methods, of the builder and of the
      helpers *)
(* ===================================================================== *)

Section ConfigurationProperties.

Variables Input State ActionData Result World : Type.

#[local] Abbreviation Processor := (IterationProcessor Input State ActionData Result World).

Lemma new_IterationProcessor_bounds
    (opts : IterationOptions Input State ActionData Result World)
    (cfg : IterationConfig World) (p : Processor) :
  new_IterationProcessor opts cfg = Ok p ->
  minIterations (config p) <= maxIterations (config p).
Proof.
  unfold new_IterationProcessor.
  destruct (Z.gtb_spec (c_minIterations cfg ?? 1) (c_maxIterations cfg ?? 5)) as [H | H];
    [discriminate |].
  intros [= <-]. cbn. lia.
Qed.


(** X14: [resetConfig()] puts back exactly the configuration that
    [createIterator(options)] resolves when no configuration is given
    (5 iterations, scores 70 and 95, 1 minimum iteration, no timeout, no
    logger, the three flags off), and keeps the options and the listeners. *)
Theorem resetConfig_restores_defaults (this : Processor) :
  createIterator (options this) None
  = Ok (mkProcessor (options this) (getConfig (resetConfig this)) [])
  /\ options (resetConfig this) = options this
  /\ listeners (resetConfig this) = listeners this.
Proof. repeat split. Qed.


End ConfigurationProperties.

Section BuilderProperties.

Variables Input State ActionData Result World : Type.

#[local] Abbreviation Processor := (IterationProcessor Input State ActionData Result World).
#[local] Abbreviation IterationBuilder :=
  (Builder.IterationBuilder Input State ActionData Result World).

Lemma fold_on_listeners (ls : list (IterationEventListener Input State ActionData Result World))
    (p : Processor) :
  fold_left (fun q listener => on q listener) ls p
  = mkProcessor (options p) (config p) (listeners p ++ ls).
Proof.
  revert p. induction ls as [| l ls IH]; intros p.
  - cbn. rewrite app_nil_r. destruct p; reflexivity.
  - cbn [fold_left]. rewrite IH. cbn. rewrite <- app_assoc. reflexivity.
Qed.

(** X16: [build()] returns a processor exactly when the five phases
    are set and the constructor accepts the configuration of the builder.
    The processor then has the phases and the optional callbacks of the
    builder, the configuration the constructor resolves, and the listeners of
    the builder in the order they were added.  Otherwise it throws: the
    message ["<phase> function is required"] if a phase is missing, the
    error of the constructor if the bounds are refused. *)
Theorem build_succeeds_iff (b : IterationBuilder) :
  match Builder.build b with
  | Ok p =>
      complete_options (Builder.builder_options b) = Some (options p)
      /\ new_IterationProcessor (options p) (Builder.builder_config b)
         = Ok (mkProcessor (options p) (config p) [])
      /\ listeners p = Builder.builder_listeners b
  | Throw e =>
      (complete_options (Builder.builder_options b) = None
       /\ exists phase_name, e = JS.ErrorObj (phase_name ++ " function is required"))
      \/ (exists opts,
            complete_options (Builder.builder_options b) = Some opts
            /\ new_IterationProcessor opts (Builder.builder_config b) = Throw e)
  end.
Proof.
  unfold Builder.build, complete_options.
  destruct (Builder.p_initialize (Builder.builder_options b)) as [i |];
    [| left; split; [reflexivity | exists "initialize"; reflexivity]].
  destruct (Builder.p_act (Builder.builder_options b)) as [a |];
    [| left; split; [reflexivity | exists "act"; reflexivity]].
  destruct (Builder.p_evaluate (Builder.builder_options b)) as [e |];
    [| left; split; [reflexivity | exists "evaluate"; reflexivity]].
  destruct (Builder.p_transition (Builder.builder_options b)) as [t |];
    [| left; split; [reflexivity | exists "transition"; reflexivity]].
  destruct (Builder.p_finalize (Builder.builder_options b)) as [f |];
    [| left; split; [reflexivity | exists "finalize"; reflexivity]].
  unfold createIterator. cbn [JS.nullish].
  destruct (new_IterationProcessor _ (Builder.builder_config b)) as [p | err] eqn:E.
  - rewrite fold_on_listeners. cbn [options config listeners].
    unfold new_IterationProcessor in E.
    destruct (c_minIterations (Builder.builder_config b) ?? 1
              >? c_maxIterations (Builder.builder_config b) ?? 5) eqn:Hb;
      [discriminate E |].
    injection E as <-. cbn [options config listeners app].
    split; [reflexivity |]. split; [| reflexivity].
    unfold new_IterationProcessor. rewrite Hb. reflexivity.
  - right. eexists. split; [reflexivity | exact E].
Qed.

(** X17: [preset(name)] with one of the four preset names overwrites
    [maxIterations], [targetScore], [earlyStopScore], [minIterations] and
    [skipMinIterations] with the values of the preset (which defines all
    five, with [minIterations <= maxIterations]), leaves [timeout], [verbose]
    and [logger] alone, touches [alwaysRunTransition] only for
    ["cost-optimized"], and leaves the phases and the listeners alone.  The
    last write wins: [maxIterations(v)] after the preset gives [v], before
    the preset it is lost.  Any other name leaves the builder as it is. *)
Theorem preset_overrides (b : IterationBuilder) (name : string) :
  match Builder.DEFAULT_PRESETS (World := World) name with
  | Some presetConfig =>
      let c := Builder.builder_config (Builder.preset b name) in
      (exists maxI target early minI skip,
          c_maxIterations c = Some maxI /\ c_maxIterations presetConfig = Some maxI
          /\ c_targetScore c = Some target /\ c_targetScore presetConfig = Some target
          /\ c_earlyStopScore c = Some early /\ c_earlyStopScore presetConfig = Some early
          /\ c_minIterations c = Some minI /\ c_minIterations presetConfig = Some minI
          /\ c_skipMinIterations c = Some skip
          /\ c_skipMinIterations presetConfig = Some skip
          /\ minI <= maxI)
      /\ c_timeout c = c_timeout (Builder.builder_config b)
      /\ c_verbose c = c_verbose (Builder.builder_config b)
      /\ c_logger c = c_logger (Builder.builder_config b)
      /\ c_alwaysRunTransition c
         = (if String.eqb name "cost-optimized" then Some false
            else c_alwaysRunTransition (Builder.builder_config b))
      /\ Builder.builder_options (Builder.preset b name) = Builder.builder_options b
      /\ Builder.builder_listeners (Builder.preset b name) = Builder.builder_listeners b
      /\ (forall v,
            c_maxIterations (Builder.builder_config
                               (Builder.maxIterations (Builder.preset b name) v))
            = Some v)
      /\ (forall v,
            c_maxIterations (Builder.builder_config
                               (Builder.preset (Builder.maxIterations b v) name))
            = c_maxIterations presetConfig)
  | None => Builder.preset b name = b
  end.
Proof.
  unfold Builder.preset, Builder.DEFAULT_PRESETS.
  destruct (String.eqb name "fast") eqn:Hfast.
  { apply String.eqb_eq in Hfast. subst name. cbv zeta. cbn.
    split; [do 5 eexists; repeat split; lia | repeat split]. }
  destruct (String.eqb name "thorough") eqn:Hthorough.
  { apply String.eqb_eq in Hthorough. subst name. cbv zeta. cbn.
    split; [do 5 eexists; repeat split; lia | repeat split]. }
  destruct (String.eqb name "balanced") eqn:Hbalanced.
  { apply String.eqb_eq in Hbalanced. subst name. cbv zeta. cbn.
    split; [do 5 eexists; repeat split; lia | repeat split]. }
  destruct (String.eqb name "cost-optimized") eqn:Hcost.
  { cbv zeta. cbn.
    split; [do 5 eexists; repeat split; lia | repeat split]. }
  reflexivity.
Qed.

(** X18: Whatever was configured before, the configuration left by
    [preset(name)], for a preset name, is accepted by the constructor.  The
    ["balanced"] preset on a fresh builder resolves to the configuration of
    [createIterator(options)] without one.  The setters do not validate:
    [maxIterations(v)] with [v < 3] after the ["thorough"] preset is refused
    only by the constructor, with the bounds error for [(3, v)]. *)
Theorem presets_build (b : IterationBuilder) (name : string)
    (opts : IterationOptions Input State ActionData Result World) :
  (Builder.DEFAULT_PRESETS (World := World) name <> None ->
   exists p,
     new_IterationProcessor opts (Builder.builder_config (Builder.preset b name)) = Ok p)
  /\ new_IterationProcessor opts
       (Builder.builder_config
          (Builder.preset (Builder.iterationBuilder : IterationBuilder) "balanced"))
     = createIterator opts None
  /\ (forall v, v < 3 ->
        new_IterationProcessor opts
          (Builder.builder_config
             (Builder.maxIterations (Builder.preset b "thorough") v))
        = Throw (invalid_configuration 3 v)).
Proof.
  split; [| split].
  - unfold Builder.preset, Builder.DEFAULT_PRESETS.
    destruct (String.eqb name "fast"); [intros _; eexists; reflexivity |].
    destruct (String.eqb name "thorough"); [intros _; eexists; reflexivity |].
    destruct (String.eqb name "balanced"); [intros _; eexists; reflexivity |].
    destruct (String.eqb name "cost-optimized"); [intros _; eexists; reflexivity |].
    intros H. exfalso. apply H. reflexivity.
  - reflexivity.
  - intros v Hv. unfold new_IterationProcessor. cbn.
    destruct (Z.gtb_spec 3 v) as [_ | H]; [reflexivity | lia].
Qed.

End BuilderProperties.

Section DeduplicateProperties.

Variable T : Type.
Variable getKey : T -> string.

#[local] Abbreviation collect :=
  (fold_left
     (fun (seen : StringMap.t T) (item : T) =>
        if negb (StringMap.has seen (getKey item))
        then StringMap.set seen (getKey item) item else seen)).

Lemma StringMap_has_In {V : Type} (m : StringMap.t V) key :
  StringMap.has m key = true <-> In key (map fst m).
Proof.
  unfold StringMap.has. rewrite existsb_exists. split.
  - intros ([k v] & Hin & Hk). apply String.eqb_eq in Hk. cbn in Hk. subst k.
    apply in_map_iff. exists (key, v). split; [reflexivity | exact Hin].
  - intros Hin. apply in_map_iff in Hin. destruct Hin as ([k v] & Hk & Hin).
    exists (k, v). split; [exact Hin |]. apply String.eqb_eq. exact Hk.
Qed.

Lemma StringMap_set_fresh {V : Type} (m : StringMap.t V) key value :
  StringMap.has m key = false -> StringMap.set m key value = m ++ [(key, value)].
Proof.
  induction m as [| [k v] rest IH]; cbn; intros H; [reflexivity |].
  destruct (String.eqb k key); [discriminate H |]. cbn in H.
  rewrite IH by exact H. reflexivity.
Qed.

Lemma first_with_key_app k (l1 l2 : list T) :
  first_with_key getKey k (l1 ++ l2)
  = match first_with_key getKey k l1 with
    | Some x => Some x
    | None => first_with_key getKey k l2
    end.
Proof.
  unfold first_with_key. induction l1 as [| x l1 IH]; [reflexivity |].
  cbn. destruct (String.eqb (getKey x) k); [reflexivity | exact IH].
Qed.

Lemma keyed_first_with_key seen k :
  keyed getKey seen ->
  In k (map fst seen) -> exists x, first_with_key getKey k (StringMap.values seen) = Some x.
Proof.
  intros [Hkeys _] Hin. unfold first_with_key, StringMap.values.
  induction seen as [| [k0 v] rest IH]; [destruct Hin |].
  cbn. inversion Hkeys as [| ? ? Hk Hrest]; subst. cbn in Hk.
  destruct (String.eqb_spec (getKey v) k) as [_ | Hne].
  - eexists; reflexivity.
  - apply IH; [exact Hrest |]. destruct Hin as [Hin | Hin]; [| exact Hin].
    cbn in Hin. congruence.
Qed.

Lemma keyed_snoc seen item :
  keyed getKey seen -> StringMap.has seen (getKey item) = false ->
  keyed getKey (seen ++ [(getKey item, item)]).
Proof.
  intros [Hkeys Hnodup] Hfresh. split.
  - apply Forall_app. split; [exact Hkeys |]. constructor; [reflexivity | constructor].
  - rewrite map_app. cbn.
    apply NoDup_app; [exact Hnodup | repeat constructor; intros [] | ].
    intros k Hin [<- | []]. apply StringMap_has_In in Hin. congruence.
Qed.

Lemma collect_spec (items : list T) (seen : StringMap.t T) :
  keyed getKey seen ->
  keyed getKey (collect items seen)
  /\ forall k,
      first_with_key getKey k (StringMap.values (collect items seen))
      = match first_with_key getKey k (StringMap.values seen) with
        | Some x => Some x
        | None => first_with_key getKey k items
        end.
Proof.
  revert seen. induction items as [| item items IH]; intros seen Hseen.
  - split; [exact Hseen |]. intros k. cbn [fold_left].
    destruct (first_with_key getKey k (StringMap.values seen)); reflexivity.
  - cbn [fold_left].
    destruct (StringMap.has seen (getKey item)) eqn:Hhas; cbn [negb].
    + destruct (IH seen Hseen) as [Hk Hf]. split; [exact Hk |].
      intros k. rewrite Hf.
      destruct (first_with_key getKey k (StringMap.values seen)) eqn:Hfirst;
        [reflexivity |].
      unfold first_with_key at 2. cbn [find].
      destruct (String.eqb_spec (getKey item) k) as [Heq | _]; [| reflexivity].
      exfalso. subst k. apply StringMap_has_In in Hhas.
      destruct (keyed_first_with_key seen _ Hseen Hhas) as [x Hx]. congruence.
    + rewrite (StringMap_set_fresh seen _ item Hhas).
      pose proof (keyed_snoc seen item Hseen Hhas) as Hseen'.
      destruct (IH _ Hseen') as [Hk Hf]. split; [exact Hk |].
      intros k. rewrite Hf. unfold StringMap.values. rewrite map_app.
      rewrite first_with_key_app. cbn [map snd].
      destruct (first_with_key getKey k (map snd seen)); [reflexivity |].
      unfold first_with_key. cbn [find].
      destruct (String.eqb (getKey item) k); reflexivity.
Qed.

Lemma keyed_keys seen :
  keyed getKey seen -> map getKey (StringMap.values seen) = map fst seen.
Proof.
  intros [Hkeys _]. unfold StringMap.values. rewrite map_map.
  induction Hkeys as [| entry rest Hk _ IH]; [reflexivity |].
  cbn. rewrite Hk, IH. reflexivity.
Qed.

Lemma keyed_empty : keyed getKey StringMap.empty.
Proof. split; constructor. Qed.

Lemma collect_distinct (items : list T) (seen : StringMap.t T) :
  NoDup (map fst seen ++ map getKey items) ->
  StringMap.values (collect items seen) = StringMap.values seen ++ items.
Proof.
  revert seen. induction items as [| item items IH]; intros seen Hnodup.
  - cbn. rewrite app_nil_r. reflexivity.
  - cbn [fold_left].
    assert (Hfresh : StringMap.has seen (getKey item) = false).
    { destruct (StringMap.has seen (getKey item)) eqn:Hhas; [| reflexivity].
      exfalso. apply StringMap_has_In in Hhas. cbn [map] in Hnodup.
      apply NoDup_remove_2 in Hnodup. apply Hnodup, in_or_app. left. exact Hhas. }
    rewrite Hfresh. cbn [negb]. rewrite (StringMap_set_fresh seen _ item Hfresh).
    rewrite IH.
    + unfold StringMap.values. rewrite map_app, <- app_assoc. reflexivity.
    + rewrite map_app, <- app_assoc. exact Hnodup.
Qed.

(** X19: The items that [deduplicateBy] returns have pairwise distinct
    keys, and deduplicating them again changes nothing. *)
Theorem deduplicateBy_keys_distinct (items : list T) :
  NoDup (map getKey (deduplicateBy items getKey))
  /\ deduplicateBy (deduplicateBy items getKey) getKey = deduplicateBy items getKey.
Proof.
  assert (Hnodup : NoDup (map getKey (deduplicateBy items getKey))).
  { unfold deduplicateBy; cbv zeta.
    destruct (collect_spec items StringMap.empty keyed_empty) as [Hk _].
    rewrite (keyed_keys _ Hk). exact (proj2 Hk). }
  split; [exact Hnodup |].
  unfold deduplicateBy at 1; cbv zeta. rewrite collect_distinct; [reflexivity |].
  exact Hnodup.
Qed.

(** X20: For every key, the item that [deduplicateBy] returns under this
    key is the first item of the input that carries it: no key of the input
    is lost, none is invented, and later duplicates are dropped. *)
Theorem deduplicateBy_keeps_first (items : list T) (k : string) :
  first_with_key getKey k (deduplicateBy items getKey) = first_with_key getKey k items.
Proof.
  unfold deduplicateBy; cbv zeta.
  destruct (collect_spec items StringMap.empty keyed_empty) as [_ Hf].
  rewrite Hf. reflexivity.
Qed.

(** X21: On items whose keys are pairwise distinct, [deduplicateBy]
    returns the items themselves, in the same order. *)
Theorem deduplicateBy_distinct_unchanged (items : list T) :
  NoDup (map getKey items) -> deduplicateBy items getKey = items.
Proof.
  intros Hnodup. unfold deduplicateBy; cbv zeta. rewrite collect_distinct; [reflexivity |].
  exact Hnodup.
Qed.

End DeduplicateProperties.

Section HistoryProperties.

Variable T : Type.

Lemma JS_gt_irrefl (x : number) : JS.gt x x = false.
Proof.
  destruct x as [| | q |]; try reflexivity.
  cbn. rewrite (proj2 (Qle_bool_iff q q)); [reflexivity | apply Qle_refl].
Qed.

Lemma at_index_map {A B : Type} (f : A -> B) (l : list A) (i : Z) :
  at_index (map f l) i = option_map f (at_index l i).
Proof.
  unfold at_index. destruct (i <? 0); [reflexivity |]. apply nth_error_map.
Qed.

Lemma at_index_slice_back {A : Type} (l : list A) (w i : Z) :
  1 <= w <= Z.of_nat (List.length l) -> 0 <= i ->
  at_index (slice l (- w)) i = at_index l (Z.of_nat (List.length l) - w + i).
Proof.
  intros Hw Hi. unfold at_index, slice.
  destruct (Z.ltb_spec (- w) 0) as [_ | H]; [| lia].
  destruct (Z.ltb_spec i 0) as [H | _]; [lia |].
  destruct (Z.ltb_spec (Z.of_nat (List.length l) - w + i) 0) as [H | _]; [lia |].
  rewrite nth_error_skipn. f_equal. lia.
Qed.

Lemma length_slice_back {A : Type} (l : list A) (w : Z) :
  1 <= w <= Z.of_nat (List.length l) ->
  Z.of_nat (List.length (slice l (- w))) = w.
Proof.
  intros Hw. unfold slice.
  destruct (Z.ltb_spec (- w) 0) as [_ | H]; [| lia].
  rewrite length_skipn. lia.
Qed.

(** X22: With a window of [w] entries, [1 <= w <= history.length],
    [isImproving] compares two scores only: the one of the newest entry
    must be strictly greater than the one of the entry [w - 1] places before
    it.  With [w = 1] the two are the same entry, and the answer is false. *)
Theorem isImproving_compares_window_ends (h : list (IterationHistory T)) (w : Z) :
  1 <= w <= Z.of_nat (List.length h) ->
  exists newest oldest,
    at_index h (Z.of_nat (List.length h) - 1) = Some newest
    /\ at_index h (Z.of_nat (List.length h) - w) = Some oldest
    /\ isImproving h (Some w)
       = JS.gt (score (h_evaluation newest)) (score (h_evaluation oldest))
    /\ (w = 1 -> isImproving h (Some w) = false).
Proof.
  intros Hw.
  assert (Hat : forall i, 0 <= i < Z.of_nat (List.length h) -> exists x, at_index h i = Some x).
  { intros i Hi. unfold at_index. destruct (Z.ltb_spec i 0) as [H | _]; [lia |].
    destruct (nth_error h (Z.to_nat i)) as [x |] eqn:E; [eexists; reflexivity |].
    apply nth_error_None in E. lia. }
  destruct (Hat (Z.of_nat (List.length h) - 1)) as [newest Hnewest]; [lia |].
  destruct (Hat (Z.of_nat (List.length h) - w)) as [oldest Holdest]; [lia |].
  exists newest, oldest. split; [exact Hnewest |]. split; [exact Holdest |].
  assert (Heq : isImproving h (Some w)
                = JS.gt (score (h_evaluation newest)) (score (h_evaluation oldest))).
  { unfold isImproving. cbn [JS.nullish].
    destruct (Z.ltb_spec (Z.of_nat (List.length h)) w) as [H | _]; [lia |].
    rewrite length_map, (length_slice_back h w Hw), !at_index_map.
    rewrite !(at_index_slice_back h w) by lia.
    replace (Z.of_nat (List.length h) - w + (w - 1)) with (Z.of_nat (List.length h) - 1) by lia.
    rewrite Z.add_0_r, Hnewest, Holdest. reflexivity. }
  split; [exact Heq |].
  intros ->. rewrite Heq.
  assert (newest = oldest) by congruence. subst oldest. apply JS_gt_irrefl.
Qed.

End HistoryProperties.

Section MergeProperties.

Variable plus : number -> number -> number.

Lemma StringSet_from_spec (l : list string) (seen : StringSet.t) :
  NoDup seen ->
  NoDup (fold_left StringSet.add l seen)
  /\ forall x, In x (fold_left StringSet.add l seen) <-> In x seen \/ In x l.
Proof.
  revert seen. induction l as [| y l IH]; intros seen Hseen; cbn [fold_left].
  - split; [exact Hseen |]. intros x. cbn. tauto.
  - unfold StringSet.add at 2 4. unfold StringSet.has.
    destruct (existsb (String.eqb y) seen) eqn:Hhas.
    + destruct (IH seen Hseen) as [Hn Hin]. split; [exact Hn |].
      intros x. rewrite Hin. cbn [In].
      apply existsb_exists in Hhas. destruct Hhas as (z & Hz & Hyz).
      apply String.eqb_eq in Hyz. subst z.
      split; [tauto |]. intros [H | [<- | H]]; tauto.
    + assert (Hnot : ~ In y seen).
      { intros Hy. assert (existsb (String.eqb y) seen = true).
        { apply existsb_exists. exists y. split; [exact Hy | apply String.eqb_refl]. }
        congruence. }
      destruct (IH (seen ++ [y])) as [Hn Hin].
      { apply NoDup_app; [exact Hseen | repeat constructor; intros [] |].
        intros x Hx [<- | []]. exact (Hnot Hx). }
      split; [exact Hn |]. intros x. rewrite Hin, in_app_iff. cbn [In]. tauto.
Qed.

Lemma StringSet_from_members (l : list string) :
  NoDup (StringSet.spread (StringSet.from l))
  /\ forall x, In x (StringSet.spread (StringSet.from l)) <-> In x l.
Proof.
  unfold StringSet.spread, StringSet.from.
  destruct (StringSet_from_spec l [] (NoDup_nil _)) as [Hn Hin].
  split; [exact Hn |]. intros x. rewrite Hin. cbn. tauto.
Qed.

(** X23: The [sources] of a merged action result are defined, hold no
    string twice, and hold exactly the strings that some merged result lists
    among its sources. *)
Theorem mergeActionResults_sources {T : Type} (results : list (ActionResult T))
    (mergeStrategy : list T -> T) :
  exists merged,
    metadata_field (mergeActionResults plus results mergeStrategy) sources = Some merged
    /\ NoDup merged
    /\ forall s,
        In s merged
        <-> exists r, In r results /\ In s (metadata_field r sources ?? []).
Proof.
  eexists. split; [reflexivity |].
  destruct (StringSet_from_members
              (flat_map (fun r : ActionResult T => metadata_field r sources ?? []) results))
    as [Hn Hin].
  split; [exact Hn |]. intros s. rewrite Hin. apply in_flat_map.
Qed.

(** X24: The [warnings] of a merged action result are never an empty
    array: they are undefined when no merged result carries a warning, and
    else the warnings of the results, one result after the other. *)
Theorem mergeActionResults_warnings {T : Type} (results : list (ActionResult T))
    (mergeStrategy : list T -> T) :
  let all := flat_map (fun r : ActionResult T => metadata_field r warnings ?? []) results in
  match metadata_field (mergeActionResults plus results mergeStrategy) warnings with
  | None => forall r, In r results -> metadata_field r warnings ?? [] = []
  | Some ws => ws <> [] /\ ws = all
  end.
Proof.
  cbv zeta. unfold mergeActionResults, metadata_field at 1. cbn [ar_metadata warnings].
  destruct (flat_map (fun r : ActionResult T => metadata_field r warnings ?? []) results)
    as [| x rest] eqn:E; cbn [List.length].
  - cbn. intros r Hr.
    destruct (metadata_field r warnings ?? []) as [| y l] eqn:Er; [reflexivity |].
    exfalso. assert (Hin : In y (flat_map (fun r : ActionResult T => metadata_field r warnings ?? []) results)).
    { apply in_flat_map. exists r. split; [exact Hr |]. rewrite Er. left. reflexivity. }
    rewrite E in Hin. destruct Hin.
  - destruct (Z.gtb_spec (Z.of_nat (S (List.length rest))) 0) as [_ | H]; [| lia].
    split; [discriminate | reflexivity].
Qed.

(** X25: The data of [mergeArrayActionResults(results)] are the arrays of
    the results, one after the other.  With a [dedupe] key they are
    deduplicated across the results: the keys of what is left are pairwise
    distinct, and under each key stands the first item that carries it in
    the first result that has one. *)
Theorem mergeArrayActionResults_data {T : Type} (results : list (ActionResult (list T))) :
  let all := List.concat (map (fun r : ActionResult (list T) => data r) results) in
  data (mergeArrayActionResults plus results None) = all
  /\ forall getKey : T -> string,
      let merged := data (mergeArrayActionResults plus results (Some getKey)) in
      NoDup (map getKey merged)
      /\ forall k, first_with_key getKey k merged = first_with_key getKey k all.
Proof.
  cbv zeta. split; [reflexivity |]. intros getKey.
  unfold mergeArrayActionResults, mergeActionResults. cbn [data].
  unfold deduplicateBy; cbv zeta.
  destruct (collect_spec T getKey
              (List.concat (map (fun r : ActionResult (list T) => data r) results))
              StringMap.empty (keyed_empty T getKey)) as [Hk Hf].
  split.
  - rewrite (keyed_keys T getKey _ Hk). exact (proj2 Hk).
  - intros k. rewrite Hf. reflexivity.
Qed.

End MergeProperties.

Section CombineProperties.

Variables plus times divide : number -> number -> number.

Lemma createEvaluation_in_range_or_NaN (s : number) (options : EvaluationOptions) :
  score (createEvaluation s options) = JS.NaN
  \/ in_score_range (score (createEvaluation s options)) = true.
Proof.
  destruct s as [| | q |]; cbn [createEvaluation score].
  - left. reflexivity.
  - right. reflexivity.
  - right. apply clamp_finite.
  - right. reflexivity.
Qed.

(** X26: Whatever the weights and the arithmetic, the evaluation that
    [combineEvaluations] returns says to continue exactly when one of the
    evaluations does (none does when there is none); it carries no
    [metadata]; its [missingInfo] is undefined when no evaluation misses
    anything, and else the missing items of all of them without repetition;
    and its score is in [[0, 100]] or [NaN]. *)
Theorem combineEvaluations_flags (evs : list Evaluation) (weights : option (list number)) :
  let combined := combineEvaluations plus times divide evs weights in
  let infos := flat_map (fun e => missingInfo e ?? []) evs in
  shouldContinue combined = existsb shouldContinue evs
  /\ metadata combined = None
  /\ match missingInfo combined with
     | None => infos = []
     | Some merged => merged <> [] /\ NoDup merged /\ forall x, In x merged <-> In x infos
     end
  /\ (score combined = JS.NaN \/ in_score_range (score combined) = true).
Proof.
  cbv zeta. unfold combineEvaluations.
  destruct evs as [| e evs]; cbn [List.length Nat.eqb].
  - repeat split. right. reflexivity.
  - set (all := e :: evs).
    split; [reflexivity |]. split; [reflexivity |]. split.
    + cbn [createEvaluation missingInfo o_missingInfo].
      destruct (flat_map (fun e0 => missingInfo e0 ?? []) all) as [| x rest] eqn:E.
      * reflexivity.
      * cbn [List.length].
        destruct (Z.gtb_spec (Z.of_nat (S (List.length rest))) 0) as [_ | H]; [| lia].
        destruct (StringSet_from_members (x :: rest)) as [Hn Hin].
        split; [| split; [exact Hn | exact Hin]].
        intros Hempty. specialize (Hin x). rewrite Hempty in Hin.
        apply Hin. left. reflexivity.
    + apply createEvaluation_in_range_or_NaN.
Qed.

End CombineProperties.

Section RetryProperties.

Variables A World : Type.
Variable times : number -> number -> number.
Variable sleep : number -> World -> World.
Variable fn : Callback World A.

Lemma last_default {B : Type} (x : B) (l : list B) (d d' : B) :
  last (x :: l) d = last (x :: l) d'.
Proof.
  revert x. induction l as [| y l IH]; intros x; [reflexivity |].
  change (last (y :: l) d = last (y :: l) d'). apply IH.
Qed.

Lemma retry_loop_spec (maxR : Z) (cap factor : number) (remaining : nat) (attempt : Z)
    (delay : number) (lastError : option thrown) (w : World) :
  Z.of_nat remaining = Z.max 0 (maxR + 1 - attempt) ->
  match retry_loop times sleep fn maxR cap factor remaining attempt delay lastError w with
  | (Ok a, _, t) =>
      exists failures,
        attempts t = map Throw failures ++ [Ok a]
        /\ (List.length failures < remaining)%nat
        /\ sleeps t = backoff times factor cap (List.length failures) delay
  | (Throw e, _, t) =>
      exists failures,
        attempts t = map Throw failures
        /\ List.length failures = remaining
        /\ e = last (map JS.toError failures) (lastError ?? JS.Value "undefined")
        /\ sleeps t = backoff times factor cap (Nat.pred remaining) delay
  end.
Proof.
  revert attempt delay lastError w.
  induction remaining as [| n IH]; intros attempt delay lastError w Hrem; cbn [retry_loop].
  - exists []. split; [reflexivity |]. split; [reflexivity |]. split; reflexivity.
  - destruct (fn w) as [[a | error] w1].
    + exists []. split; [reflexivity |]. split; [cbn; lia | reflexivity].
    + destruct (Z.ltb_spec attempt maxR) as [Hlt | Hge].
      * specialize (IH (attempt + 1) (JS.min (times delay factor) cap)
                      (Some (JS.toError error)) (sleep delay w1)).
        destruct (retry_loop times sleep fn maxR cap factor n (attempt + 1)
                    (JS.min (times delay factor) cap) (Some (JS.toError error))
                    (sleep delay w1)) as [[[a | e] w2] t];
          destruct IH as (failures & Hatt & Hlen & Hrest); try lia.
        -- exists (error :: failures).
           change (attempts (Attempt (Throw error) :: Sleep delay :: t))
             with (Throw error :: attempts t).
           change (sleeps (Attempt (Throw error) :: Sleep delay :: t))
             with (delay :: sleeps t).
           rewrite Hatt, Hrest. split; [reflexivity |].
           split; [cbn [List.length]; lia | reflexivity].
        -- destruct Hrest as [He Hsl].
           exists (error :: failures).
           change (attempts (Attempt (Throw error) :: Sleep delay :: t))
             with (Throw error :: attempts t).
           change (sleeps (Attempt (Throw error) :: Sleep delay :: t))
             with (delay :: sleeps t).
           rewrite Hatt, Hsl. split; [reflexivity |].
           split; [cbn [List.length]; lia |]. split.
           ++ rewrite He. cbn [JS.nullish]. destruct failures as [| f failures];
                [reflexivity |].
              change (map JS.toError (error :: f :: failures))
                with (JS.toError error :: map JS.toError (f :: failures)).
              change (last (JS.toError error :: map JS.toError (f :: failures))
                        (lastError ?? JS.Value "undefined"))
                with (last (map JS.toError (f :: failures))
                        (lastError ?? JS.Value "undefined")).
              apply last_default.
           ++ destruct n; [lia |]. reflexivity.
      * assert (Hn : n = O) by lia. subst n. cbn [retry_loop].
        exists [error]. split; [reflexivity |]. split; [reflexivity |]. split; reflexivity.
Qed.

(** X27: [withRetry] calls [fn] until it returns, at most
    [maxRetries + 1] times (3 retries by default).  It returns what the
    first successful call returned, every call before having failed, after
    one sleep per failure.  When every call failed it throws the error of
    the last call, as an [Error] object, after [maxRetries] sleeps: none
    follows the last call.  With a negative [maxRetries] it calls nothing
    and throws [undefined]. *)
Theorem withRetry_outcome (options : option RetryOptions) (w : World) :
  let limit := maxRetries (options ?? mkRetryOptions None None None None) ?? 3 in
  match withRetry times sleep fn options w with
  | (Ok a, _, t) =>
      exists failures,
        attempts t = map Throw failures ++ [Ok a]
        /\ Z.of_nat (List.length failures) <= limit
        /\ List.length (sleeps t) = List.length failures
  | (Throw e, _, t) =>
      exists failures,
        attempts t = map Throw failures
        /\ Z.of_nat (List.length failures) = Z.max 0 (limit + 1)
        /\ e = last (map JS.toError failures) (JS.Value "undefined")
        /\ Z.of_nat (List.length (sleeps t)) = Z.max 0 limit
  end.
Proof.
  cbv zeta. unfold withRetry.
  set (limit := maxRetries (options ?? mkRetryOptions None None None None) ?? 3).
  set (delay := initialDelay (options ?? mkRetryOptions None None None None) ?? num 1000).
  set (cap := maxDelay (options ?? mkRetryOptions None None None None) ?? num 10000).
  set (factor := backoffFactor (options ?? mkRetryOptions None None None None) ?? num 2).
  pose proof (retry_loop_spec limit cap factor (Z.to_nat (limit + 1)) 0 delay None w) as H.
  destruct (retry_loop times sleep fn limit cap factor (Z.to_nat (limit + 1)) 0 delay None w)
    as [[[a | e] w'] t].
  - destruct H as (failures & Hatt & Hlen & Hsl); [lia |].
    exists failures. split; [exact Hatt |]. split; [lia |].
    rewrite Hsl. clear. generalize delay.
    induction (List.length failures) as [| k IH]; intros d; [reflexivity |].
    cbn. rewrite IH. reflexivity.
  - destruct H as (failures & Hatt & Hlen & He & Hsl); [lia |].
    exists failures. split; [exact Hatt |]. split; [lia |]. split; [exact He |].
    rewrite Hsl.
    assert (Hb : forall k d, List.length (backoff times factor cap k d) = k).
    { induction k as [| k IH]; intros d; [reflexivity |]. cbn. rewrite IH. reflexivity. }
    rewrite Hb. lia.
Qed.

(** X28: The delays that [withRetry] sleeps are the backoff sequence:
    [initialDelay] first (1000 by default), then each time the previous
    delay times [backoffFactor] (2), capped by [maxDelay] (10000) through
    [Math.min]. *)
Theorem withRetry_backoff (options : option RetryOptions) (w : World) :
  let options' := options ?? mkRetryOptions None None None None in
  let t := snd (withRetry times sleep fn options w) in
  sleeps t
  = backoff times (backoffFactor options' ?? num 2) (maxDelay options' ?? num 10000)
      (List.length (sleeps t)) (initialDelay options' ?? num 1000).
Proof.
  cbv zeta. unfold withRetry.
  set (limit := maxRetries (options ?? mkRetryOptions None None None None) ?? 3).
  set (delay := initialDelay (options ?? mkRetryOptions None None None None) ?? num 1000).
  set (cap := maxDelay (options ?? mkRetryOptions None None None None) ?? num 10000).
  set (factor := backoffFactor (options ?? mkRetryOptions None None None None) ?? num 2).
  assert (Hb : forall k d, List.length (backoff times factor cap k d) = k).
  { induction k as [| k IH]; intros d; [reflexivity |]. cbn. rewrite IH. reflexivity. }
  pose proof (retry_loop_spec limit cap factor (Z.to_nat (limit + 1)) 0 delay None w) as H.
  destruct (retry_loop times sleep fn limit cap factor (Z.to_nat (limit + 1)) 0 delay None w)
    as [[[a | e] w'] t]; cbn [snd].
  - destruct H as (failures & _ & _ & Hsl); [lia |]. rewrite Hsl at 1. rewrite Hsl, Hb.
    reflexivity.
  - destruct H as (failures & _ & _ & _ & Hsl); [lia |]. rewrite Hsl at 1. rewrite Hsl, Hb.
    reflexivity.
Qed.

End RetryProperties.

(* ===================================================================== *)
(** * The theorems on the scenarios of the test suite *)
(* ===================================================================== *)

Lemma no_logger_total (this : IterationProcessor Z Z Z Z Z) :
  logger (config this) = None -> logger_total (config this).
Proof. intros Hnone lg Hlg. rewrite Hnone in Hlg. discriminate Hlg. Qed.

Lemma mock_phases_total (f : Z -> Z) (delay : Z) :
  phases_total (createMockOptions f delay).
Proof.
  repeat split; try (intros; do 2 eexists; reflexivity).
  intros g Hg. discriminate Hg.
Qed.

(** "should throw error when minIterations > maxIterations" *)
Lemma invalid_bounds_rejected_witness :
  new_IterationProcessor (createMockOptions times_ten 0) inverted_bounds
  = Throw (JS.ErrorObj
             "Invalid configuration: minIterations (5) cannot be greater than maxIterations (3)").
Proof.
  exact (proj1 (invalid_bounds_rejected Z Z Z Z Z (createMockOptions times_ten 0)
                  converging_processor inverted_bounds) eq_refl).
Defined.

(** "should use error handler when provided": [act] throws, the [error] event
    is emitted and the run resolves with the fallback. *)
Lemma error_path_witness :
  let run := run_in test_env failing_processor 1 0 in
  In (Emit (EvError (JS.ErrorObj "Test error") 0 (Some 1))) (snd run)
  /\ exists r,
      fst (fst run) = Ok r
      /\ r_result r = -1 /\ r_terminationReason r = ManualStop /\ r_converged r = false.
Proof.
  cbv zeta.
  destruct (error_path Z Z Z Z Z test_env failing_processor 1 0
              (snd (fst (run_in test_env failing_processor 1 0)))
              (fst (fst (run_in test_env failing_processor 1 0)))
              (snd (run_in test_env failing_processor 1 0))
              (CAct 1 (mkContext 0 3 2 None) (Throw (JS.ErrorObj "Test error")))
              (JS.ErrorObj "Test error"))
    as (Hemit & _ & Hhandler).
  - vm_compute. reflexivity.
  - vm_compute. right. right. right. left. reflexivity.
  - reflexivity.
  - split; [exact Hemit |].
    specialize (Hhandler (no_logger_total failing_processor eq_refl)).
    cbn [failing_processor created createIterator] in Hhandler.
    destruct Hhandler as (ctx & out & Hcall & _ & Hres).
    assert (Hout : out = Ok (-1)).
    { vm_compute in Hcall.
      repeat (destruct Hcall as [Hcall | Hcall]; [try discriminate Hcall |]).
      - injection Hcall as _ <-. reflexivity.
      - destruct Hcall. }
    destruct (Hres (-1) Hout) as (r & Hr & Hresult & Hreason & Hconv & _).
    exists r. repeat split; assumption.
Defined.


(** "should use console.error when logger.error is not provided": a listener
    that throws on every event does not keep the run from resolving. *)
Lemma listeners_cannot_abort_witness :
  exists r w' t,
    run_in test_env heckled_processor 1 0 = (Ok r, w', t)
    /\ In (Emit (EvComplete r)) t.
Proof.
  apply (proj2 (listeners_cannot_abort Z Z Z Z Z test_env heckled_processor
                  (no_logger_total heckled_processor eq_refl))).
  - apply mock_phases_total.
  - intros d. exists 1. reflexivity.
Defined.




(** Two items with the ids 1 and 2 are returned as they are. *)
Lemma deduplicateBy_distinct_unchanged_witness :
  deduplicateBy [(1, "a"); (2, "b")] id_key = [(1, "a"); (2, "b")].
Proof.
  apply (deduplicateBy_distinct_unchanged (Z * string) id_key).
  constructor.
  - intros [H | []]. discriminate H.
  - constructor; [intros [] | constructor].
Defined.

(** "should return true when scores are increasing": 30, then 50. *)
Lemma isImproving_compares_window_ends_witness :
  exists newest oldest,
    at_index [entry_scoring 30; entry_scoring 50] 1 = Some newest
    /\ at_index [entry_scoring 30; entry_scoring 50] 0 = Some oldest
    /\ isImproving [entry_scoring 30; entry_scoring 50] (Some 2)
       = JS.gt (score (h_evaluation newest)) (score (h_evaluation oldest))
    /\ (2 = 1 -> isImproving [entry_scoring 30; entry_scoring 50] (Some 2) = false).
Proof.
  apply (isImproving_compares_window_ends Z [entry_scoring 30; entry_scoring 50] 2).
  cbn. lia.
Defined.

(** A score of 75 made by [createEvaluation] ends the loop at index 0 of a
    processor whose [minIterations] is 3. *)
Lemma createEvaluation_default_stops_witness :
  match outcome_of (checkTermination patient_processor 1
                      (createEvaluation (num 75) no_options) (mkContext 0 10 0 None) 0
                      (mkMachine 0 initial_locals)) with
  | Ok (terminate, reason) =>
      terminate = true
      /\ (reason = ManualStop \/ reason = EarlyStop \/ reason = Converged)
  | Throw e =>
      outcome_of (custom_termination patient_processor 1
                    (createEvaluation (num 75) no_options) (mkContext 0 10 0 None)
                    (mkMachine 0 initial_locals))
      = Throw e
  end.
Proof.
  apply (createEvaluation_default_stops Z Z Z Z Z patient_processor 1 (num 75) no_options
           (mkContext 0 10 0 None) 0 (mkMachine 0 initial_locals));
    reflexivity.
Defined.

(** The converging run shows [start], and then one terminal event. *)
Lemma run_ends_with_one_event_witness :
  exists rest,
    snd (run_in test_env converging_processor 5 0) = Emit (EvStart 5) :: rest
    /\ match fst (fst (run_in test_env converging_processor 5 0)) with
       | Ok r =>
           filter is_terminal rest = [Emit (EvComplete r)]
           \/ ((exists e n s, filter is_terminal rest = [Emit (EvError e n s)])
               /\ onError (options converging_processor) <> None
               /\ r_terminationReason r = ManualStop)
       | Throw _ => exists e n s, filter is_terminal rest = [Emit (EvError e n s)]
       end.
Proof.
  apply (run_ends_with_one_event Z Z Z Z Z test_env converging_processor 5 0).
  apply no_logger_total. reflexivity.
Defined.

(** In the converging run [finalize] is called with the state 6 and returns
    6, which is the result. *)
Lemma finalize_receives_witness :
  known_state None (snd (run_in test_env converging_processor 5 0)) = Some 6
  /\ exists r,
      fst (fst (run_in test_env converging_processor 5 0)) = Ok r /\ r_result r = 6.
Proof.
  destruct (finalize_receives Z Z Z Z Z test_env converging_processor 5 0 6
              (completed (snd (run_in test_env converging_processor 5 0))) (Ok 6))
    as (_ & Hstate & Hresult).
  - vm_compute. repeat (first [left; reflexivity | right]).
  - split; [exact Hstate |].
    destruct (Hresult (no_logger_total converging_processor eq_refl) 6 eq_refl)
      as (r & Hr & Hres & _).
    exists r. split; assumption.
Defined.

(** The converging run, which is not verbose, writes no line of the log. *)
Lemma silent_when_not_verbose_witness :
  Forall (fun x => is_log x = false) (snd (run_in test_env converging_processor 5 0)).
Proof.
  apply (silent_when_not_verbose Z Z Z Z Z test_env converging_processor 5 0).
  reflexivity.
Defined.

(** [execute] on the streaming iterator with [minIterations: 5] and
    [maxIterations: 3]. *)
Lemma execute_validates_bounds_witness :
  execute test_env inverted_stream 1 (mkMachine 0 initial_locals)
  = (Throw (JS.ErrorObj
              "Invalid configuration: minIterations (5) cannot be greater than maxIterations (3)"),
     mkMachine 0 initial_locals, []).
Proof.
  exact (proj1 (execute_validates_bounds Z Z Z Z Z test_env inverted_stream 1
                  (mkMachine 0 initial_locals) (mkMachine 0 tt) eq_refl)).
Defined.
